(** * datasheet-validator: the parser, the rule validator and the DataStore

    A shallow embedding of [types.ts], [validate.ts], [parse.ts] and
    [data-store.ts] of the package validator-mastermind, followed by the
    properties of the specification stated and settled on it.

    Conventions of the embedding.
    - A JavaScript string is the [string] of its UTF-8 bytes, so that
      [TextEncoder().encode(s).length] is [String.length]; the [.length]
      of the source (UTF-16 code units) is [utf16_length].
    - A JavaScript number is [JSNumber]: NaN, the two infinities, or the
      rational a finite double denotes.  The code compares numbers and
      never computes with them; rounding to 53 bits is not modelled, the
      overflow of a numeric literal to Infinity is.
    - A JavaScript object used as a record of own properties is an
      association list in property order ([JSObject]); property names found
      on [Object.prototype] are not given their inherited meaning.
    - Objects whose sharing the code relies on (rows, the rows and columns
      arrays, the metadata) carry the address they were allocated at.  The
      code never writes to such an object after building it, so an address
      and its content stay together.
    - A function that can throw returns a [Result]; code that allocates,
      reads the clock or changes the store runs in the state-and-exception
      monad [M].
    - Built-ins of the JavaScript runtime that the code calls and that are
      not modelled here (regular expressions, date parsing, printing of
      numbers, the clock) are the fields of the class [Runtime]. *)

From Stdlib Require Import String Ascii List ZArith NArith QArith Lia Bool Arith.
From Stdlib Require Import DecimalString DecimalNat Permutation Sorted.
Import ListNotations.

Local Open Scope string_scope.
Local Open Scope nat_scope.

Set Implicit Arguments.
Set Warnings "-register-all".

(* ===================================================================== *)
(** * The JavaScript values the code works on *)
(* ===================================================================== *)

Module JS.

(** ** Strings *)

Definition code (c : ascii) : N := N_of_ascii c.

Definition between (lo hi : N) (c : ascii) : bool :=
  ((lo <=? code c) && (code c <=? hi))%N.

Definition is_digit : ascii -> bool := between 48 57.
Definition is_lower : ascii -> bool := between 97 122.
Definition is_upper : ascii -> bool := between 65 90.

(** [\w] of a regular expression without the [u] and [i] flags. *)
Definition is_word (c : ascii) : bool :=
  is_digit c || is_lower c || is_upper c || (code c =? 95)%N.

Definition digit_val (c : ascii) : N := (code c - 48)%N.

(** The number of UTF-16 code units of a string given by its UTF-8 bytes:
    a continuation byte adds none, the lead byte of a four-byte sequence
    stands for a surrogate pair. *)
Fixpoint utf16_length (s : string) : nat :=
  match s with
  | EmptyString => 0
  | String c r =>
      (if between 128 191 c then 0 else if between 240 255 c then 2 else 1)
      + utf16_length r
  end.

(** One WhiteSpace or LineTerminator code point at the head of [s]
    (TAB, LF, VT, FF, CR, SP, U+00A0, U+1680, U+2000..U+200A, U+2028,
    U+2029, U+202F, U+205F, U+3000, U+FEFF), removed. *)
Definition strip_space (s : string) : option string :=
  match s with
  | String c r =>
      if between 9 13 c || (code c =? 32)%N then Some r
      else match r with
           | String d r1 =>
               if (code c =? 194)%N && (code d =? 160)%N then Some r1
               else match r1 with
                    | String e r2 =>
                        let cp := (code c, code d, code e) in
                        match cp with
                        | (225, 154, 128) => Some r2
                        | (226, 128, z) =>
                            if (128 <=? z)%N && (z <=? 138)%N then Some r2
                            else if (z =? 168)%N || (z =? 169)%N || (z =? 175)%N
                                 then Some r2 else None
                        | (226, 129, 159) => Some r2
                        | (227, 128, 128) => Some r2
                        | (239, 187, 191) => Some r2
                        | _ => None
                        end%N
                    | EmptyString => None
                    end
           | EmptyString => None
           end
  | EmptyString => None
  end.

Fixpoint trimStart_fuel (fuel : nat) (s : string) : string :=
  match fuel with
  | O => s
  | S f => match strip_space s with
           | Some r => trimStart_fuel f r
           | None => s
           end
  end.

Definition trimStart (s : string) : string := trimStart_fuel (String.length s) s.

Definition all_space (s : string) : bool :=
  match trimStart s with EmptyString => true | _ => false end.

Fixpoint trimEnd (s : string) : string :=
  match s with
  | EmptyString => EmptyString
  | String c r => if all_space s then EmptyString else String c (trimEnd r)
  end.

(** The double quote, as a character and as a string. *)
Definition dquote_char : ascii := ascii_of_N 34.
Definition dquote : string := String dquote_char EmptyString.

(** [String.prototype.trim] *)
Definition trim (s : string) : string := trimEnd (trimStart s).

Definition lower_ascii (c : ascii) : ascii :=
  if is_upper c then ascii_of_N (code c + 32) else c.

Definition upper_ascii (c : ascii) : ascii :=
  if is_lower c then ascii_of_N (code c - 32) else c.

(** [String.prototype.toLowerCase], on the letters A to Z.  The code only
    compares the result with words made of the letters of true, false, yes
    and no, which no other letter folds to. *)
Fixpoint toLowerCase (s : string) : string :=
  match s with
  | EmptyString => EmptyString
  | String c r => String (lower_ascii c) (toLowerCase r)
  end.

Definition string_of_nat (n : nat) : string :=
  NilEmpty.string_of_uint (Nat.to_uint n).

Definition string_of_N (n : N) : string := string_of_nat (N.to_nat n).

Definition radix36_digit (d : N) : ascii :=
  if (d <? 10)%N then ascii_of_N (48 + d) else ascii_of_N (87 + d).

Fixpoint radix36_fuel (fuel : nat) (n : N) (acc : string) : string :=
  match fuel with
  | O => acc
  | S f =>
      let acc' := String (radix36_digit (n mod 36)) acc in
      if (n <? 36)%N then acc' else radix36_fuel f (n / 36) acc'
  end.

(** [n.toString(36)] for a natural number. *)
Definition toString36 (n : N) : string :=
  radix36_fuel (S (N.to_nat (N.log2 n))) n EmptyString.

(** [(size / 1024 / 1024).toFixed(2)] for a natural number of bytes: the
    two divisions are exact, [toFixed] picks the integer [n] with [n / 100]
    nearest to the quotient and the larger one on a tie. *)
Definition megabytes_toFixed2 (size : N) : string :=
  let n := ((200 * size + 1048576) / 2097152)%N in
  let frac := (n mod 100)%N in
  string_of_N (n / 100) ++ "."
    ++ (if (frac <? 10)%N then "0" else "") ++ string_of_N frac.

(** ** Numbers *)

Inductive JSNumber : Type :=
| JNaN
| JInf (negative : bool)
| JFin (q : Q).

Definition isNaN (n : JSNumber) : bool :=
  match n with JNaN => true | _ => false end.

Definition isFinite (n : JSNumber) : bool :=
  match n with JFin _ => true | _ => false end.

Definition Qltb (a b : Q) : bool :=
  match Qcompare a b with Lt => true | _ => false end.

(** [a < b] on numbers: false as soon as one side is NaN. *)
Definition lt (a b : JSNumber) : bool :=
  match a, b with
  | JNaN, _ | _, JNaN => false
  | JInf true, JInf true => false
  | JInf true, _ => true
  | _, JInf true => false
  | JInf false, _ => false
  | JFin _, JInf false => true
  | JFin x, JFin y => Qltb x y
  end.

(** [a > b] *)
Definition gt (a b : JSNumber) : bool := lt b a.

Definition of_nat (n : nat) : JSNumber := JFin (inject_Z (Z.of_nat n)).

(** Decimals at or above this bound round to Infinity (halfway between the
    largest double and 2^1024, the tie going to the even neighbour). *)
Definition overflow_bound : Z := (2 ^ 1024 - 2 ^ 970)%Z.

(** The number denoted by [m * 10^e], negated when [neg]. *)
Definition of_decimal (neg : bool) (m : N) (e : Z) : JSNumber :=
  let mz := Z.of_N m in
  let over :=
    if (0 <=? e)%Z then (overflow_bound <=? mz * 10 ^ e)%Z
    else (overflow_bound * 10 ^ (- e) <=? mz)%Z in
  if over then JInf neg
  else
    let q := if (0 <=? e)%Z then inject_Z (mz * 10 ^ e)
             else Qmake mz (Z.to_pos (10 ^ (- e))) in
    JFin (Qred (if neg then Qopp q else q)).

(** A maximal run of decimal digits: its value, its length and the rest. *)
Fixpoint digits (s : string) (acc : N) (len : nat) : N * nat * string :=
  match s with
  | String c r =>
      if is_digit c then digits r (acc * 10 + digit_val c)%N (S len)
      else (acc, len, s)
  | EmptyString => (acc, len, s)
  end.

(** An optional ExponentPart: [Some (e, rest)], with [e = 0] when there is
    none, or [None] when an [e] is not followed by digits. *)
Definition exponent (s : string) : option (Z * string) :=
  match s with
  | String c r =>
      if ((code c =? 101) || (code c =? 69))%N then
        let '(neg, r1) :=
          match r with
          | String "+" r' => (false, r')
          | String "-" r' => (true, r')
          | _ => (false, r)
          end in
        match digits r1 0%N 0 with
        | (_, O, _) => None
        | (v, _, rest) => Some (if neg then (- Z.of_N v)%Z else Z.of_N v, rest)
        end
      else Some (0%Z, s)
  | EmptyString => Some (0%Z, s)
  end.

Definition radix_digit (radix : N) (c : ascii) : option N :=
  let v :=
    if is_digit c then Some (digit_val c)
    else if between 97 102 c then Some (code c - 87)%N
    else if between 65 70 c then Some (code c - 55)%N
    else None in
  match v with
  | Some d => if (d <? radix)%N then Some d else None
  | None => None
  end.

Fixpoint radix_digits (radix : N) (s : string) (acc : N) : option N :=
  match s with
  | EmptyString => Some acc
  | String c r =>
      match radix_digit radix c with
      | Some d => radix_digits radix r (acc * radix + d)%N
      | None => None
      end
  end.

(** NonDecimalIntegerLiteral: [0x], [0o] or [0b] and at least one digit. *)
Definition nonDecimalLiteral (s : string) : option JSNumber :=
  match s with
  | String "0" (String p (String c r)) =>
      let radix :=
        match p with
        | "x" | "X" => Some 16%N
        | "o" | "O" => Some 8%N
        | "b" | "B" => Some 2%N
        | _ => None
        end%char in
      match radix with
      | Some rx =>
          match radix_digits rx (String c r) 0%N with
          | Some v => Some (of_decimal false v 0)
          | None => None
          end
      | None => None
      end
  | _ => None
  end.

(** StrUnsignedDecimalLiteral *)
Definition unsignedDecimal (neg : bool) (s : string) : JSNumber :=
  if String.eqb s "Infinity" then JInf neg
  else
    let '(ip, ilen, r) := digits s 0%N 0 in
    let '(fp, flen, r1) :=
      match r with
      | String "." r' => digits r' ip 0
      | _ => (ip, 0, r)
      end in
    match ilen + flen with
    | O => JNaN
    | _ =>
        match exponent r1 with
        | Some (e, EmptyString) => of_decimal neg fp (e - Z.of_nat flen)
        | _ => JNaN
        end
    end.

(** [Number(s)] for a string [s] (StringToNumber). *)
Definition Number (s : string) : JSNumber :=
  match trim s with
  | EmptyString => JFin 0
  | String "+" r => unsignedDecimal false r
  | String "-" r => unsignedDecimal true r
  | t => match nonDecimalLiteral t with
         | Some n => n
         | None => unsignedDecimal false t
         end
  end.

End JS.

(* ===================================================================== *)
(** * Objects as ordered property lists *)
(* ===================================================================== *)

Module JSObject.

Section Properties.
Variable V : Type.

  (** Own properties in the order [Object.keys] and [Object.entries]
      report them. *)
Definition t : Type := list (string * V).

Definition empty : t := [].

Definition keys (o : t) : list string := map fst o.


  (** [o[k]]: [None] is [undefined]. *)
Fixpoint get (k : string) (o : t) : option V :=
    match o with
    | [] => None
    | (k', v) :: o' => if String.eqb k k' then Some v else get k o'
    end.

Definition has (k : string) (o : t) : bool :=
    existsb (String.eqb k) (keys o).

Fixpoint canonical_digits (s : string) : bool :=
    match s with
    | EmptyString => true
    | String c r => JS.is_digit c && canonical_digits r
    end.

  (** An array index: the canonical decimal form of an integer below
      2^32 - 1.  Such property names are listed first, in numeric order. *)
Definition array_index (k : string) : option N :=
    match k with
    | EmptyString => None
    | String c r =>
        if canonical_digits k
           && (negb (Ascii.eqb c "0") || String.eqb r "")
           && (String.length k <=? 10)
        then
          let '(v, _, _) := JS.digits k 0%N 0 in
          if (v <? 4294967295)%N then Some v else None
        else None
    end.

Fixpoint replace (k : string) (v : V) (o : t) : t :=
    match o with
    | [] => []
    | (k', v') :: o' =>
        if String.eqb k k' then (k, v) :: o' else (k', v') :: replace k v o'
    end.

Fixpoint insert_index (n : N) (k : string) (v : V) (o : t) : t :=
    match o with
    | [] => [(k, v)]
    | (k', v') :: o' =>
        match array_index k' with
        | Some n' =>
            if (n' <? n)%N then (k', v') :: insert_index n k v o'
            else (k, v) :: o
        | None => (k, v) :: o
        end
    end.

  (** [o[k] = v]: an existing property keeps its place, a new one goes
      among the array indices or to the end. *)
Definition set (k : string) (v : V) (o : t) : t :=
    if has k o then replace k v o
    else match array_index k with
         | Some n => insert_index n k v o
         | None => (o ++ [(k, v)])%list
         end.

  (** [delete o[k]] *)
Definition delete (k : string) (o : t) : t :=
    filter (fun kv => negb (String.eqb k (fst kv))) o.

End Properties.

Arguments empty {V}.

End JSObject.

(* ===================================================================== *)
(** * JSON *)
(* ===================================================================== *)

Module JSON.

Import JS.

(** What [JSON.parse] returns. *)
Inductive JValue : Type :=
| JNull
| JBool (b : bool)
| JNum (n : JSNumber)
| JStr (s : string)
| JArr (items : list JValue)
| JObj (props : list (string * JValue)).

Definition is_json_space (c : ascii) : bool :=
  ((code c =? 32) || (code c =? 9) || (code c =? 10) || (code c =? 13))%N.

Fixpoint skip_space (s : string) : string :=
  match s with
  | String c r => if is_json_space c then skip_space r else s
  | EmptyString => s
  end.

Definition hex_val (c : ascii) : option N := radix_digit 16 c.

(** Four hexadecimal digits. *)
Definition hex4 (s : string) : option (N * string) :=
  match s with
  | String a (String b (String c (String d r))) =>
      match hex_val a, hex_val b, hex_val c, hex_val d with
      | Some x, Some y, Some z, Some w =>
          Some (((x * 16 + y) * 16 + z) * 16 + w, r)%N
      | _, _, _, _ => None
      end
  | _ => None
  end.

Definition byte (n : N) : ascii := ascii_of_N n.

(** The UTF-8 bytes of a code point (a lone surrogate is written like any
    other three-byte code point). *)
Definition utf8 (cp : N) (rest : string) : string :=
  (if cp <? 128 then String (byte cp) rest
   else if cp <? 2048 then
     String (byte (192 + cp / 64)) (String (byte (128 + cp mod 64)) rest)
   else if cp <? 65536 then
     String (byte (224 + cp / 4096))
       (String (byte (128 + (cp / 64) mod 64))
          (String (byte (128 + cp mod 64)) rest))
   else
     String (byte (240 + cp / 262144))
       (String (byte (128 + (cp / 4096) mod 64))
          (String (byte (128 + (cp / 64) mod 64))
             (String (byte (128 + cp mod 64)) rest))))%N.

Definition is_high_surrogate (u : N) : bool := ((55296 <=? u) && (u <=? 56319))%N.
Definition is_low_surrogate (u : N) : bool := ((56320 <=? u) && (u <=? 57343))%N.

(** The characters of a JSON string after its opening quote, up to the
    closing one; [pending] is a high surrogate read from a [\u] escape and
    waiting for its low half. *)
Fixpoint string_body (s : string) (pending : option N) : option (string * string) :=
  let flush (k : option (string * string)) : option (string * string) :=
    match pending, k with
    | Some h, Some (body, rest) => Some (utf8 h body, rest)
    | _, _ => k
    end in
  match s with
  | EmptyString => None
  | String c r =>
      if (code c =? 34)%N then flush (Some (EmptyString, r))
      else if (code c <? 32)%N then None
      else if (code c =? 92)%N then
        match r with
        | String e r1 =>
            let plain (b : N) :=
              flush (match string_body r1 None with
                     | Some (body, rest) => Some (String (byte b) body, rest)
                     | None => None
                     end) in
            match e with
            | "034" => plain 34%N
            | "\" => plain 92%N
            | "/" => plain 47%N
            | "b" => plain 8%N
            | "f" => plain 12%N
            | "n" => plain 10%N
            | "r" => plain 13%N
            | "t" => plain 9%N
            | "u" =>
                match r1 with
                | String a (String b (String c' (String d r2))) =>
                    match hex_val a, hex_val b, hex_val c', hex_val d with
                    | Some x, Some y, Some z, Some w =>
                        let u := (((x * 16 + y) * 16 + z) * 16 + w)%N in
                        match pending with
                        | Some h =>
                            if is_low_surrogate u then
                              match string_body r2 None with
                              | Some (body, rest) =>
                                  Some (utf8 (65536 + (h - 55296) * 1024 + (u - 56320))%N body, rest)
                              | None => None
                              end
                            else if is_high_surrogate u then
                              flush (string_body r2 (Some u))
                            else
                              flush (match string_body r2 None with
                                     | Some (body, rest) => Some (utf8 u body, rest)
                                     | None => None
                                     end)
                        | None =>
                            if is_high_surrogate u then string_body r2 (Some u)
                            else match string_body r2 None with
                                 | Some (body, rest) => Some (utf8 u body, rest)
                                 | None => None
                                 end
                        end
                    | _, _, _, _ => None
                    end
                | _ => None
                end
            | _ => None
            end%char
        | EmptyString => None
        end
      else
        flush (match string_body r None with
               | Some (body, rest) => Some (String c body, rest)
               | None => None
               end)
  end.

(** A JSON number: [-]? int frac? exp?, with no leading zero. *)
Definition number (s : string) : option (JSNumber * string) :=
  let '(neg, r) :=
    match s with
    | String "-" r' => (true, r')
    | _ => (false, s)
    end in
  let '(ip, ilen, r1) := digits r 0%N 0 in
  let leading_zero :=
    match r with
    | String "0" _ => negb (ilen =? 1)
    | _ => false
    end in
  if (ilen =? 0) || leading_zero then None
  else
    let frac :=
      match r1 with
      | String "." r' =>
          match digits r' ip 0 with
          | (_, O, _) => None
          | (fp, flen, r2) => Some (fp, flen, r2)
          end
      | _ => Some (ip, 0, r1)
      end in
    match frac with
    | None => None
    | Some (fp, flen, r2) =>
        match exponent r2 with
        | Some (e, rest) => Some (of_decimal neg fp (e - Z.of_nat flen), rest)
        | None => None
        end
    end.

Definition literal (word : string) (v : JValue) (s : string) : option (JValue * string) :=
  if String.prefix word s
  then Some (v, substring (String.length word) (String.length s - String.length word) s)
  else None.

(** One JSON value at the head of [s] (after white space), and what
    follows it.  [fuel] bounds the number of nested and successive values. *)
Fixpoint value (fuel : nat) (s : string) : option (JValue * string) :=
  match fuel with
  | O => None
  | S f =>
      match skip_space s with
      | EmptyString => None
      | String c r =>
          match c with
          | "n" => literal "null" JNull (String c r)
          | "t" => literal "true" (JBool true) (String c r)
          | "f" => literal "false" (JBool false) (String c r)
          | "034" =>
              match string_body r None with
              | Some (str, rest) => Some (JStr str, rest)
              | None => None
              end
          | "[" =>
              match skip_space r with
              | String "]" rest => Some (JArr [], rest)
              | _ =>
                  match elements f r with
                  | Some (items, rest) => Some (JArr items, rest)
                  | None => None
                  end
              end
          | "{" =>
              match skip_space r with
              | String "}" rest => Some (JObj [], rest)
              | _ =>
                  match members f r [] with
                  | Some (props, rest) => Some (JObj props, rest)
                  | None => None
                  end
              end
          | _ =>
              match number (String c r) with
              | Some (n, rest) => Some (JNum n, rest)
              | None => None
              end
          end%char
      end
  end

with elements (fuel : nat) (s : string) : option (list JValue * string) :=
  match fuel with
  | O => None
  | S f =>
      match value f s with
      | Some (v, r) =>
          match skip_space r with
          | String "," r' =>
              match elements f r' with
              | Some (vs, rest) => Some (v :: vs, rest)
              | None => None
              end
          | String "]" rest => Some ([v], rest)
          | _ => None
          end
      | None => None
      end
  end

with members (fuel : nat) (s : string) (acc : list (string * JValue))
  : option (list (string * JValue) * string) :=
  match fuel with
  | O => None
  | S f =>
      match skip_space s with
      | String "034" r =>
          match string_body r None with
          | Some (k, r1) =>
              match skip_space r1 with
              | String ":" r2 =>
                  match value f r2 with
                  | Some (v, r3) =>
                      let acc' := JSObject.set k v acc in
                      match skip_space r3 with
                      | String "," r4 => members f r4 acc'
                      | String "}" rest => Some (acc', rest)
                      | _ => None
                      end
                  | None => None
                  end
              | _ => None
              end
          | None => None
          end
      | _ => None
      end
  end.

(** [JSON.parse]: [None] when it throws a SyntaxError. *)
Definition parse (s : string) : option JValue :=
  match value (2 * String.length s + 2) s with
  | Some (v, rest) =>
      match skip_space rest with
      | EmptyString => Some v
      | _ => None
      end
  | None => None
  end.

Definition hex_digit (d : N) : ascii :=
  if (d <? 10)%N then ascii_of_N (48 + d) else ascii_of_N (87 + d).

(** QuoteJSONString, without its enclosing quotes. *)
Fixpoint quote_body (s : string) : string :=
  match s with
  | EmptyString => EmptyString
  | String c r =>
      let n := code c in
      (if (n =? 34)%N then "\" ++ dquote
       else if (n =? 92)%N then "\\"
       else if (n =? 8)%N then "\b"
       else if (n =? 12)%N then "\f"
       else if (n =? 10)%N then "\n"
       else if (n =? 13)%N then "\r"
       else if (n =? 9)%N then "\t"
       else if (n <? 32)%N then
         "\u00" ++ String (hex_digit (n / 16)) (String (hex_digit (n mod 16)) "")
       else String c "") ++ quote_body r
  end.

Definition quote (s : string) : string := dquote ++ quote_body s ++ dquote.

Section Stringify.
  (** [Number::toString] of the runtime. *)
Variable numberToString : JSNumber -> string.

Definition join_comma (parts : list string) : string :=
    String.concat "," parts.

  (** [JSON.stringify(v)] for a value that came out of [JSON.parse]. *)
Fixpoint stringify (v : JValue) : string :=
    match v with
    | JNull => "null"
    | JBool true => "true"
    | JBool false => "false"
    | JNum n => if isFinite n then numberToString n else "null"
    | JStr s => quote s
    | JArr items => "[" ++ join_comma (map stringify items) ++ "]"
    | JObj props =>
        "{" ++ join_comma
                 (map (fun kv => quote (fst kv) ++ ":" ++ stringify (snd kv)) props)
            ++ "}"
    end.
End Stringify.

End JSON.

(* ===================================================================== *)
(** * types.ts *)
(* ===================================================================== *)

Module Types.

Export JS.
Export JSON.

Inductive CellType : Type := STRING | NUMBER | BOOLEAN | DATE.

Definition CellType_eqb (a b : CellType) : bool :=
  match a, b with
  | STRING, STRING | NUMBER, NUMBER | BOOLEAN, BOOLEAN | DATE, DATE => true
  | _, _ => false
  end.

(** The string each member of [CellTypes] stands for. *)
Definition CellTypes (t : CellType) : string :=
  match t with
  | STRING => "string"
  | NUMBER => "number"
  | BOOLEAN => "boolean"
  | DATE => "date"
  end.

Inductive ValidationRuleType : Type :=
| REQUIRED | MIN | MAX | PATTERN | MIN_LENGTH | MAX_LENGTH.

Definition ValidationRuleTypes (t : ValidationRuleType) : string :=
  match t with
  | REQUIRED => "required"
  | MIN => "min"
  | MAX => "max"
  | PATTERN => "pattern"
  | MIN_LENGTH => "min-length"
  | MAX_LENGTH => "max-length"
  end.

(** [value?: string | number] of a rule. *)
Inductive RuleValue : Type :=
| RuleString (s : string)
| RuleNumber (n : JSNumber).

Record ValidationRule : Type := mkRule {
  rule_type : ValidationRuleType;
  rule_value : option RuleValue;
  rule_message : option string
}.

Record ValidationError : Type := mkError {
  rule : ValidationRuleType;
  message : string;
  column : string
}.

Record Column : Type := mkColumn {
  key : string;
  label : string;
  type : CellType;
  validation : option (list ValidationRule)
}.

Inductive CellValue : Type :=
| CNull
| CString (s : string)
| CNumber (n : JSNumber)
| CBoolean (b : bool).

(** An address in the heap of JavaScript objects. *)
Definition address : Type := nat.

Record Row : Type := mkRow {
  row_ref : address;
  id : string;
  cells : JSObject.t CellValue;
  errors : JSObject.t (list ValidationError)
}.

(** An array together with its own identity. *)
Record Arr (A : Type) : Type := mkArr {
  arr_ref : address;
  items : list A
}.

Record DataSetMetadata : Type := mkMetadata {
  metadata_ref : address;
  fileName : string;
  rowCount : nat;
  columnCount : nat;
  importedAt : string
}.

Record DataSet : Type := mkDataSet {
  columns : Arr Column;
  rows : Arr Row;
  metadata : DataSetMetadata
}.

Record CellEdit : Type := mkEdit {
  rowId : string;
  columnKey : string;
  value : CellValue
}.

Record DataStoreOptions : Type := mkOptions {
  opt_maxFileSize : option N;
  opt_maxNestingDepth : option nat;
  opt_validationRules : option (JSObject.t (list ValidationRule))
}.

Record ParseOptions : Type := mkParseOptions {
  po_maxFileSize : option N;
  po_maxNestingDepth : option nat;
  po_fileName : option string
}.

(** An instance of [DataValidatorError] or of one of its subclasses. *)
Record DataValidatorError : Type := mkDataValidatorError {
  name : string;
  code : string;
  error_message : string
}.

Definition ParseError (msg : string) : DataValidatorError :=
  {| name := "ParseError"; code := "PARSE_ERROR"; error_message := msg |}.

Definition FileSizeError (size maxSize : N) : DataValidatorError :=
  {| name := "FileSizeError";
     code := "FILE_SIZE_ERROR";
     error_message :=
       "File size " ++ megabytes_toFixed2 size
         ++ "MB exceeds maximum allowed size of "
         ++ megabytes_toFixed2 maxSize ++ "MB" |}.

Definition new_DataValidatorError (c msg : string) : DataValidatorError :=
  {| name := "DataValidatorError"; code := c; error_message := msg |}.

Inductive DataStoreState : Type :=
| Idle
| Loading
| Loaded (data : DataSet)
| Error (error : DataValidatorError).

(** The [status] field of a state. *)
Definition status (s : DataStoreState) : string :=
  match s with
  | Idle => "idle"
  | Loading => "loading"
  | Loaded _ => "loaded"
  | Error _ => "error"
  end.

(** A subscriber is known by the identity of its callback. *)
Definition Subscriber : Type := nat.

(** What a [throw] can carry: an error of the package, or another
    JavaScript [Error] (the [SyntaxError] of [new RegExp]). *)
Inductive Exception : Type :=
| Thrown (e : DataValidatorError)
| ThrownError (error_name error_text : string).

Inductive Result (A : Type) : Type :=
| Ok (a : A)
| Throw (e : Exception).

Arguments Throw {A} e.

(** [ValidationMessages] *)
Module ValidationMessages.
Definition EXPECTED_NUMBER := "Expected a number value".
Definition EXPECTED_BOOLEAN := "Expected a boolean value".
Definition EXPECTED_DATE := "Expected a valid date".
Definition REQUIRED := "This field is required".
Definition PATTERN := "Value does not match required pattern".
Section Interpolated.
Variable show : JSNumber -> string.
Definition MIN (min : JSNumber) := "Value must be at least " ++ show min.
Definition MAX (max : JSNumber) := "Value must be at most " ++ show max.
Definition MIN_LENGTH (min : JSNumber) :=
      "Value must be at least " ++ show min ++ " characters".
Definition MAX_LENGTH (max : JSNumber) :=
      "Value must be at most " ++ show max ++ " characters".
End Interpolated.
End ValidationMessages.

(** The built-ins of the JavaScript runtime that are taken as given. *)
Class Runtime : Type := {
  (** a compiled regular expression *)
  RegExp : Type;
  (** [new RegExp(source)]: the text of the SyntaxError, or the object *)
  RegExp_new : string -> string + RegExp;
  (** [regex.test(s)] *)
  RegExp_test : RegExp -> string -> bool;
  (** [!isNaN(new Date(s).getTime())] *)
  Date_valid : string -> bool;
  (** [String(n)] of a number *)
  Number_toString : JSNumber -> string;
  (** [Date.now()] at the n-th reading of the clock *)
  Date_now : nat -> N;
  (** [new Date().toISOString()] at the n-th reading of the clock *)
  Date_toISOString : nat -> string
}.

(** ** Effects *)

(** Module-level and runtime state outside the store: the allocator, the
    [rowIdCounter] of parse.ts and the number of clock readings so far. *)
Record World : Type := mkWorld {
  next_ref : address;
  rowIdCounter : nat;
  clock_reads : nat
}.

(** A computation over a state [S] that returns or throws. *)
Definition M (S A : Type) : Type := S -> Result A * S.

Definition ret {S A} (a : A) : M S A := fun s => (Ok a, s).

Definition bind {S A B} (m : M S A) (f : A -> M S B) : M S B :=
  fun s =>
    match m s with
    | (Ok a, s') => f a s'
    | (Throw e, s') => (Throw e, s')
    end.

Definition throw {S A} (e : Exception) : M S A := fun s => (Throw e, s).

(** [try { body } catch (error) { handler }] *)
Definition try_catch {S A} (body : M S A) (handler : Exception -> M S A) : M S A :=
  fun s =>
    match body s with
    | (Ok a, s') => (Ok a, s')
    | (Throw e, s') => handler e s'
    end.

Definition of_result {S A} (r : Result A) : M S A := fun s => (r, s).

Definition get_state {S} : M S S := fun s => (Ok s, s).

Definition put_state {S} (s : S) : M S unit := fun _ => (Ok tt, s).

Declare Scope js_scope.
Delimit Scope js_scope with js.

Notation "x <- c1 ;; c2" := (bind c1 (fun x => c2))
  (at level 61, c1 at next level, right associativity) : js_scope.
Notation "c1 ;; c2" := (bind c1 (fun _ => c2))
  (at level 61, right associativity) : js_scope.

Fixpoint mapM {S A B} (f : A -> M S B) (l : list A) : M S (list B) :=
  match l with
  | [] => ret []
  | a :: l' =>
      (b <- f a ;;
       bs <- mapM f l' ;;
       ret (b :: bs))%js
  end.

(** A fresh address. *)
Definition alloc : M World address :=
  fun w =>
    (Ok (next_ref w),
     {| next_ref := S (next_ref w);
        rowIdCounter := rowIdCounter w;
        clock_reads := clock_reads w |}).

(** One reading of the clock: its rank. *)
Definition read_clock : M World nat :=
  fun w =>
    (Ok (clock_reads w),
     {| next_ref := next_ref w;
        rowIdCounter := rowIdCounter w;
        clock_reads := S (clock_reads w) |}).

(** [rowIdCounter++; rowIdCounter] *)
Definition next_rowIdCounter : M World nat :=
  fun w =>
    (Ok (S (rowIdCounter w)),
     {| next_ref := next_ref w;
        rowIdCounter := S (rowIdCounter w);
        clock_reads := clock_reads w |}).

(** The same on plain results, for code that throws but has no state. *)
Definition rbind {A B} (r : Result A) (f : A -> Result B) : Result B :=
  match r with
  | Ok a => f a
  | Throw e => Throw e
  end.

End Types.

(* ===================================================================== *)
(** * validate.ts *)
(* ===================================================================== *)

Module Validate.

Import Types.

Section WithRuntime.
Context {runtime : Runtime}.

Definition type_error (msg columnKey : string) : list ValidationError :=
  [ {| rule := REQUIRED; message := msg; column := columnKey |} ].

Definition boolean_words : list string :=
  ["true"; "false"; "yes"; "no"; "1"; "0"].

Definition validateType (value : CellValue) (type : CellType) (columnKey : string)
  : list ValidationError :=
  match value with
  | CNull => []
  | _ =>
      match type with
      | NUMBER =>
          match value with
          | CNumber _ => []
          | CString s =>
              let num := Number s in
              if negb (isNaN num) && negb (String.eqb (trim s) "") then []
              else type_error ValidationMessages.EXPECTED_NUMBER columnKey
          | _ => type_error ValidationMessages.EXPECTED_NUMBER columnKey
          end
      | BOOLEAN =>
          match value with
          | CBoolean _ => []
          | CString s =>
              let lower := toLowerCase s in
              if existsb (String.eqb lower) boolean_words then []
              else type_error ValidationMessages.EXPECTED_BOOLEAN columnKey
          | _ => type_error ValidationMessages.EXPECTED_BOOLEAN columnKey
          end
      | DATE =>
          match value with
          | CString s =>
              if Date_valid s then []
              else type_error ValidationMessages.EXPECTED_DATE columnKey
          | _ => type_error ValidationMessages.EXPECTED_DATE columnKey
          end
      | STRING => []
      end
  end.

(** [rule.message ?? fallback] *)
Definition message_or (r : ValidationRule) (fallback : string) : string :=
  match rule_message r with
  | Some m => m
  | None => fallback
  end.

Definition validateRule (value : CellValue) (r : ValidationRule) (columnKey : string)
  : Result (option ValidationError) :=
  match rule_type r with
  | REQUIRED =>
      match value with
      | CNull | CString EmptyString =>
          Ok (Some {| rule := REQUIRED;
                      message := message_or r ValidationMessages.REQUIRED;
                      column := columnKey |})
      | _ => Ok None
      end
  | MIN =>
      match value, rule_value r with
      | CNumber v, Some (RuleNumber bound) =>
          if JS.lt v bound then
            Ok (Some {| rule := MIN;
                        message := message_or r (ValidationMessages.MIN Number_toString bound);
                        column := columnKey |})
          else Ok None
      | _, _ => Ok None
      end
  | MAX =>
      match value, rule_value r with
      | CNumber v, Some (RuleNumber bound) =>
          if JS.gt v bound then
            Ok (Some {| rule := MAX;
                        message := message_or r (ValidationMessages.MAX Number_toString bound);
                        column := columnKey |})
          else Ok None
      | _, _ => Ok None
      end
  | PATTERN =>
      match value, rule_value r with
      | CString s, Some (RuleString source) =>
          match RegExp_new source with
          | inl text => Throw (ThrownError "SyntaxError" text)
          | inr regex =>
              if negb (RegExp_test regex s) then
                Ok (Some {| rule := PATTERN;
                            message := message_or r ValidationMessages.PATTERN;
                            column := columnKey |})
              else Ok None
          end
      | _, _ => Ok None
      end
  | MIN_LENGTH =>
      match value, rule_value r with
      | CString s, Some (RuleNumber bound) =>
          if JS.lt (JS.of_nat (utf16_length s)) bound then
            Ok (Some {| rule := MIN_LENGTH;
                        message := message_or r (ValidationMessages.MIN_LENGTH Number_toString bound);
                        column := columnKey |})
          else Ok None
      | _, _ => Ok None
      end
  | MAX_LENGTH =>
      match value, rule_value r with
      | CString s, Some (RuleNumber bound) =>
          if JS.gt (JS.of_nat (utf16_length s)) bound then
            Ok (Some {| rule := MAX_LENGTH;
                        message := message_or r (ValidationMessages.MAX_LENGTH Number_toString bound);
                        column := columnKey |})
          else Ok None
      | _, _ => Ok None
      end
  end.

(** The loop of [validateCell] over [column.validation]; [errors] is the
    array being filled. *)
Fixpoint validateRules (value : CellValue) (rules : list ValidationRule)
  (columnKey : string) (errors : list ValidationError)
  : Result (list ValidationError) :=
  match rules with
  | [] => Ok errors
  | r :: rest =>
      rbind (validateRule value r columnKey) (fun ruleError =>
        validateRules value rest columnKey
          (match ruleError with
           | Some e => errors ++ [e]
           | None => errors
           end)%list)
  end.

Definition validateCell (value : CellValue) (col : Column)
  : Result (list ValidationError) :=
  let typeErrors := validateType value (type col) (key col) in
  match validation col with
  | Some rules => validateRules value rules (key col) typeErrors
  | None => Ok typeErrors
  end.

(** The loop of [validateRow] over the columns; [errors] is the object
    being filled. *)
Fixpoint validateRow_loop (row_cells : JSObject.t CellValue) (cols : list Column)
  (errors : JSObject.t (list ValidationError))
  : Result (JSObject.t (list ValidationError)) :=
  match cols with
  | [] => Ok errors
  | col :: rest =>
      let value :=
        match JSObject.get (key col) row_cells with
        | Some v => v
        | None => CNull
        end in
      rbind (validateCell value col) (fun cellErrors =>
        validateRow_loop row_cells rest
          (if 0 <? length cellErrors
           then JSObject.set (key col) cellErrors errors
           else errors))
  end.

Definition validateRow (row : Row) (cols : list Column)
  : Result (JSObject.t (list ValidationError)) :=
  validateRow_loop (cells row) cols JSObject.empty.

(** [rows.map(row => ({ ...row, errors: validateRow(row, columns) }))]:
    a new array of new row objects. *)
Definition validateAllRows (rs : list Row) (cols : list Column) : M World (Arr Row) :=
  (a <- alloc ;;
   rs' <- mapM (fun row =>
            errs <- of_result (validateRow row cols) ;;
            r <- alloc ;;
            ret {| row_ref := r; id := id row; cells := cells row; errors := errs |})
          rs ;;
   ret {| arr_ref := a; items := rs' |})%js.

End WithRuntime.

End Validate.

(* ===================================================================== *)
(** * parse.ts *)
(* ===================================================================== *)

Module Parse.

Import Types.

Definition DEFAULT_MAX_FILE_SIZE : N := (5 * 1024 * 1024)%N.
Definition DEFAULT_MAX_NESTING_DEPTH : nat := 1.

Definition is_plain_object (v : JValue) : bool :=
  match v with JObj _ => true | _ => false end.

Definition is_array (v : JValue) : bool :=
  match v with JArr _ => true | _ => false end.

Definition depth_error (recordIndex : nat) (k : string) (maxDepth : nat) : Exception :=
  Thrown (ParseError
    ("Unsupported structure: deeply nested object at record "
       ++ string_of_nat recordIndex ++ ", key " ++ dquote ++ k ++ dquote
       ++ ". Maximum nesting depth is " ++ string_of_nat maxDepth)).

Definition array_error (recordIndex : nat) (k : string) : Exception :=
  Thrown (ParseError
    ("Unsupported structure: array value at record "
       ++ string_of_nat recordIndex ++ ", key " ++ dquote ++ k ++ dquote
       ++ ". Only flat objects are supported")).

(** [validateNesting] on the object [JObj props], by recursion on the
    value; the inner loop is the [for ... of Object.entries(obj)]. *)
Fixpoint validateNesting_value (obj : JValue) (recordIndex maxDepth currentDepth : nat)
  : Result unit :=
  match obj with
  | JObj props =>
      (fix loop (es : list (string * JValue)) : Result unit :=
         match es with
         | [] => Ok tt
         | (k, v) :: rest =>
             rbind
               (match v with
                | JObj _ =>
                    if maxDepth <=? currentDepth
                    then Throw (depth_error recordIndex k maxDepth)
                    else validateNesting_value v recordIndex maxDepth (S currentDepth)
                | _ => Ok tt
                end)
               (fun _ =>
                  if is_array v then Throw (array_error recordIndex k)
                  else loop rest)
         end) props
  | _ => Ok tt
  end.

Definition validateNesting (obj : JSObject.t JValue) (recordIndex maxDepth currentDepth : nat)
  : Result unit :=
  validateNesting_value (JObj obj) recordIndex maxDepth currentDepth.

(** A small pattern language for the regular-expression literals of
    parse.ts, which are sequences of [\d], [[+-]] and literal characters. *)
Inductive atom : Type :=
| Digit
| Sign
| Lit (c : ascii).

Definition atom_matches (a : atom) (c : ascii) : bool :=
  match a with
  | Digit => is_digit c
  | Sign => Ascii.eqb c "+" || Ascii.eqb c "-"
  | Lit l => Ascii.eqb c l
  end.

(** The rest of [s] after a match of [p] at its head. *)
Fixpoint match_atoms (p : list atom) (s : string) : option string :=
  match p with
  | [] => Some s
  | a :: p' =>
      match s with
      | String c r => if atom_matches a c then match_atoms p' r else None
      | EmptyString => None
      end
  end.

(** [/^p$/.test(s)] *)
Definition test_whole (p : list atom) (s : string) : bool :=
  match match_atoms p s with
  | Some EmptyString => true
  | _ => false
  end.

(** [/^p/.test(s)] *)
Definition test_prefix (p : list atom) (s : string) : bool :=
  match match_atoms p s with
  | Some _ => true
  | None => false
  end.

Definition iso_date : list atom :=
  [Digit; Digit; Digit; Digit; Lit "-"; Digit; Digit; Lit "-"; Digit; Digit].

Definition iso_date_time : list atom :=
  (iso_date ++ [Lit "T"; Digit; Digit; Lit ":"; Digit; Digit; Lit ":"; Digit; Digit])%list.

Definition us_date : list atom :=
  [Digit; Digit; Lit "/"; Digit; Digit; Lit "/"; Digit; Digit; Digit; Digit].

(** [/(\d) ([+-]\d{2}:\d{2})$/] *)
Definition spaced_offset : list atom :=
  [Digit; Lit " "; Sign; Digit; Digit; Lit ":"; Digit; Digit].

(** [value.replace(/(\d) ([+-]\d{2}:\d{2})$/, "$1$2")] *)
Fixpoint normalize_offset (s : string) : string :=
  match s with
  | EmptyString => EmptyString
  | String c r =>
      if test_whole spaced_offset s
      then String c (match r with String _ r' => r' | EmptyString => r end)
      else String c (normalize_offset r)
  end.

Section WithRuntime.
Context {runtime : Runtime}.

Definition isDateString (value : string) : bool :=
  if negb (test_whole iso_date value
           || test_prefix iso_date_time value
           || test_whole us_date value)
  then false
  else Date_valid (normalize_offset value).

Definition detectValueType (value : JValue) : CellType :=
  match value with
  | JBool _ => BOOLEAN
  | JNum _ => NUMBER
  | JStr s => if isDateString s then DATE else STRING
  | _ => STRING
  end.

(** [typeCounts]: an object whose property names are cell types, in the
    order they were first written. *)
Definition TypeCounts : Type := list (CellType * nat).

Fixpoint count_of (t : CellType) (counts : TypeCounts) : option nat :=
  match counts with
  | [] => None
  | (t', n) :: rest => if CellType_eqb t t' then Some n else count_of t rest
  end.

Fixpoint set_count (t : CellType) (n : nat) (counts : TypeCounts) : TypeCounts :=
  match counts with
  | [] => [(t, n)]
  | (t', n') :: rest =>
      if CellType_eqb t t' then (t, n) :: rest else (t', n') :: set_count t n rest
  end.

(** The first loop of [inferColumnType]. *)
Fixpoint count_types (records : list (JSObject.t JValue)) (k : string)
  (typeCounts : TypeCounts) : TypeCounts :=
  match records with
  | [] => typeCounts
  | record :: rest =>
      match JSObject.get k record with
      | None | Some JNull => count_types rest k typeCounts
      | Some v =>
          let detectedType := detectValueType v in
          count_types rest k
            (set_count detectedType
               (match count_of detectedType typeCounts with
                | Some n => n
                | None => 0
                end + 1)
               typeCounts)
      end
  end.

(** The second loop of [inferColumnType]. *)
Fixpoint best_type (counts : TypeCounts) (bestType : CellType) (bestCount : nat)
  : CellType :=
  match counts with
  | [] => bestType
  | (t, n) :: rest =>
      if bestCount <? n then best_type rest t n
      else best_type rest bestType bestCount
  end.

Definition inferColumnType (records : list (JSObject.t JValue)) (k : string) : CellType :=
  best_type (count_types records k []) STRING 0.

(** [.replace(/([a-z])([A-Z])/g, "$1 $2")] *)
Fixpoint split_camel (s : string) : string :=
  match s with
  | EmptyString => EmptyString
  | String a t =>
      match t with
      | String b r =>
          if is_lower a && is_upper b
          then String a (String " " (String b (split_camel r)))
          else String a (split_camel t)
      | EmptyString => s
      end
  end.

(** [.replace(/[_-]/g, " ")] *)
Fixpoint spaces_for_separators (s : string) : string :=
  match s with
  | EmptyString => EmptyString
  | String c r =>
      String (if Ascii.eqb c "_" || Ascii.eqb c "-" then " "%char else c)
        (spaces_for_separators r)
  end.

(** [.replace(/\b\w/g, c => c.toUpperCase())]; [inside] tells whether the
    previous character was a word character. *)
Fixpoint capitalize_words (inside : bool) (s : string) : string :=
  match s with
  | EmptyString => EmptyString
  | String c r =>
      String (if is_word c && negb inside then upper_ascii c else c)
        (capitalize_words (is_word c) r)
  end.

Definition formatLabel (k : string) : string :=
  capitalize_words false (spaces_for_separators (split_camel k)).

(** [coerceValue(record[key])]; [None] is [undefined]. *)
Definition coerceValue (value : option JValue) : CellValue :=
  match value with
  | None | Some JNull => CNull
  | Some (JStr s) => CString s
  | Some (JNum n) => CNumber n
  | Some (JBool b) => CBoolean b
  | Some v => CString (JSON.stringify Number_toString v)
  end.

Definition buildCells (record : JSObject.t JValue) (cols : list Column)
  : JSObject.t CellValue :=
  fold_left
    (fun acc col =>
       JSObject.set (key col) (coerceValue (JSObject.get (key col) record)) acc)
    cols JSObject.empty.

Definition generateRowId (index : nat) : M World string :=
  (counter <- next_rowIdCounter ;;
   tick <- read_clock ;;
   ret ("row-" ++ string_of_nat index ++ "-" ++ string_of_nat counter
          ++ "-" ++ toString36 (Date_now tick)))%js.

(** The [for] loop of [parse] over the records, from index [i] on. *)
Fixpoint check_records (records : list JValue) (i maxNestingDepth : nat) : Result unit :=
  match records with
  | [] => Ok tt
  | record :: rest =>
      match record with
      | JObj props =>
          rbind (validateNesting props i maxNestingDepth 0)
            (fun _ => check_records rest (S i) maxNestingDepth)
      | _ =>
          Throw (Thrown (ParseError
            ("Invalid record at index " ++ string_of_nat i
               ++ ": expected a flat object")))
      end
  end.

(** [records as Record<string, unknown>[]] *)
Definition as_record (v : JValue) : JSObject.t JValue :=
  match v with
  | JObj props => props
  | _ => []
  end.

(** [records.map((record, index) => ...)] of [parse], from index [index] on. *)
Fixpoint build_rows (records : list (JSObject.t JValue)) (index : nat)
  (cols : list Column) : M World (list Row) :=
  match records with
  | [] => ret []
  | record :: rest =>
      (rid <- generateRowId index ;;
       r <- alloc ;;
       rs <- build_rows rest (S index) cols ;;
       ret ({| row_ref := r; id := rid; cells := buildCells record cols;
               errors := JSObject.empty |} :: rs))%js
  end.

Definition parse (input : string) (options : ParseOptions) : M World DataSet :=
  let maxFileSize :=
    match po_maxFileSize options with Some n => n | None => DEFAULT_MAX_FILE_SIZE end in
  let maxNestingDepth :=
    match po_maxNestingDepth options with
    | Some n => n | None => DEFAULT_MAX_NESTING_DEPTH end in
  let fileName :=
    match po_fileName options with Some n => n | None => "unknown" end in
  let byteSize := N.of_nat (String.length input) in
  if (maxFileSize <? byteSize)%N then
    throw (Thrown (FileSizeError byteSize maxFileSize))
  else if utf16_length (trim input) =? 0 then
    throw (Thrown (ParseError "File is empty"))
  else
    match JSON.parse input with
    | None => throw (Thrown (ParseError "Invalid JSON: file could not be parsed"))
    | Some parsed =>
        match parsed with
        | JArr records =>
            if length records =? 0 then
              throw (Thrown (ParseError
                "Empty dataset: the JSON array contains no records"))
            else
              (of_result (check_records records 0 maxNestingDepth) ;;
               let recs := map as_record records in
               let firstRecord := hd [] recs in
               let columnKeys := JSObject.keys firstRecord in
               if length columnKeys =? 0 then
                 throw (Thrown (ParseError
                   "No columns found: the first record has no keys"))
               else
                 colsRef <- alloc ;;
                 let cols :=
                   map (fun k => {| key := k;
                                    label := formatLabel k;
                                    type := inferColumnType recs k;
                                    validation := None |})
                       columnKeys in
                 rowsRef <- alloc ;;
                 rs <- build_rows recs 0 cols ;;
                 tick <- read_clock ;;
                 metaRef <- alloc ;;
                 ret {| columns := {| arr_ref := colsRef; items := cols |};
                        rows := {| arr_ref := rowsRef; items := rs |};
                        metadata :=
                          {| metadata_ref := metaRef;
                             fileName := fileName;
                             rowCount := length rs;
                             columnCount := length cols;
                             importedAt := Date_toISOString tick |} |})%js
        | _ =>
            throw (Thrown (ParseError
              "Unsupported structure: expected a JSON array of objects"))
        end
    end.

End WithRuntime.

End Parse.

(* ===================================================================== *)
(** * data-store.ts *)
(* ===================================================================== *)

Module Store.

Import Types.

(** [Required<DataStoreOptions>] *)
Record Options : Type := mkStoreOptions {
  maxFileSize : N;
  maxNestingDepth : nat;
  validationRules : JSObject.t (list ValidationRule)
}.

Definition DEFAULT_OPTIONS : Options :=
  {| maxFileSize := (5 * 1024 * 1024)%N;
     maxNestingDepth := 1;
     validationRules := JSObject.empty |}.

(** The fields of a [DataStore]; [subscribers] is the [Set] in insertion
    order. *)
Record DataStore : Type := mkDataStore {
  state : DataStoreState;
  subscribers : list Subscriber;
  options : Options
}.

(** One call of a subscriber, with the state it can read at that time. *)
Record Notification : Type := mkNotification {
  who : Subscriber;
  seen : DataStoreState
}.

(** A store in its environment; [notified] lists the calls made to the
    subscribers, oldest first.  Subscribers do nothing else: they do not
    call back into the store and do not throw. *)
Record Machine : Type := mkMachine {
  store : DataStore;
  world : World;
  notified : list Notification
}.

(** [file.size], [file.name] and what awaiting [file.text()] gives: the
    text, or the reason of the rejection. *)
Record File : Type := mkFile {
  size : N;
  file_name : string;
  text : Result string
}.

(** [new DataStore(options)] *)
Definition new_DataStore (o : DataStoreOptions) : DataStore :=
  {| state := Idle;
     subscribers := [];
     options :=
       {| maxFileSize :=
            match opt_maxFileSize o with
            | Some n => n | None => maxFileSize DEFAULT_OPTIONS end;
          maxNestingDepth :=
            match opt_maxNestingDepth o with
            | Some n => n | None => maxNestingDepth DEFAULT_OPTIONS end;
          validationRules :=
            match opt_validationRules o with
            | Some r => r | None => JSObject.empty end |} |}.

(** A computation of parse.ts or validate.ts run from the store. *)
Definition in_world {A} (c : M World A) : M Machine A :=
  fun m =>
    let '(r, w) := c (world m) in
    (r, {| store := store m; world := w; notified := notified m |}).

Definition this : M Machine DataStore := fun m => (Ok (store m), m).

Definition set_options (o : Options) : M Machine unit :=
  fun m =>
    (Ok tt,
     {| store := {| state := state (store m);
                    subscribers := subscribers (store m);
                    options := o |};
        world := world m;
        notified := notified m |}).

Definition notify : M Machine unit :=
  fun m =>
    (Ok tt,
     {| store := store m;
        world := world m;
        notified :=
          (notified m
             ++ map (fun s => {| who := s; seen := state (store m) |})
                    (subscribers (store m)))%list |}).

Definition setState (newState : DataStoreState) : M Machine unit :=
  ((fun m =>
      (Ok tt,
       {| store := {| state := newState;
                      subscribers := subscribers (store m);
                      options := options (store m) |};
          world := world m;
          notified := notified m |})) ;;
   notify)%js.

(** ** State access *)

Definition getState (s : DataStore) : DataStoreState := state s.

Definition getSnapshot (s : DataStore) : DataStoreState := state s.

Definition getData (s : DataStore) : option DataSet :=
  match state s with
  | Loaded data => Some data
  | _ => None
  end.

Definition getRows (s : DataStore) : list Row :=
  match getData s with
  | Some data => items (rows data)
  | None => []
  end.

Definition getColumns (s : DataStore) : list Column :=
  match getData s with
  | Some data => items (columns data)
  | None => []
  end.

Definition getRow (s : DataStore) (rid : string) : option Row :=
  find (fun r => String.eqb (id r) rid) (getRows s).

Definition getCellValue (s : DataStore) (rid ck : string) : option CellValue :=
  match getRow s rid with
  | Some row => JSObject.get ck (cells row)
  | None => None
  end.

Definition getErrorCount (s : DataStore) : nat :=
  match state s with
  | Loaded data =>
      fold_left (fun count row => count + length (JSObject.keys (errors row)))
        (items (rows data)) 0
  | _ => 0
  end.

Definition getRowsWithErrors (s : DataStore) : list Row :=
  match state s with
  | Loaded data =>
      filter (fun row => 0 <? length (JSObject.keys (errors row))) (items (rows data))
  | _ => []
  end.

Definition exportData (s : DataStore) : option (list (JSObject.t CellValue)) :=
  match state s with
  | Loaded data => Some (map cells (items (rows data)))
  | _ => None
  end.

(** ** Subscriptions *)

Definition subscribe (sub : Subscriber) : M Machine unit :=
  fun m =>
    (Ok tt,
     {| store := {| state := state (store m);
                    subscribers :=
                      if existsb (Nat.eqb sub) (subscribers (store m))
                      then subscribers (store m)
                      else (subscribers (store m) ++ [sub])%list;
                    options := options (store m) |};
        world := world m;
        notified := notified m |}).

(** The function [subscribe] returns. *)
Definition unsubscribe (sub : Subscriber) : M Machine unit :=
  fun m =>
    (Ok tt,
     {| store := {| state := state (store m);
                    subscribers :=
                      filter (fun s => negb (Nat.eqb sub s)) (subscribers (store m));
                    options := options (store m) |};
        world := world m;
        notified := notified m |}).

(** ** Array helpers *)

Fixpoint findIndex {A} (p : A -> bool) (l : list A) : option nat :=
  match l with
  | [] => None
  | a :: l' =>
      if p a then Some 0
      else match findIndex p l' with
           | Some i => Some (S i)
           | None => None
           end
  end.

(** [l[i] = a] for an index inside the array. *)
Fixpoint assign {A} (i : nat) (a : A) (l : list A) : list A :=
  match l, i with
  | [], _ => []
  | _ :: l', O => a :: l'
  | b :: l', S j => b :: assign j a l'
  end.

Section WithRuntime.
Context {runtime : Runtime}.

(** ** Private *)

Definition applyValidationRules (cols : list Column) : M Machine (Arr Column) :=
  (self <- this ;;
   a <- in_world alloc ;;
   ret {| arr_ref := a;
          items :=
            map (fun col =>
                   match JSObject.get (key col) (validationRules (options self)) with
                   | None => col
                   | Some rules =>
                       {| key := key col;
                          label := label col;
                          type := type col;
                          validation :=
                            Some ((match validation col with
                                   | Some own => own
                                   | None => []
                                   end) ++ rules)%list |}
                   end)
                cols |})%js.

(** ** Data loading *)

Definition loadFromString (jsonString : string) (fileName : option string)
  : M Machine unit :=
  (setState Loading ;;
   try_catch
     (self <- this ;;
      dataSet <- in_world
        (Parse.parse jsonString
           {| po_maxFileSize := Some (maxFileSize (options self));
              po_maxNestingDepth := Some (maxNestingDepth (options self));
              po_fileName :=
                Some (match fileName with Some n => n | None => "unknown" end) |}) ;;
      columnsWithRules <- applyValidationRules (items (columns dataSet)) ;;
      validatedRows <- in_world
        (Validate.validateAllRows (items (rows dataSet)) (items columnsWithRules)) ;;
      setState (Loaded {| columns := columnsWithRules;
                          rows := validatedRows;
                          metadata := metadata dataSet |}))
     (fun error =>
        match error with
        | Thrown e => setState (Error e)
        | ThrownError _ msg =>
            setState (Error (new_DataValidatorError "UNKNOWN_ERROR" msg))
        end))%js.

(** [loadFromFile], the wait for [file.text()] taken as one step. *)
Definition loadFromFile (file : File) : M Machine unit :=
  (setState Loading ;;
   self <- this ;;
   if (maxFileSize (options self) <? size file)%N then
     setState (Error (FileSizeError (size file) (maxFileSize (options self))))
   else
     try_catch
       (t <- of_result (text file) ;;
        loadFromString t (Some (file_name file)))
       (fun error =>
          setState (Error (new_DataValidatorError "FILE_READ_ERROR"
            (match error with
             | Thrown e => error_message e
             | ThrownError _ msg => msg
             end)))))%js.

(** ** Editing *)

(** The part of [updateCell] and of the loop of [batchUpdateCells] that
    builds the new row object. *)
Definition edited_row (row : Row) (col : Column) (ck : string) (v : CellValue)
  : M Machine Row :=
  (let newCells := JSObject.set ck v (cells row) in
   cellErrors <- of_result (Validate.validateCell v col) ;;
   let newErrors :=
     if 0 <? length cellErrors
     then JSObject.set ck cellErrors (errors row)
     else JSObject.delete ck (errors row) in
   r <- in_world alloc ;;
   ret {| row_ref := r; id := id row; cells := newCells; errors := newErrors |})%js.

Definition updateCell (rid ck : string) (v : CellValue) : M Machine unit :=
  (self <- this ;;
   match state self with
   | Loaded data =>
       match findIndex (fun r => String.eqb (id r) rid) (items (rows data)) with
       | None => ret tt
       | Some rowIndex =>
           match find (fun c => String.eqb (key c) ck) (items (columns data)) with
           | None => ret tt
           | Some col =>
               match nth_error (items (rows data)) rowIndex with
               | None => ret tt
               | Some row =>
                   newRow <- edited_row row col ck v ;;
                   a <- in_world alloc ;;
                   setState (Loaded
                     {| columns := columns data;
                        rows := {| arr_ref := a;
                                   items := assign rowIndex newRow (items (rows data)) |};
                        metadata := metadata data |})
               end
           end
       end
   | _ => ret tt
   end)%js.

(** [rowIndexMap]: a [Map] from row id to index, filled in row order. *)
Fixpoint index_rows (rs : list Row) (i : nat) (acc : JSObject.t nat) : JSObject.t nat :=
  match rs with
  | [] => acc
  | row :: rest => index_rows rest (S i) (JSObject.set (id row) i acc)
  end.

(** The loop of [batchUpdateCells] over the edits; [newRows] is the working
    copy of the rows. *)
Fixpoint apply_edits (edits : list CellEdit) (cols : list Column)
  (rowIndexMap : JSObject.t nat) (newRows : list Row) : M Machine (list Row) :=
  match edits with
  | [] => ret newRows
  | edit :: rest =>
      match JSObject.get (rowId edit) rowIndexMap with
      | None => apply_edits rest cols rowIndexMap newRows
      | Some rowIndex =>
          match find (fun c => String.eqb (key c) (columnKey edit)) cols with
          | None => apply_edits rest cols rowIndexMap newRows
          | Some col =>
              match nth_error newRows rowIndex with
              | None => apply_edits rest cols rowIndexMap newRows
              | Some row =>
                  (newRow <- edited_row row col (columnKey edit) (value edit) ;;
                   apply_edits rest cols rowIndexMap (assign rowIndex newRow newRows))%js
              end
          end
      end
  end.

Definition batchUpdateCells (edits : list CellEdit) : M Machine unit :=
  (self <- this ;;
   match state self with
   | Loaded data =>
       a <- in_world alloc ;;
       let rowIndexMap := index_rows (items (rows data)) 0 JSObject.empty in
       newRows <- apply_edits edits (items (columns data)) rowIndexMap (items (rows data)) ;;
       setState (Loaded {| columns := columns data;
                           rows := {| arr_ref := a; items := newRows |};
                           metadata := metadata data |})
   | _ => ret tt
   end)%js.

Definition addValidationRules (ck : string) (rules : list ValidationRule)
  : M Machine unit :=
  (self <- this ;;
   let stored := validationRules (options self) in
   set_options
     {| maxFileSize := maxFileSize (options self);
        maxNestingDepth := maxNestingDepth (options self);
        validationRules :=
          JSObject.set ck
            ((match JSObject.get ck stored with
              | Some old => old
              | None => []
              end) ++ rules)%list
            stored |} ;;
   self <- this ;;
   match state self with
   | Loaded data =>
       columnsWithRules <- applyValidationRules (items (columns data)) ;;
       validatedRows <- in_world
         (Validate.validateAllRows (items (rows data)) (items columnsWithRules)) ;;
       setState (Loaded {| columns := columnsWithRules;
                           rows := validatedRows;
                           metadata := metadata data |})
   | _ => ret tt
   end)%js.

(** ** State management *)

Definition reset : M Machine unit := setState Idle.

End WithRuntime.

End Store.

(* ===================================================================== *)
(** * A reference runtime *)
(* ===================================================================== *)

(** One runtime to evaluate the code on concrete inputs: a frozen clock,
    the usual printing of integers and short decimals, dates in the three
    shapes parse.ts looks for, and the regular expressions made of literal
    characters, [.], escapes, groups, [|], [*], [+] and [?], matched by
    derivatives.  Any other pattern is reported as a syntax error, as the
    ECMAScript grammar does for an unmatched parenthesis or a quantifier
    with nothing to repeat. *)
Module Reference.

Import Types.

Inductive re : Type :=
| Never
| Eps
| Chr (p : ascii -> bool)
| Cat (a b : re)
| Alt (a b : re)
| Star (a : re).

Fixpoint nullable (r : re) : bool :=
  match r with
  | Never => false
  | Eps => true
  | Chr _ => false
  | Cat a b => nullable a && nullable b
  | Alt a b => nullable a || nullable b
  | Star _ => true
  end.

Fixpoint deriv (c : ascii) (r : re) : re :=
  match r with
  | Never => Never
  | Eps => Never
  | Chr p => if p c then Eps else Never
  | Cat a b =>
      if nullable a then Alt (Cat (deriv c a) b) (deriv c b)
      else Cat (deriv c a) b
  | Alt a b => Alt (deriv c a) (deriv c b)
  | Star a => Cat (deriv c a) (Star a)
  end.

Fixpoint matches (r : re) (s : string) : bool :=
  match s with
  | EmptyString => nullable r
  | String c t => matches (deriv c r) t
  end.

Definition any : re := Chr (fun _ => true).

Definition is_meta (c : ascii) : bool :=
  existsb (Ascii.eqb c)
    ["("; ")"; "|"; "*"; "+"; "?"; "["; "]"; "{"; "}"; "^"; "$"; "\"]%char.

Definition escape_class (c : ascii) : option re :=
  match c with
  | "d" => Some (Chr is_digit)
  | "w" => Some (Chr is_word)
  | "s" => Some (Chr (fun x => between 9 13 x || Ascii.eqb x " "))
  | _ => if is_word c then None else Some (Chr (Ascii.eqb c))
  end%char.

Fixpoint postfix (r : re) (s : string) : re * string :=
  match s with
  | String "*" t => postfix (Star r) t
  | String "+" t => postfix (Cat r (Star r)) t
  | String "?" t => postfix (Alt Eps r) t
  | _ => (r, s)
  end.

(** Disjunction, at parenthesis depth [depth]; stops before an unmatched
    [)] or at the end. *)
Fixpoint disjunction (fuel : nat) (s : string) : option (re * string) :=
  match fuel with
  | O => None
  | S f =>
      match alternative f s Eps with
      | Some (a, String "|" t) =>
          match disjunction f t with
          | Some (b, rest) => Some (Alt a b, rest)
          | None => None
          end
      | other => other
      end
  end

with alternative (fuel : nat) (s : string) (acc : re) : option (re * string) :=
  match fuel with
  | O => None
  | S f =>
      match s with
      | EmptyString => Some (acc, s)
      | String c t =>
          if Ascii.eqb c ")" || Ascii.eqb c "|" then Some (acc, s)
          else
            let atom :=
              if Ascii.eqb c "(" then
                match disjunction f t with
                | Some (r, String ")" rest) => Some (r, rest)
                | _ => None
                end
              else if Ascii.eqb c "." then
                Some (Chr (fun x => negb (Ascii.eqb x "010" || Ascii.eqb x "013")), t)
              else if Ascii.eqb c "\" then
                match t with
                | String e rest =>
                    match escape_class e with
                    | Some r => Some (r, rest)
                    | None => None
                    end
                | EmptyString => None
                end
              else if is_meta c then None
              else Some (Chr (Ascii.eqb c), t) in
            match atom with
            | Some (r, rest) =>
                let '(r', rest') := postfix r rest in
                alternative f rest' (Cat acc r')
            | None => None
            end
      end
  end.

(** A compiled pattern: anchored at the start, at the end, and its body. *)
Definition compiled : Type := bool * bool * re.

Definition ends_with_dollar (s : string) : bool :=
  match String.length s with
  | O => false
  | S n => String.eqb (substring n 1 s) "$"
           && negb (String.eqb (substring (n - 1) 1 s) "\" && (0 <? n))
  end.

Definition compile (source : string) : string + compiled :=
  let '(atStart, s1) :=
    match source with
    | String "^" t => (true, t)
    | _ => (false, source)
    end in
  let atEnd := ends_with_dollar s1 in
  let s2 := if atEnd then substring 0 (String.length s1 - 1) s1 else s1 in
  match disjunction (2 * String.length s2 + 2) s2 with
  | Some (r, EmptyString) => inr (atStart, atEnd, r)
  | _ => inl ("Invalid regular expression: /" ++ source ++ "/")
  end.

Definition test (c : compiled) (s : string) : bool :=
  let '(atStart, atEnd, r) := c in
  let r1 := if atStart then r else Cat (Star any) r in
  let r2 := if atEnd then r1 else Cat r1 (Star any) in
  matches r2 s.

Definition two_digits (s : string) : option (N * string) :=
  match s with
  | String a (String b r) =>
      if is_digit a && is_digit b then Some (digit_val a * 10 + digit_val b, r)%N
      else None
  | _ => None
  end.

Definition plausible_day (month day : N) : bool :=
  ((1 <=? month) && (month <=? 12) && (1 <=? day) && (day <=? 31))%N.

Definition date_valid (s : string) : bool :=
  if Parse.test_whole Parse.us_date s then
    match two_digits s with
    | Some (m, String _ r) =>
        match two_digits r with
        | Some (d, _) => plausible_day m d
        | None => false
        end
    | _ => false
    end
  else if Parse.test_prefix Parse.iso_date s then
    match two_digits (substring 5 2 s), two_digits (substring 8 2 s) with
    | Some (m, _), Some (d, _) =>
        plausible_day m d
        && (String.eqb (substring 10 (String.length s) s) ""
            || Parse.test_prefix Parse.iso_date_time s)
    | _, _ => false
    end
  else false.

Fixpoint fraction_digits (fuel : nat) (num den : N) : string :=
  match fuel with
  | O => EmptyString
  | S f =>
      if (num =? 0)%N then EmptyString
      else String (ascii_of_N (48 + (num * 10) / den))
             (fraction_digits f ((num * 10) mod den) den)
  end.

Definition number_toString (n : JSNumber) : string :=
  match n with
  | JNaN => "NaN"
  | JInf false => "Infinity"
  | JInf true => "-Infinity"
  | JFin q =>
      let a := Z.abs_N (Qnum q) in
      let d := Npos (Qden q) in
      let frac := fraction_digits 20 (a mod d) d in
      (if (Qnum q <? 0)%Z then "-" else "")
        ++ string_of_N (a / d)
        ++ (if String.eqb frac "" then "" else "." ++ frac)
  end.

#[export] Instance runtime : Runtime := {|
  RegExp := compiled;
  RegExp_new := compile;
  RegExp_test := test;
  Date_valid := date_valid;
  Number_toString := number_toString;
  Date_now := fun _ => 1700000000000%N;
  Date_toISOString := fun _ => "2023-11-14T22:13:20.000Z"
|}.

End Reference.

(* ===================================================================== *)
(** * The pure helpers of the frontend components *)
(* ===================================================================== *)

(** data-table.tsx: what a text typed in a cell editor becomes, and the
    page buttons of the paginated table.  The rendering itself (React,
    TanStack Table, the locale-dependent [formatCellValue]) is not
    modelled. *)
Module DataTable.

Import Types.

(** [parseEditValue] *)
Definition parseEditValue (input : string) (type : CellType) : CellValue :=
  if String.eqb (trim input) "" then CNull
  else
    match type with
    | NUMBER =>
        let num := Number input in
        if isNaN num then CString input else CNumber num
    | BOOLEAN =>
        let lower := toLowerCase input in
        if existsb (String.eqb lower) ["true"; "yes"; "1"] then CBoolean true
        else if existsb (String.eqb lower) ["false"; "no"; "0"] then CBoolean false
        else CString input
    | _ => CString input
    end.

(** An element of the array [getPageNumbers] returns: a page index or the
    string of three dots. *)
Inductive PageItem : Type :=
| Page (index : Z)
| Ellipsis.

(** [for (let i = start; i <= end; i++) pages.push(i)] *)
Definition page_range (start end_ : Z) : list PageItem :=
  map (fun i => Page (start + Z.of_nat i)) (seq 0 (Z.to_nat (end_ - start + 1))).

(** [getPageNumbers], for an integer page count and page index. *)
Definition getPageNumbers (pageCount currentPage : Z) : list PageItem :=
  if (pageCount <=? 7)%Z then
    map (fun i => Page (Z.of_nat i)) (seq 0 (Z.to_nat pageCount))
  else
    let start := Z.max 1 (currentPage - 2) in
    let end_ := Z.min (pageCount - 2) (currentPage + 2) in
    ([Page 0]
       ++ (if (1 <? start)%Z then [Ellipsis] else [])
       ++ page_range start end_
       ++ (if (end_ <? pageCount - 2)%Z then [Ellipsis] else [])
       ++ [Page (pageCount - 1)])%list.

End DataTable.

(** validation-errors-table.tsx: the rows the table of errors shows and
    the number it prints beside each. *)
Module ErrorsTable.

Import Types.




End ErrorsTable.

(* ===================================================================== *)
(** * The notions of the statements, and concrete inputs *)
(* ===================================================================== *)

Module Statements.

Import Types.

Definition world0 : World :=
  {| next_ref := 0; rowIdCounter := 0; clock_reads := 0 |}.

Definition default_parse_options : ParseOptions :=
  {| po_maxFileSize := None; po_maxNestingDepth := None; po_fileName := None |}.

(** A value on which the check of a number column is read off the words
    of the specification: a number, or a non-blank string that parses
    fully to a finite number. *)
Definition spec_number_conformance (v : CellValue) : bool :=
  match v with
  | CNumber _ => true
  | CString s => negb (String.eqb (trim s) "") && isFinite (Number s)
  | _ => false
  end.

(** The message of the type error of a column type. *)
Definition type_message (t : CellType) : string :=
  match t with
  | NUMBER => ValidationMessages.EXPECTED_NUMBER
  | BOOLEAN => ValidationMessages.EXPECTED_BOOLEAN
  | DATE => ValidationMessages.EXPECTED_DATE
  | STRING => ""
  end.

(** The limits [parse] works with, defaults filled in. *)
Definition limit (o : ParseOptions) : N :=
  match po_maxFileSize o with Some n => n | None => Parse.DEFAULT_MAX_FILE_SIZE end.

Definition depth (o : ParseOptions) : nat :=
  match po_maxNestingDepth o with
  | Some n => n | None => Parse.DEFAULT_MAX_NESTING_DEPTH end.

Definition byteSize (input : string) : N := N.of_nat (String.length input).

(** The kind code of the failure a call ended with, if it did. *)
Definition failure_code {A} (r : Result A) : option string :=
  match r with
  | Throw (Thrown d) => Some (code d)
  | _ => None
  end.

Definition failure_message {A} (r : Result A) : option string :=
  match r with
  | Throw (Thrown d) => Some (error_message d)
  | _ => None
  end.

Definition invalid_record_error (i : nat) : Exception :=
  Thrown (ParseError
    ("Invalid record at index " ++ string_of_nat i ++ ": expected a flat object")).

(** One record with an object nested too deep under its first key and an
    array under its second. *)
(** JSON text written with single quotes, for readability. *)
Fixpoint json (s : string) : string :=
  match s with
  | EmptyString => EmptyString
  | String c r => String (if Ascii.eqb c "'" then dquote_char else c) (json r)
  end.

Definition deep_then_array : string :=
  json "[{'a':{'b':{'c':1}},'x':[1]}]".

Definition array_then_deep : string :=
  json "[{'x':[1],'a':{'b':{'c':1}}}]".

(** ** Type inference *)


(** How many times [t] occurs in [l]. *)
Definition occurrences (t : CellType) (l : list CellType) : nat :=
  length (filter (CellType_eqb t) l).





(** The column types [parse] infers for a text, under the reference
    runtime and the default options. *)
Definition column_types (input : string) : list CellType :=
  match fst (Parse.parse (runtime := Reference.runtime) input
               default_parse_options world0) with
  | Ok ds => map type (items (columns ds))
  | Throw _ => []
  end.



(** ** Stores *)

(** A new store in a new world. *)
Definition machine0 (o : DataStoreOptions) : Store.Machine :=
  {| Store.store := Store.new_DataStore o;
     Store.world := world0;
     Store.notified := [] |}.

Definition no_options : DataStoreOptions :=
  {| opt_maxFileSize := None; opt_maxNestingDepth := None;
     opt_validationRules := None |}.

(** The machine a call leaves behind. *)
Definition after {A} (c : M Store.Machine A) (m : Store.Machine) : Store.Machine :=
  snd (c m).

(** The notifications a call added to those of [before]. *)
Definition new_notifications (before later : Store.Machine) : list Store.Notification :=
  skipn (length (Store.notified before)) (Store.notified later).

(** How many times a call notified [sub]. *)
Definition calls_to (sub : Subscriber) (before later : Store.Machine) : nat :=
  count_occ Nat.eq_dec (map Store.who (new_notifications before later)) sub.

(** The states [sub] saw in the notifications of a call, in order. *)
Definition seen_by (sub : Subscriber) (before later : Store.Machine)
  : list DataStoreState :=
  map Store.seen
    (filter (fun n => Nat.eqb (Store.who n) sub) (new_notifications before later)).

(** [sub] is in the set of subscribers. *)
Definition registered (sub : Subscriber) (m : Store.Machine) : Prop :=
  count_occ Nat.eq_dec (Store.subscribers (Store.store m)) sub = 1.

(** One call of every subscriber, all seeing the state [st]. *)
Definition round (subs : list Subscriber) (st : DataStoreState)
  : list Store.Notification :=
  map (fun s => {| Store.who := s; Store.seen := st |}) subs.

(** From [m] to [m'] the state was replaced by each of [states] in turn,
    with one round of notifications each time, and nothing else was told to
    the subscribers. *)
Definition replaced (states : list DataStoreState) (m m' : Store.Machine) : Prop :=
  Store.subscribers (Store.store m') = Store.subscribers (Store.store m)
  /\ Store.notified m'
     = (Store.notified m
          ++ flat_map (round (Store.subscribers (Store.store m))) states)%list
  /\ Store.state (Store.store m') = last states (Store.state (Store.store m)).

(** Tactics for the goals [replaced states m m'] left by unfolding a call:
    no replacement, one, or two. *)
Ltac use_quiet :=
  repeat match goal with
         | H : Store.store ?x = _ |- _ => rewrite ?H; clear H
         | H : Store.notified ?x = _ |- _ => rewrite ?H; clear H
         end;
  simpl.

Ltac quiet :=
  left; unfold replaced; simpl; use_quiet; rewrite ?app_nil_r;
  repeat split; congruence.

Ltac one_round :=
  right; eexists; unfold replaced, round; simpl; use_quiet; rewrite ?app_nil_r;
  repeat split; congruence.

Ltac two_rounds :=
  eexists; unfold replaced, round; simpl; use_quiet;
  rewrite ?app_nil_r, <- ?app_assoc;
  repeat split; solve [congruence | now left | now right].

(** A call told [sub] nothing and left the state as it was, or replaced
    the state once and told [sub] once, who then saw the new state. *)
Definition at_most_one_round (sub : Subscriber) (m m' : Store.Machine) : Prop :=
  (calls_to sub m m' = 0
   /\ Store.state (Store.store m') = Store.state (Store.store m))
  \/ (calls_to sub m m' = 1
      /\ seen_by sub m m' = [Store.state (Store.store m')]).

(** A store with one subscriber, number 7, not loaded yet. *)
Definition watched : Store.Machine :=
  after (Store.subscribe 7) (machine0 no_options).

Definition one_record : string := json "[{'a':1}]".

(** ** Rules *)

Definition min_rule (n : nat) : ValidationRule :=
  {| rule_type := MIN; rule_value := Some (RuleNumber (JS.of_nat n));
     rule_message := None |}.

Definition max_rule (n : nat) : ValidationRule :=
  {| rule_type := MAX; rule_value := Some (RuleNumber (JS.of_nat n));
     rule_message := None |}.

Definition pattern_rule (source : string) : ValidationRule :=
  {| rule_type := PATTERN; rule_value := Some (RuleString source);
     rule_message := None |}.

Definition with_rules (rules : JSObject.t (list ValidationRule)) : DataStoreOptions :=
  {| opt_maxFileSize := None; opt_maxNestingDepth := None;
     opt_validationRules := Some rules |}.

(** The rule is not a pattern rule, or its pattern is accepted by
    [new RegExp]. *)
Definition pattern_compiles {runtime : Runtime} (r : ValidationRule) : bool :=
  match rule_type r, rule_value r with
  | PATTERN, Some (RuleString source) =>
      match RegExp_new source with
      | inr _ => true
      | inl _ => false
      end
  | _, _ => true
  end.

Definition patterns_compile {runtime : Runtime} (col : Column) : bool :=
  match validation col with
  | Some rules => forallb pattern_compiles rules
  | None => true
  end.

(** A store built with the rule [min: 0] on [age] and loaded with one
    record whose age is -1. *)
Definition aged : Store.Machine :=
  after (Store.loadFromString (runtime := Reference.runtime)
           (json "[{'age':-1}]") None)
        (machine0 (with_rules [("age", [min_rule 0])])).

(** A store built with a pattern rule on [code] whose pattern is an
    unmatched parenthesis, and loaded with one record whose code is a
    number. *)
Definition coded : Store.Machine :=
  after (Store.loadFromString (runtime := Reference.runtime)
           (json "[{'code':1}]") None)
        (machine0 (with_rules [("code", [pattern_rule "("])])).

(** A store without rules loaded with one record whose name is a string. *)
Definition named : Store.Machine :=
  after (Store.loadFromString (runtime := Reference.runtime)
           (json "[{'name':'Alice'}]") None)
        (machine0 no_options).

(** The id [parse] gives the first row of the first file, under the
    reference runtime. *)
Definition first_row_id : string := "row-0-1-loyw3v28".

Definition unmatched_parenthesis : Exception :=
  ThrownError "SyntaxError" "Invalid regular expression: /(/".

(** ** Invariants of a loaded store *)




(** The addresses of the objects of a DataSet whose identity is followed:
    the columns array, the rows array, the metadata and the rows. *)
Definition addresses (ds : DataSet) : list address :=
  arr_ref (columns ds) :: arr_ref (rows ds) :: metadata_ref (metadata ds)
    :: map row_ref (items (rows ds)).

(** Every object of the loaded DataSet was allocated: its address is
    below the next free one. *)
Definition heap_ok (m : Store.Machine) : bool :=
  match Store.state (Store.store m) with
  | Loaded ds => forallb (fun a => a <? next_ref (Store.world m)) (addresses ds)
  | _ => true
  end.

(** The DataSet of a loaded store. *)
Definition data_of (m : Store.Machine) : DataSet :=
  match Store.state (Store.store m) with
  | Loaded ds => ds
  | _ => {| columns := {| arr_ref := 0; items := [] |};
            rows := {| arr_ref := 0; items := [] |};
            metadata := {| metadata_ref := 0; fileName := ""; rowCount := 0;
                           columnCount := 0; importedAt := "" |} |}
  end.

(** A store without rules loaded with Alice and Bob. *)
Definition people : Store.Machine :=
  after (Store.loadFromString (runtime := Reference.runtime)
           (json "[{'name':'Alice','age':30},{'name':'Bob','age':25}]") None)
        (machine0 no_options).

Definition second_row_id : string := "row-1-2-loyw3v28".

End Statements.


(* ===================================================================== *)
(** * Further notions: rules, invariants of a loaded store, page lists *)
(* ===================================================================== *)

Module Notions.

Import Types DataTable.

(** ** Cells and rules *)

(** The rules of a column, none when [validation] is absent. *)
Definition rules_of (col : Column) : list ValidationRule :=
  match validation col with
  | Some rules => rules
  | None => []
  end.

Definition is_required (r : ValidationRule) : bool :=
  match rule_type r with
  | REQUIRED => true
  | _ => false
  end.

(** The error a [required] rule gives. *)
Definition required_error (k : string) (r : ValidationRule) : ValidationError :=
  {| rule := REQUIRED;
     message := Validate.message_or r ValidationMessages.REQUIRED;
     column := k |}.

(** The text [new RegExp] reports for the first pattern rule it refuses. *)
Fixpoint first_malformed {runtime : Runtime} (rules : list ValidationRule)
  : option string :=
  match rules with
  | [] => None
  | r :: rest =>
      match rule_type r, rule_value r with
      | PATTERN, Some (RuleString source) =>
          match RegExp_new source with
          | inl text => Some text
          | inr _ => first_malformed rest
          end
      | _, _ => first_malformed rest
      end
  end.

(** The rule reports an error on the value. *)
Definition fires {runtime : Runtime} (v : CellValue) (k : string)
  (r : ValidationRule) : bool :=
  match Validate.validateRule v r k with
  | Ok (Some _) => true
  | _ => false
  end.

(** [row.cells[k] ?? null] *)
Definition cell_of (row : Row) (k : string) : CellValue :=
  match JSObject.get k (cells row) with
  | Some v => v
  | None => CNull
  end.

(** The property of an errors object a list of cell errors is stored as:
    none when the list is empty. *)
Definition entry_of (errs : list ValidationError) : option (list ValidationError) :=
  match errs with
  | [] => None
  | _ => Some errs
  end.

(** ** Steps of the store *)

(** The row object [updateCell] and [batchUpdateCells] put in place of
    [row] for the edit of its cell [ck] to [v], when [validateCell] gave
    [es] for the new value; [r] is the address of the new object. *)
Definition edited (row : Row) (ck : string) (v : CellValue)
  (es : list ValidationError) (r : address) : Row :=
  {| row_ref := r;
     id := id row;
     cells := JSObject.set ck v (cells row);
     errors := if 0 <? length es
               then JSObject.set ck es (errors row)
               else JSObject.delete ck (errors row) |}.

(** The column [applyValidationRules] returns for [col] when the options
    hold the rules [stored]. *)
Definition with_stored_rules (stored : JSObject.t (list ValidationRule))
  (col : Column) : Column :=
  match JSObject.get (key col) stored with
  | None => col
  | Some rules =>
      {| key := key col;
         label := label col;
         type := type col;
         validation :=
           Some ((match validation col with
                  | Some own => own
                  | None => []
                  end) ++ rules)%list |}
  end.

(** [row'] is the row [validateAllRows] returns for [row]. *)
Definition revalidated {runtime : Runtime} (cols : list Column) (row row' : Row)
  : Prop :=
  id row' = id row /\ cells row' = cells row
  /\ Validate.validateRow row cols = Ok (errors row').

(** A call of a public method of the store. *)
Inductive Call : Type :=
| LoadFromString (jsonString : string) (fileName : option string)
| LoadFromFile (file : Store.File)
| UpdateCell (rid ck : string) (v : CellValue)
| BatchUpdateCells (edits : list CellEdit)
| AddValidationRules (ck : string) (rules : list ValidationRule)
| Reset
| Subscribe (sub : Subscriber)
| Unsubscribe (sub : Subscriber).

Definition call {runtime : Runtime} (c : Call) : M Store.Machine unit :=
  match c with
  | LoadFromString jsonString fileName => Store.loadFromString jsonString fileName
  | LoadFromFile file => Store.loadFromFile file
  | UpdateCell rid ck v => Store.updateCell rid ck v
  | BatchUpdateCells edits => Store.batchUpdateCells edits
  | AddValidationRules ck rules => Store.addValidationRules ck rules
  | Reset => Store.reset
  | Subscribe sub => Store.subscribe sub
  | Unsubscribe sub => Store.unsubscribe sub
  end.

(** The machines a store can be in: a new store, then any calls, whether
    they return or throw. *)
Inductive reachable {runtime : Runtime} : Store.Machine -> Prop :=
| reachable_new (o : DataStoreOptions) (w : World) :
    reachable {| Store.store := Store.new_DataStore o;
                 Store.world := w;
                 Store.notified := [] |}
| reachable_call (m : Store.Machine) (c : Call) :
    reachable m -> reachable (snd (call c m)).

(** The machine after a sequence of calls, whether they return or throw. *)
Definition run_calls {runtime : Runtime} (cs : list Call) (m : Store.Machine)
  : Store.Machine :=
  fold_left (fun m c => snd (call c m)) cs m.

(** The edit names a row id or a column key the data does not have. *)
Definition names_nothing (data : DataSet) (e : CellEdit) : Prop :=
  ~ In (rowId e) (map id (items (rows data)))
  \/ ~ In (columnKey e) (map key (items (columns data))).

(** What a row holds, its address apart. *)
Definition row_data (r : Row)
  : string * JSObject.t CellValue * JSObject.t (list ValidationError) :=
  (id r, cells r, errors r).

(** The call of [updateCell] for one edit of a batch. *)
Definition update_call (e : CellEdit) : Call :=
  UpdateCell (rowId e) (columnKey e) (value e).

(** ** More invariants of a loaded store *)

(** The errors of [row] are those of its cells under [cols]: the errors
    object has a property for a column exactly when [validateCell] reports
    errors for the row's cell, and the property holds that report. *)
Definition row_validated {runtime : Runtime} (cols : list Column) (row : Row)
  : Prop :=
  NoDup (JSObject.keys (errors row))
  /\ (forall k, In k (JSObject.keys (errors row)) -> In k (map key cols))
  /\ forall col, In col cols ->
       exists es, Validate.validateCell (cell_of row (key col)) col = Ok es
                  /\ JSObject.get (key col) (errors row) = entry_of es.

Definition state_validated {runtime : Runtime} (s : DataStoreState) : Prop :=
  match s with
  | Loaded ds =>
      NoDup (map key (items (columns ds)))
      /\ Forall (row_validated (items (columns ds))) (items (rows ds))
  | _ => True
  end.

(** The ids of the rows are pairwise distinct. *)
Definition ids_unique (s : DataStoreState) : Prop :=
  match s with
  | Loaded ds => NoDup (map id (items (rows ds)))
  | _ => True
  end.

(** The counts of the metadata are those of the data, and there is at
    least one row and one column. *)
Definition counts_agree (s : DataStoreState) : Prop :=
  match s with
  | Loaded ds =>
      rowCount (metadata ds) = length (items (rows ds))
      /\ columnCount (metadata ds) = length (items (columns ds))
      /\ 0 < length (items (rows ds))
      /\ 0 < length (items (columns ds))
  | _ => True
  end.

(** The sum of a list of numbers. *)
Definition total (l : list nat) : nat := fold_right Nat.add 0 l.

(** Every object of a parsed value that is the value itself or a member
    of it has each of its keys once. *)
Definition record_keyed (x : JValue) : Prop :=
  match x with
  | JObj props => NoDup (JSObject.keys props)
  | _ => True
  end.

Definition well_keyed (v : JValue) : Prop :=
  match v with
  | JArr items => Forall record_keyed items
  | _ => record_keyed v
  end.

(** ** Nesting *)

(** How deep objects are nested in the property values of an object: 0
    when no property value is an object. *)
Fixpoint object_depth (v : JValue) : nat :=
  match v with
  | JObj props =>
      (fix deepest (es : list (string * JValue)) : nat :=
         match es with
         | [] => 0
         | (_, x) :: rest =>
             Nat.max (match x with
                      | JObj _ => S (object_depth x)
                      | _ => 0
                      end)
                     (deepest rest)
         end) props
  | _ => 0
  end.

(** A property value of the object, or of an object nested in it, is an
    array. *)
Fixpoint holds_array (v : JValue) : bool :=
  match v with
  | JObj props =>
      (fix some (es : list (string * JValue)) : bool :=
         match es with
         | [] => false
         | (_, x) :: rest =>
             match x with
             | JArr _ => true
             | _ => holds_array x
             end || some rest
         end) props
  | _ => false
  end.

(** No character of the string is a space. *)
Fixpoint no_space (s : string) : bool :=
  match s with
  | EmptyString => true
  | String c r => negb (Ascii.eqb c " ") && no_space r
  end.

(** ** Row ids *)

(** [rid] is an id [generateRowId] makes for the row index [index]. *)
Definition row_id_shape (index : nat) (rid : string) : Prop :=
  exists rest, rid = "row-" ++ string_of_nat index ++ "-" ++ rest.

(** [rid] is an id [generateRowId] makes for the row index [index] when
    the counter of the module has reached [counter]. *)
Definition row_id_made (index counter : nat) (rid : string) : Prop :=
  exists rest,
    rid = "row-" ++ string_of_nat index ++ "-" ++ string_of_nat counter
            ++ "-" ++ rest.

Fixpoint all_digits (s : string) : bool :=
  match s with
  | EmptyString => true
  | String c r => is_digit c && all_digits r
  end.

(** The cell of [row] under the column [col] has errors. *)
Definition cell_fails {runtime : Runtime} (row : Row) (col : Column) : bool :=
  match Validate.validateCell (cell_of row (key col)) col with
  | Ok (_ :: _) => true
  | _ => false
  end.

(** ** Concrete sessions, on the reference runtime *)

(** A new store built with the options [o], after the calls [cs]. *)
Definition session (o : DataStoreOptions) (cs : list Call) : Store.Machine :=
  run_calls (runtime := Reference.runtime) cs (Statements.machine0 o).

(** A store without rules loaded with Alice and Bob. *)
Definition alice_and_bob : Store.Machine :=
  session Statements.no_options
    [LoadFromString
       (Statements.json "[{'name':'Alice','age':30},{'name':'Bob','age':25}]") None].

(** A store with the rule [min: 0] on [age], loaded with the ages -1
    and 3. *)
Definition below_zero : Store.Machine :=
  session (Statements.with_rules [("age", [Statements.min_rule 0])])
    [LoadFromString (Statements.json "[{'age':-1},{'age':3}]") None].

(** A new store with one subscriber, number 7. *)
Definition listener : Store.Machine :=
  session Statements.no_options [Subscribe 7].

(** What [parse] returns for a text under the default options, with the
    world it leaves; an empty DataSet stands for a failure. *)
Definition parsed (input : string) (w : World) : DataSet * World :=
  match Parse.parse (runtime := Reference.runtime) input
          Statements.default_parse_options w with
  | (Ok ds, w') => (ds, w')
  | (Throw _, w') =>
      ({| columns := {| arr_ref := 0; items := [] |};
          rows := {| arr_ref := 0; items := [] |};
          metadata := {| metadata_ref := 0; fileName := EmptyString; rowCount := 0;
                         columnCount := 0; importedAt := EmptyString |} |}, w')
  end.

(** A number column [age] with the rules [min: 0] and [max: 100]. *)
Definition bounded_age : Column :=
  {| key := "age"; label := "Age"; type := NUMBER;
     validation := Some [Statements.min_rule 0; Statements.max_rule 100] |}.

(** A number column [age] without rules. *)
Definition plain_age : Column :=
  {| key := "age"; label := "Age"; type := NUMBER; validation := None |}.

(** Two edits: Bob's age becomes the string x, Alice's name null. *)
Definition two_edits : list CellEdit :=
  [ {| rowId := Statements.second_row_id; columnKey := "age"; value := CString "x" |};
    {| rowId := Statements.first_row_id; columnKey := "name"; value := CNull |} ].

(** ** The page buttons *)

(** The page indices of a list of page buttons, in order. *)
Definition page_indices (l : list PageItem) : list Z :=
  flat_map (fun p => match p with Page i => [i] | Ellipsis => [] end) l.

(** Two page indices that follow each other in the list are consecutive
    numbers, unless an ellipsis stands between them, and then at least one
    page is left out; an ellipsis stands between two page indices. *)
Fixpoint gaps_marked (prev : option Z) (pending : bool) (l : list PageItem) : bool :=
  match l with
  | [] => negb pending
  | Ellipsis :: r =>
      negb pending
      && match prev with Some _ => true | None => false end
      && gaps_marked prev true r
  | Page b :: r =>
      match prev with
      | None => true
      | Some a => if pending then (a + 1 <? b)%Z else (b =? a + 1)%Z
      end && gaps_marked (Some b) false r
  end.

End Notions.
(* ===================================================================== *)
(** * Properties of the rule validator *)
(* ===================================================================== *)

Module ValidateFacts.

Import Types Validate Statements.

Section WithRuntime.
Context {runtime : Runtime}.

Lemma validateType_cases (v : CellValue) (t : CellType) (k : string) :
  validateType v t k = [] \/
  validateType v t k = type_error (type_message t) k.
Proof.
  destruct v, t; simpl; auto;
    match goal with |- context [if ?b then _ else _] => destruct b; auto end.
Qed.

Lemma validateRules_prefix (v : CellValue) (rules : list ValidationRule)
  (k : string) (acc errs : list ValidationError) :
  validateRules v rules k acc = Ok errs -> exists more, errs = (acc ++ more)%list.
Proof.
  revert acc. induction rules as [|r rules IH]; simpl; intros acc Hr.
  - inversion Hr. exists []. now rewrite app_nil_r.
  - destruct (validateRule v r k) as [[e|]|x]; simpl in Hr; try discriminate.
    + apply IH in Hr. destruct Hr as [more ->].
      exists (e :: more). now rewrite <- app_assoc.
    + now apply IH in Hr.
Qed.

Lemma validateCell_starts_with_type_errors (v : CellValue) (col : Column)
  (errs : list ValidationError) :
  validateCell v col = Ok errs ->
  exists more, errs = (validateType v (type col) (key col) ++ more)%list.
Proof.
  unfold validateCell. destruct (validation col) as [rules|].
  - apply validateRules_prefix.
  - intros Hr. inversion Hr. exists []. now rewrite app_nil_r.
Qed.

Lemma required_rule_error_kind (v : CellValue) (r : ValidationRule) (k : string)
  (e : ValidationError) :
  rule_type r = REQUIRED -> validateRule v r k = Ok (Some e) -> rule e = REQUIRED.
Proof.
  unfold validateRule. intros ->.
  destruct v as [|[|c s]| |]; intros Hr; inversion Hr; reflexivity.
Qed.

(** C10.  A value other than null that fails the type check of a number,
    boolean or date column gets exactly one type error, it is the first
    error [validateCell] returns, and its rule kind is [REQUIRED], the kind
    a failed required rule carries too; only its message, which is never
    the default message of a required rule, tells the two apart. *)
Theorem type_failure_carries_required_kind (v : CellValue) (col : Column) :
  v <> CNull ->
  type col <> STRING ->
  validateType v (type col) (key col) <> [] ->
  validateType v (type col) (key col)
    = [ {| rule := REQUIRED; message := type_message (type col); column := key col |} ]
  /\ type_message (type col) <> ValidationMessages.REQUIRED
  /\ (forall errs, validateCell v col = Ok errs ->
        exists more,
          errs = {| rule := REQUIRED; message := type_message (type col);
                    column := key col |} :: more)
  /\ (validation col = None ->
        validateCell v col
          = Ok [ {| rule := REQUIRED; message := type_message (type col);
                    column := key col |} ])
  /\ (forall r e, rule_type r = REQUIRED ->
        validateRule v r (key col) = Ok (Some e) -> rule e = REQUIRED).
Proof.
  intros Hnull Hty Hfail.
  assert (Hone : validateType v (type col) (key col)
                 = type_error (type_message (type col)) (key col)).
  { destruct (validateType_cases v (type col) (key col)) as [E|E]; congruence. }
  repeat split.
  - exact Hone.
  - destruct (type col); simpl; try congruence; discriminate.
  - intros errs Hc. apply validateCell_starts_with_type_errors in Hc.
    destruct Hc as [more ->]. rewrite Hone. now exists more.
  - intros Hv. unfold validateCell. now rewrite Hv, Hone.
  - intros r e. apply required_rule_error_kind.
Qed.

(** C5, as amended.  A value other than null passes the type check of a
    number column exactly when it is a number, or a string that is not
    blank and that [Number] does not turn into NaN; the number it parses
    to may be infinite. *)
Theorem number_conformance_iff (v : CellValue) (k : string) :
  v <> CNull ->
  (validateType v NUMBER k = [] <->
   (exists n, v = CNumber n) \/
   (exists s, v = CString s /\ trim s <> "" /\ isNaN (Number s) = false)).
Proof.
  intros Hnull. destruct v as [|s|n|b]; simpl.
  - congruence.
  - destruct (isNaN (Number s)) eqn:En; destruct (String.eqb_spec (trim s) ""); simpl;
      split; intros Hx; try discriminate; try reflexivity;
      try (right; exists s; now repeat split);
      destruct Hx as [[x Hx']|[s' [Hs [Ht Hx']]]]; try discriminate;
      inversion Hs; subst; congruence.
  - split; auto. intros _. left. now exists n.
  - split; try discriminate. intros [[n Hn]|[s [Hs _]]]; discriminate.
Qed.

End WithRuntime.

(** C5, witness: the string ["12.5"] in a number column. *)
Lemma number_conformance_iff_witness :
  CString "12.5" <> CNull /\
  (validateType (runtime := Reference.runtime) (CString "12.5") NUMBER "age" = [] <->
   (exists n, CString "12.5" = CNumber n) \/
   (exists s, CString "12.5" = CString s /\ trim s <> "" /\ isNaN (Number s) = false)).
Proof.
  split; [discriminate | apply number_conformance_iff; discriminate].
Defined.

(** C5, counterexample: the string ["Infinity"] parses to an infinite
    number and passes the type check of a number column. *)
Lemma number_conformance_accepts_Infinity :
  ~ (validateType (runtime := Reference.runtime) (CString "Infinity") NUMBER "age" = []
     <-> spec_number_conformance (CString "Infinity") = true).
Proof. intros [H _]. specialize (H eq_refl). discriminate H. Qed.

(** C10, witness: the string ["abc"] in a number column without rules. *)
Lemma type_failure_carries_required_kind_witness :
  let col := {| key := "age"; label := "Age"; type := NUMBER; validation := None |} in
  validateCell (runtime := Reference.runtime) (CString "abc") col
  = Ok [ {| rule := REQUIRED; message := "Expected a number value"; column := "age" |} ].
Proof.
  intros col.
  apply (@type_failure_carries_required_kind Reference.runtime (CString "abc") col);
    [discriminate | discriminate | discriminate | reflexivity].
Defined.

End ValidateFacts.

(* ===================================================================== *)
(** * Properties of objects *)
(* ===================================================================== *)

Module ObjectFacts.

Import JSObject.

Local Open Scope list_scope.

Section Objects.
Variable V : Type.
Implicit Types (o : JSObject.t V) (k : string) (v : V).

Lemma has_In k o : has k o = true <-> In k (keys o).
Proof.
  unfold has. rewrite existsb_exists. split.
  - intros [x [Hin Hx]]. apply String.eqb_eq in Hx. now subst.
  - intros Hin. exists k. split; [exact Hin | apply String.eqb_refl].
Qed.

Lemma keys_replace k v o : keys (replace k v o) = keys o.
Proof.
  induction o as [|[k' v'] o IH]; simpl; [reflexivity|].
  destruct (String.eqb_spec k k') as [->|Hne]; simpl; [reflexivity|].
  now rewrite IH.
Qed.

Lemma insert_index_splits (n : N) k v o :
  exists pre post, o = pre ++ post /\ insert_index n k v o = pre ++ (k, v) :: post.
Proof.
  induction o as [|[k' v'] o IH]; simpl.
  - now exists [], [].
  - destruct (array_index k') as [n'|].
    + destruct (n' <? n)%N.
      * destruct IH as [pre [post [Ho Hi]]].
        exists ((k', v') :: pre), post. simpl. now rewrite <- Ho, Hi.
      * now exists [], ((k', v') :: o).
    + now exists [], ((k', v') :: o).
Qed.

(** A new property is added somewhere, the others stay as they are. *)
Lemma set_new_splits k v o :
  has k o = false ->
  exists pre post, o = pre ++ post /\ set k v o = pre ++ (k, v) :: post.
Proof.
  intros Hhas. unfold set. rewrite Hhas.
  destruct (array_index k) as [n|]; [apply insert_index_splits|].
  exists o, []. now rewrite app_nil_r.
Qed.

Lemma keys_set_old k v o : has k o = true -> keys (set k v o) = keys o.
Proof. intros Hhas. unfold set. rewrite Hhas. apply keys_replace. Qed.

Lemma keys_set_new k v o :
  has k o = false -> Permutation (keys (set k v o)) (k :: keys o).
Proof.
  intros Hhas. destruct (set_new_splits k v o Hhas) as [pre [post [-> ->]]].
  unfold keys. rewrite !map_app. simpl. symmetry. apply Permutation_middle.
Qed.

Lemma In_keys_set k k' v o :
  In k (keys (set k' v o)) <-> k = k' \/ In k (keys o).
Proof.
  destruct (has k' o) eqn:Hhas.
  - rewrite (keys_set_old k' v o Hhas). apply has_In in Hhas.
    split; [tauto | intros [->|H]; assumption].
  - pose proof (keys_set_new k' v o Hhas) as Hp. split.
    + intros Hin. apply (Permutation_in k Hp) in Hin. destruct Hin; [left|right]; auto.
    + intros Hin. apply (Permutation_in k (Permutation_sym Hp)).
      destruct Hin; [left|right]; auto.
Qed.

Lemma NoDup_keys_set k v o : NoDup (keys o) -> NoDup (keys (set k v o)).
Proof.
  intros Hnd. destruct (has k o) eqn:Hhas.
  - now rewrite (keys_set_old k v o Hhas).
  - apply (Permutation_NoDup (Permutation_sym (keys_set_new k v o Hhas))).
    constructor; [|exact Hnd]. intros Hin. apply has_In in Hin. congruence.
Qed.

Lemma get_app_not_in k (pre post : JSObject.t V) :
  ~ In k (keys pre) -> get k (pre ++ post) = get k post.
Proof.
  induction pre as [|[k' v'] pre IH]; simpl; [reflexivity|].
  intros Hn. destruct (String.eqb_spec k k') as [->|Hne].
  - exfalso. apply Hn. now left.
  - apply IH. tauto.
Qed.

Lemma get_app_other k k' v (pre post : JSObject.t V) :
  k <> k' -> get k (pre ++ (k', v) :: post) = get k (pre ++ post).
Proof.
  intros Hne. induction pre as [|[x vx] pre IH]; simpl.
  - destruct (String.eqb_spec k k'); [congruence | reflexivity].
  - destruct (String.eqb k x); [reflexivity | exact IH].
Qed.

Lemma get_replace_same k v o : has k o = true -> get k (replace k v o) = Some v.
Proof.
  intros Hhas. apply has_In in Hhas.
  induction o as [|[k' v'] o IH]; simpl in *; [contradiction|].
  destruct (String.eqb_spec k k') as [->|Hne]; simpl.
  - now rewrite String.eqb_refl.
  - destruct (String.eqb_spec k k'); [congruence|].
    apply IH. destruct Hhas; [congruence | assumption].
Qed.

Lemma get_replace_other k k' v o : k <> k' -> get k (replace k' v o) = get k o.
Proof.
  intros Hne. induction o as [|[x vx] o IH]; simpl; [reflexivity|].
  destruct (String.eqb_spec k' x) as [->|Hx]; simpl.
  - destruct (String.eqb_spec k x); [congruence | reflexivity].
  - destruct (String.eqb k x); [reflexivity | exact IH].
Qed.

(** Reading the property just written gives the value written. *)
Lemma get_set_same k v o : get k (set k v o) = Some v.
Proof.
  destruct (has k o) eqn:Hhas.
  - unfold set. rewrite Hhas. now apply get_replace_same.
  - destruct (set_new_splits k v o Hhas) as [pre [post [Ho ->]]].
    assert (Hn : ~ In k (keys pre)).
    { intros Hin. assert (Hk : In k (keys o)).
      { rewrite Ho. unfold keys. rewrite map_app. apply in_or_app. now left. }
      apply has_In in Hk. congruence. }
    rewrite (get_app_not_in k pre _ Hn). simpl. now rewrite String.eqb_refl.
Qed.

(** Writing a property leaves the others as they are. *)
Lemma get_set_other k k' v o : k <> k' -> get k (set k' v o) = get k o.
Proof.
  intros Hne. destruct (has k' o) eqn:Hhas.
  - unfold set. rewrite Hhas. now apply get_replace_other.
  - destruct (set_new_splits k' v o Hhas) as [pre [post [Ho ->]]].
    rewrite Ho. now apply get_app_other.
Qed.

Lemma get_In_keys k o : In k (keys o) -> exists v, get k o = Some v.
Proof.
  induction o as [|[k' v'] o IH]; simpl; [contradiction|].
  destruct (String.eqb_spec k k') as [->|Hne]; [now exists v'|].
  intros [E|Hin]; [congruence | now apply IH].
Qed.

End Objects.

End ObjectFacts.

(* ===================================================================== *)
(** * Properties of the parser *)
(* ===================================================================== *)

Module ParseFacts.

Import Types Parse Statements.

Local Open Scope list_scope.

(** Induction on a JSON value, with the hypothesis available for the
    members of an array and for the property values of an object. *)
Lemma JValue_nested_ind (P : JValue -> Prop) :
  P JNull ->
  (forall b, P (JBool b)) ->
  (forall n, P (JNum n)) ->
  (forall s, P (JStr s)) ->
  (forall items, Forall P items -> P (JArr items)) ->
  (forall props, Forall (fun kv => P (snd kv)) props -> P (JObj props)) ->
  forall v, P v.
Proof.
  intros Hnull Hbool Hnum Hstr Harr Hobj.
  fix IH 1. intros [| b | n | s | items | props].
  - exact Hnull.
  - apply Hbool.
  - apply Hnum.
  - apply Hstr.
  - apply Harr.
    revert items. fix IHl 1. intros [|x l].
    + constructor.
    + constructor; [apply IH | apply IHl].
  - apply Hobj.
    revert props. fix IHl 1. intros [|[k x] l].
    + constructor.
    + constructor; [apply IH | apply IHl].
Qed.

Lemma validateNesting_nil (i d c : nat) : validateNesting [] i d c = Ok tt.
Proof. reflexivity. Qed.

Lemma validateNesting_cons (k : string) (v : JValue) (rest : JSObject.t JValue)
  (i d c : nat) :
  validateNesting ((k, v) :: rest) i d c
  = rbind
      (match v with
       | JObj o =>
           if d <=? c then Throw (depth_error i k d)
           else validateNesting o i d (S c)
       | _ => Ok tt
       end)
      (fun _ =>
         if is_array v then Throw (array_error i k)
         else validateNesting rest i d c).
Proof. destruct v; reflexivity. Qed.

Lemma validateNesting_app (pre es : JSObject.t JValue) (i d c : nat) :
  validateNesting (pre ++ es) i d c
  = rbind (validateNesting pre i d c) (fun _ => validateNesting es i d c).
Proof.
  induction pre as [|[k v] pre IH]; [reflexivity|].
  rewrite <- app_comm_cons, !validateNesting_cons.
  destruct v as [| | | | items | o]; simpl; try exact IH.
  - reflexivity.
  - destruct (d <=? c); simpl; [reflexivity|].
    destruct (validateNesting o i d (S c)) as [[]|e]; simpl; [exact IH | reflexivity].
Qed.

Lemma check_records_app (good rest : list JValue) (i d : nat) :
  check_records (good ++ rest) i d
  = rbind (check_records good i d)
      (fun _ => check_records rest (i + length good) d).
Proof.
  revert i. induction good as [|r good IH]; intros i; simpl.
  - now rewrite Nat.add_0_r.
  - destruct r; try reflexivity.
    destruct (validateNesting props i d 0) as [[]|e]; simpl; [|reflexivity].
    rewrite IH. now rewrite Nat.add_succ_r.
Qed.

(** What [validateNesting] throws is one of its two failures, for the
    record it was called for. *)
Lemma validateNesting_value_throws (v : JValue) (i d : nat) :
  forall c e,
    validateNesting_value v i d c = Throw e ->
    exists k, e = depth_error i k d \/ e = array_error i k.
Proof.
  induction v as [| | | | items _ | props Hall] using JValue_nested_ind;
    try (intros; discriminate).
  induction Hall as [|kv rest Hv Hrest IH]; intros c e He; [discriminate|].
  destruct kv as [k v].
  change (validateNesting ((k, v) :: rest) i d c = Throw e) in He.
  rewrite validateNesting_cons in He. simpl in Hv.
  destruct v as [| | | | items | o']; simpl in He;
    try (apply (IH c); exact He).
  - inversion He. exists k. now right.
  - destruct (d <=? c).
    + inversion He. exists k. now left.
    + destruct (validateNesting o' i d (S c)) as [[]|e'] eqn:E; simpl in He.
      * apply (IH c); exact He.
      * inversion He; subst. apply (Hv (S c)). exact E.
Qed.

Lemma validateNesting_throws (o : JSObject.t JValue) (i d c : nat) (e : Exception) :
  validateNesting o i d c = Throw e ->
  exists k, e = depth_error i k d \/ e = array_error i k.
Proof. apply validateNesting_value_throws. Qed.

Lemma check_records_throws (records : list JValue) (i d : nat) (e : Exception) :
  check_records records i d = Throw e ->
  exists msg, e = Thrown (ParseError msg).
Proof.
  revert i. induction records as [|r records IH]; intros i; simpl; [discriminate|].
  destruct r; try (intros He; inversion He; eexists; reflexivity).
  destruct (validateNesting props i d 0) as [[]|e'] eqn:E; simpl.
  - apply IH.
  - intros He. inversion He; subst.
    apply validateNesting_throws in E. destruct E as [k [->| ->]]; eexists; reflexivity.
Qed.

Lemma Forall2_map_left {A B C} (f : A -> B) (P : B -> C -> Prop)
  (l : list A) (rs : list C) :
  Forall2 P (map f l) rs -> Forall2 (fun a c => P (f a) c) l rs.
Proof.
  revert rs. induction l as [|a l IH]; intros rs H; inversion H; subst;
    constructor; auto.
Qed.

Section WithRuntime.
Context {runtime : Runtime}.

(** [build_rows] returns: one row per record, at fresh addresses. *)
Lemma build_rows_returns (recs : list (JSObject.t JValue)) (i : nat)
  (cols : list Column) (w : World) :
  exists rs w',
    build_rows recs i cols w = (Ok rs, w')
    /\ Forall2 (fun record row =>
                  cells row = buildCells record cols /\ errors row = [])
               recs rs
    /\ next_ref w' = next_ref w + length recs
    /\ Forall (fun row => next_ref w <= row_ref row < next_ref w') rs.
Proof.
  revert i w. induction recs as [|record recs IH]; intros i w.
  - exists [], w. simpl. repeat split; auto.
  - simpl. unfold bind, generateRowId, bind, next_rowIdCounter, read_clock, alloc, ret.
    simpl.
    match goal with |- context [build_rows recs (S i) cols ?w1] =>
      destruct (IH (S i) w1) as [rs [w' [E [Hc [Hn Hr]]]]]; rewrite E end.
    simpl in Hn.
    eexists; eexists; repeat split.
    + constructor; [simpl; auto | exact Hc].
    + rewrite Hn. simpl. lia.
    + constructor; [simpl; lia|].
      eapply Forall_impl; [|exact Hr]. simpl. intros; lia.
Qed.

(** What a successful [parse] returns, and from what. *)
Lemma parse_returns (input : string) (options : ParseOptions) (w w' : World)
  (ds : DataSet) :
  parse input options w = (Ok ds, w') ->
  exists records,
    JSON.parse input = Some (JArr records)
    /\ check_records records 0 (depth options) = Ok tt
    /\ map key (items (columns ds)) = JSObject.keys (hd [] (map as_record records))
    /\ Forall (fun col => validation col = None) (items (columns ds))
    /\ Forall2 (fun record row =>
                  cells row = buildCells (as_record record) (items (columns ds))
                  /\ errors row = [])
               records (items (rows ds))
    /\ next_ref w <= next_ref w'
    /\ next_ref w <= arr_ref (columns ds) < next_ref w'
    /\ next_ref w <= arr_ref (rows ds) < next_ref w'
    /\ next_ref w <= metadata_ref (metadata ds) < next_ref w'
    /\ Forall (fun row => next_ref w <= row_ref row < next_ref w') (items (rows ds)).
Proof.
  unfold parse. fold (limit options) (depth options).
  destruct (limit options <? N.of_nat (String.length input))%N; [discriminate|].
  destruct (utf16_length (trim input) =? 0); [discriminate|].
  destruct (JSON.parse input) as [[| | | | records |]|]; try discriminate.
  destruct (length records =? 0); [discriminate|].
  unfold bind, of_result.
  destruct (check_records records 0 (depth options)) as [[]|e] eqn:Ec; [|discriminate].
  destruct (length (JSObject.keys (hd [] (map as_record records))) =? 0);
    [discriminate|].
  unfold alloc at 1 2. simpl.
  match goal with |- context [build_rows ?r 0 ?c ?w1] =>
    destruct (build_rows_returns r 0 c w1) as [rs [w2 [E [Hc [Hn Hr]]]]];
    rewrite E end.
  simpl in Hn. unfold read_clock, alloc, ret. simpl.
  intros Hp. inversion Hp; subst; clear Hp. simpl.
  exists records. repeat split; try lia; try assumption.
  - rewrite map_map. simpl. now rewrite map_id.
  - apply Forall_forall. intros col Hin. apply in_map_iff in Hin.
    destruct Hin as [k [<- _]]. reflexivity.
  - apply Forall2_map_left in Hc. exact Hc.
  - eapply Forall_impl; [|exact Hr]. simpl. intros; lia.
Qed.

(** What [parse] throws is an error of the package, with one of two codes. *)
Lemma parse_throws (input : string) (options : ParseOptions) (w w' : World)
  (e : Exception) :
  parse input options w = (Throw e, w') ->
  exists d, e = Thrown d /\ (code d = "PARSE_ERROR" \/ code d = "FILE_SIZE_ERROR").
Proof.
  unfold parse. fold (limit options) (depth options).
  destruct (limit options <? N.of_nat (String.length input))%N.
  { intros Hp. inversion Hp. eexists; split; [reflexivity | now right]. }
  destruct (utf16_length (trim input) =? 0).
  { intros Hp. inversion Hp. eexists; split; [reflexivity | now left]. }
  destruct (JSON.parse input) as [[| | | | records |]|];
    try (intros Hp; inversion Hp; eexists; split; [reflexivity | now left]).
  destruct (length records =? 0).
  { intros Hp. inversion Hp. eexists; split; [reflexivity | now left]. }
  unfold bind, of_result.
  destruct (check_records records 0 (depth options)) as [[]|e'] eqn:E.
  2:{ intros Hp. inversion Hp; subst. apply check_records_throws in E.
      destruct E as [msg ->]. eexists; split; [reflexivity | now left]. }
  destruct (length (JSObject.keys (hd [] (map as_record records))) =? 0).
  { intros Hp. inversion Hp. eexists; split; [reflexivity | now left]. }
  unfold alloc at 1 2. simpl.
  match goal with |- context [build_rows ?r 0 ?c ?w1] =>
    destruct (build_rows_returns r 0 c w1) as [rs [w2 [Eb _]]]; rewrite Eb end.
  discriminate.
Qed.

Lemma parse_records_failure (input : string) (options : ParseOptions) (w : World)
  (records : list JValue) (e : Exception) :
  (byteSize input <= limit options)%N ->
  utf16_length (trim input) <> 0 ->
  JSON.parse input = Some (JArr records) ->
  check_records records 0 (depth options) = Throw e ->
  fst (parse input options w) = Throw e.
Proof.
  intros Hsize Hblank Hjson Hcheck. unfold parse.
  fold (limit options) (depth options) (byteSize input).
  apply N.ltb_ge in Hsize. rewrite Hsize.
  apply Nat.eqb_neq in Hblank. rewrite Hblank, Hjson.
  destruct records as [|r records]; [discriminate|].
  simpl length. simpl Nat.eqb. unfold bind, of_result. rewrite Hcheck. reflexivity.
Qed.

Lemma first_record_keys (records : list JValue) :
  hd [] (map as_record records) = as_record (hd JNull records).
Proof. destruct records; reflexivity. Qed.

(** C4, as amended.  [parse] makes checks 1 to 5 in the order of the
    specification and check 9 last.  Checks 6 to 8 are one walk: the
    records in index order and, in a record, its entries in key order, a
    nested object being walked (one level deeper) before the entries that
    follow it.  The first violation met in this walk is the failure raised,
    whatever comes after it: a record that is not an object, an array
    value (named by record index and key), or an object below the allowed
    depth. *)
Theorem parse_check_order (input : string) (options : ParseOptions) (w : World) :
  let r := fst (parse input options w) in
  ((limit options < byteSize input)%N ->
     r = Throw (Thrown (FileSizeError (byteSize input) (limit options))))
  /\ ((byteSize input <= limit options)%N ->
      (utf16_length (trim input) = 0 ->
         r = Throw (Thrown (ParseError "File is empty")))
      /\ (utf16_length (trim input) <> 0 ->
          (JSON.parse input = None ->
             r = Throw (Thrown (ParseError "Invalid JSON: file could not be parsed")))
          /\ (forall parsed, JSON.parse input = Some parsed ->
                (is_array parsed = false ->
                   r = Throw (Thrown (ParseError
                         "Unsupported structure: expected a JSON array of objects")))
                /\ (parsed = JArr [] ->
                      r = Throw (Thrown (ParseError
                            "Empty dataset: the JSON array contains no records")))
                /\ (forall good bad rest,
                      parsed = JArr (good ++ bad :: rest) ->
                      check_records good 0 (depth options) = Ok tt ->
                      (is_plain_object bad = false ->
                         r = Throw (invalid_record_error (length good)))
                      /\ (forall pre k v post,
                            bad = JObj (pre ++ (k, v) :: post) ->
                            validateNesting pre (length good) (depth options) 0 = Ok tt ->
                            (is_array v = true ->
                               r = Throw (array_error (length good) k))
                            /\ (is_plain_object v = true -> depth options = 0 ->
                                  r = Throw (depth_error (length good) k 0))
                            /\ (forall o e, v = JObj o -> depth options <> 0 ->
                                  validateNesting o (length good) (depth options) 1
                                    = Throw e ->
                                  r = Throw e)))
                /\ (forall records,
                      parsed = JArr records -> records <> [] ->
                      check_records records 0 (depth options) = Ok tt ->
                      JSObject.keys (as_record (hd JNull records)) = [] ->
                      r = Throw (Thrown (ParseError
                            "No columns found: the first record has no keys")))))).
Proof.
  intros r. subst r. split.
  { intros Hsize. unfold parse. fold (limit options) (byteSize input).
    apply N.ltb_lt in Hsize. now rewrite Hsize. }
  intros Hsize. pose proof Hsize as Hle. apply N.ltb_ge in Hsize. split.
  { intros Hblank. unfold parse. fold (limit options) (byteSize input).
    now rewrite Hsize, Hblank. }
  intros Hblank. pose proof Hblank as Hnb. apply Nat.eqb_neq in Hblank. split.
  { intros Hjson. unfold parse. fold (limit options) (byteSize input).
    now rewrite Hsize, Hblank, Hjson. }
  intros parsed Hjson. split; [|split; [|split]].
  - intros Harr. unfold parse. fold (limit options) (byteSize input).
    rewrite Hsize, Hblank, Hjson. destruct parsed; try reflexivity; discriminate.
  - intros ->. unfold parse. fold (limit options) (byteSize input).
    now rewrite Hsize, Hblank, Hjson.
  - intros good bad rest -> Hgood.
    assert (Hfail : forall e,
      check_records (bad :: rest) (length good) (depth options) = Throw e ->
      fst (parse input options w) = Throw e).
    { intros e He. apply parse_records_failure with (records := good ++ bad :: rest);
        auto.
      rewrite check_records_app, Hgood. simpl rbind. exact He. }
    split.
    + intros Hbad. apply Hfail. destruct bad; try reflexivity; discriminate.
    + intros pre k v post -> Hpre.
      assert (Hentry : forall e,
        validateNesting ((k, v) :: post) (length good) (depth options) 0 = Throw e ->
        fst (parse input options w) = Throw e).
      { intros e He. apply Hfail. simpl check_records.
        rewrite validateNesting_app, Hpre. simpl rbind. now rewrite He. }
      split; [|split].
      * intros Harr. apply Hentry. rewrite validateNesting_cons.
        destruct v; try discriminate. reflexivity.
      * intros Hobj Hdepth. apply Hentry. rewrite validateNesting_cons.
        destruct v; try discriminate. now rewrite Hdepth.
      * intros o e -> Hdepth Ho. apply Hentry. rewrite validateNesting_cons.
        destruct (depth options <=? 0) eqn:Ed.
        { apply Nat.leb_le in Ed. lia. }
        now rewrite Ho.
  - intros records -> Hne Hcheck Hkeys. unfold parse.
    fold (limit options) (depth options) (byteSize input).
    rewrite Hsize, Hblank, Hjson.
    destruct records as [|r0 records]; [congruence|].
    simpl length. simpl Nat.eqb. unfold bind, of_result. rewrite Hcheck.
    rewrite first_record_keys, Hkeys. reflexivity.
Qed.

(** C7, as amended.  Every failure of [parse] is an error of the package
    with a kind code, and that code is PARSE_ERROR, or FILE_SIZE_ERROR for
    the size limit.  The empty input, the malformed input, the input that
    is not an array and the empty array all fail with the one code
    PARSE_ERROR; their messages are what tells them apart. *)
Theorem parse_failures_share_one_code :
  (forall input options w e,
     fst (parse input options w) = Throw e ->
     exists d, e = Thrown d /\ (code d = "PARSE_ERROR" \/ code d = "FILE_SIZE_ERROR"))
  /\ (forall w,
        map (fun input => fst (parse input default_parse_options w))
            [""; "{not json"; "{}"; "[]"]
        = [ Throw (Thrown (ParseError "File is empty"));
            Throw (Thrown (ParseError "Invalid JSON: file could not be parsed"));
            Throw (Thrown (ParseError
              "Unsupported structure: expected a JSON array of objects"));
            Throw (Thrown (ParseError
              "Empty dataset: the JSON array contains no records")) ])
  /\ (forall w,
        map (fun input => failure_code (fst (parse input default_parse_options w)))
            [""; "{not json"; "{}"; "[]"]
        = [Some "PARSE_ERROR"; Some "PARSE_ERROR"; Some "PARSE_ERROR"; Some "PARSE_ERROR"])
  /\ (forall w,
        NoDup (map (fun input =>
                      failure_message (fst (parse input default_parse_options w)))
                   [""; "{not json"; "{}"; "[]"])).
Proof.
  split; [|split; [|split]].
  - intros input options w e He.
    destruct (parse input options w) as [res w'] eqn:E. simpl in He. subst res.
    eapply parse_throws. exact E.
  - intros w. reflexivity.
  - intros w. reflexivity.
  - intros w.
    change (NoDup [ Some "File is empty";
                    Some "Invalid JSON: file could not be parsed";
                    Some "Unsupported structure: expected a JSON array of objects";
                    Some "Empty dataset: the JSON array contains no records" ]).
    repeat constructor; simpl; intuition discriminate.
Qed.

End WithRuntime.

(** C4, witness: the array under the first key of the only record is
    reported, although an object nested too deep follows it. *)
Lemma parse_check_order_witness :
  fst (parse (runtime := Reference.runtime) array_then_deep default_parse_options world0)
  = Throw (array_error 0 "x").
Proof.
  pose proof (@parse_check_order Reference.runtime array_then_deep
                default_parse_options world0) as H.
  simpl in H. destruct H as [_ H].
  assert (Hsize : (byteSize array_then_deep <= limit default_parse_options)%N)
    by (vm_compute; discriminate).
  destruct (H Hsize) as [_ H1].
  assert (Hblank : utf16_length (trim array_then_deep) <> 0)
    by (vm_compute; discriminate).
  destruct (H1 Hblank) as [_ H2].
  destruct (H2 _ eq_refl) as [_ [_ [H3 _]]].
  destruct (H3 [] (JObj [("x", JArr [JNum (JFin 1)]);
                         ("a", JObj [("b", JObj [("c", JNum (JFin 1))])])]) []
              eq_refl eq_refl) as [_ H4].
  destruct (H4 [] "x" (JArr [JNum (JFin 1)])
              [("a", JObj [("b", JObj [("c", JNum (JFin 1))])])]
              eq_refl eq_refl) as [H5 _].
  exact (H5 eq_refl).
Defined.

(** C4, counterexample: an object nested too deep under the first key and
    an array under the second; the failure raised is the one for the
    depth, and names no array. *)
Lemma deep_object_reported_before_array :
  JSON.parse deep_then_array
  = Some (JArr [JObj [("a", JObj [("b", JObj [("c", JNum (JFin 1))])]);
                      ("x", JArr [JNum (JFin 1)])]])
  /\ fst (parse (runtime := Reference.runtime) deep_then_array default_parse_options world0)
     = Throw (depth_error 0 "b" 1)
  /\ forall i k,
       fst (parse (runtime := Reference.runtime) deep_then_array
              default_parse_options world0)
       <> Throw (array_error i k).
Proof.
  split; [reflexivity | split; [reflexivity|]].
  intros i k H. vm_compute in H. inversion H.
Qed.

(** C7, witness: the failure of the empty input has one of the two codes. *)
Lemma parse_failures_share_one_code_witness :
  exists d, Thrown (ParseError "File is empty") = Thrown d
            /\ (code d = "PARSE_ERROR" \/ code d = "FILE_SIZE_ERROR").
Proof.
  exact (proj1 (@parse_failures_share_one_code Reference.runtime)
           "" default_parse_options world0 _ eq_refl).
Defined.

(** C7, counterexample: the kind codes of the four failures are not
    distinct, they are one and the same. *)
Lemma parse_failure_kinds_coincide :
  ~ NoDup (map (fun input =>
                  failure_code (fst (parse (runtime := Reference.runtime) input
                                       default_parse_options world0)))
               [""; "{not json"; "{}"; "[]"]).
Proof.
  intros H. vm_compute in H. inversion H as [|x l Hin _]. apply Hin. now left.
Qed.

End ParseFacts.

(* ===================================================================== *)
(** * Properties of the type inference *)
(* ===================================================================== *)

Module InferFacts.

Import Types Parse Statements.

Local Open Scope list_scope.

Lemma CellType_eqb_spec (a b : CellType) : reflect (a = b) (CellType_eqb a b).
Proof. destruct a, b; constructor; congruence. Qed.




(** ** [count_of] and [set_count] *)




Lemma count_of_None (t : CellType) (c : TypeCounts) :
  count_of t c = None <-> ~ In t (map fst c).
Proof.
  induction c as [|[x nx] c IH]; simpl; [tauto|].
  destruct (CellType_eqb_spec t x) as [->|Hx].
  - split; [discriminate | intros H; exfalso; apply H; now left].
  - rewrite IH. split; [intros H [E|E]; congruence | tauto].
Qed.



(** ** The counting loop *)

Section WithRuntime.
Context {runtime : Runtime}.


End WithRuntime.

Lemma occurrences_cons (t x : CellType) (l : list CellType) :
  occurrences t (x :: l) = (if CellType_eqb t x then 1 else 0) + occurrences t l.
Proof. unfold occurrences. simpl. now destruct (CellType_eqb t x). Qed.

Lemma occurrences_zero (t : CellType) (l : list CellType) :
  occurrences t l = 0 <-> ~ In t l.
Proof.
  induction l as [|x l IH]; [simpl; tauto|].
  rewrite occurrences_cons. simpl.
  destruct (CellType_eqb_spec t x) as [->|Hne].
  - split; [discriminate | intros H; exfalso; apply H; now left].
  - simpl. rewrite IH. split; [intros H [E|E]; congruence | tauto].
Qed.







(** ** The selection loop *)




Section Inference.
Context {runtime : Runtime}.


End Inference.



End InferFacts.

(* ===================================================================== *)
(** * Properties of the DataStore: notifications *)
(* ===================================================================== *)

Module NotifyFacts.

Import Types Store Statements.

Local Open Scope list_scope.

#[local] Arguments setState : simpl never.
#[local] Arguments in_world : simpl never.
#[local] Arguments edited_row : simpl never.
#[local] Arguments applyValidationRules : simpl never.

Lemma replaced_refl (m : Machine) : replaced [] m m.
Proof. unfold replaced. simpl. now rewrite app_nil_r. Qed.

Lemma last_cons_default {A} (x : A) (l : list A) (d d' : A) :
  last (x :: l) d = last (x :: l) d'.
Proof.
  revert x. induction l as [|y l IH]; intros x; [reflexivity|].
  change (last (y :: l) d = last (y :: l) d'). apply IH.
Qed.

Lemma last_append {A} (a b : list A) (d : A) :
  last (a ++ b) d = last b (last a d).
Proof.
  revert d. induction a as [|x a IH]; intros d; [reflexivity|].
  destruct a as [|y a].
  - destruct b as [|z b]; [reflexivity|]. simpl app. simpl (last [x] d).
    change (last (z :: b) d = last (z :: b) x). apply last_cons_default.
  - change (last ((y :: a) ++ b) d = last b (last (y :: a) d)). apply IH.
Qed.

Lemma replaced_trans (a b : list DataStoreState) (m m1 m2 : Machine) :
  replaced a m m1 -> replaced b m1 m2 -> replaced (a ++ b) m m2.
Proof.
  intros [Hs1 [Hn1 Hl1]] [Hs2 [Hn2 Hl2]]. repeat split.
  - congruence.
  - rewrite Hn2, Hn1, Hs1, flat_map_app. now rewrite app_assoc.
  - rewrite Hl2, Hl1. symmetry. apply last_append.
Qed.

Lemma setState_replaced (s : DataStoreState) (m : Machine) :
  exists m', setState s m = (Ok tt, m') /\ replaced [s] m m'
             /\ options (store m') = options (store m) /\ world m' = world m.
Proof.
  eexists. split; [reflexivity|]. unfold replaced. simpl.
  rewrite app_nil_r. auto.
Qed.

Lemma in_world_replaced {A} (c : M World A) (m : Machine) :
  exists r w, c (world m) = (r, w)
    /\ in_world c m = (r, {| store := store m; world := w; notified := notified m |}).
Proof.
  unfold in_world. destruct (c (world m)) as [r w]. now exists r, w.
Qed.

Lemma replaced_same_store (m m' : Machine) :
  store m' = store m -> notified m' = notified m -> replaced [] m m'.
Proof.
  intros Hs Hn. unfold replaced. rewrite Hs, Hn. simpl. now rewrite app_nil_r.
Qed.

Lemma count_round (subs : list Subscriber) (st : DataStoreState) (sub : Subscriber) :
  count_occ Nat.eq_dec (map who (round subs st)) sub = count_occ Nat.eq_dec subs sub.
Proof.
  unfold round. rewrite map_map. simpl. now rewrite map_id.
Qed.

Lemma new_notifications_replaced (states : list DataStoreState) (m m' : Machine) :
  replaced states m m' ->
  new_notifications m m' = flat_map (round (subscribers (store m))) states.
Proof.
  intros [_ [Hn _]]. unfold new_notifications. rewrite Hn.
  rewrite skipn_app, skipn_all, Nat.sub_diag. reflexivity.
Qed.

(** A registered subscriber is called once for each replacement. *)
Lemma calls_to_replaced (states : list DataStoreState) (m m' : Machine)
  (sub : Subscriber) :
  registered sub m -> replaced states m m' ->
  calls_to sub m m' = length states.
Proof.
  intros Hreg Hrep. unfold calls_to.
  rewrite (new_notifications_replaced Hrep). clear Hrep.
  induction states as [|s states IH]; [reflexivity|].
  cbn [flat_map length]. rewrite map_app, count_occ_app, count_round.
  unfold registered in Hreg. rewrite Hreg. simpl. f_equal. exact IH.
Qed.

Lemma seen_by_round (subs : list Subscriber) (st : DataStoreState) (sub : Subscriber) :
  count_occ Nat.eq_dec subs sub = 1 ->
  map seen (filter (fun n => Nat.eqb (who n) sub) (round subs st)) = [st].
Proof.
  induction subs as [|x subs IH]; simpl; [discriminate|].
  destruct (Nat.eq_dec x sub) as [->|Hne].
  - rewrite Nat.eqb_refl. intros Hc. simpl. f_equal.
    assert (Hz : count_occ Nat.eq_dec subs sub = 0) by lia.
    clear -Hz. induction subs as [|y subs IH]; [reflexivity|].
    simpl in *. destruct (Nat.eq_dec y sub); [discriminate|].
    apply Nat.eqb_neq in n. rewrite n. now apply IH.
  - intros Hc. apply Nat.eqb_neq in Hne. rewrite Hne. now apply IH.
Qed.

(** What a registered subscriber saw is the sequence of replacements. *)
Lemma seen_by_replaced (states : list DataStoreState) (m m' : Machine)
  (sub : Subscriber) :
  registered sub m -> replaced states m m' -> seen_by sub m m' = states.
Proof.
  intros Hreg Hrep. unfold seen_by.
  rewrite (new_notifications_replaced Hrep). clear Hrep.
  induction states as [|s states IH]; [reflexivity|].
  cbn [flat_map]. rewrite filter_app, map_app, IH.
  rewrite (@seen_by_round (subscribers (store m)) s sub Hreg). reflexivity.
Qed.

Section WithRuntime.
Context {runtime : Runtime}.

Lemma applyValidationRules_returns (cols : list Column) (m : Machine) :
  exists a m',
    applyValidationRules cols m = (Ok a, m')
    /\ store m' = store m /\ notified m' = notified m
    /\ next_ref (world m') = S (next_ref (world m))
    /\ arr_ref a = next_ref (world m)
    /\ items a
       = map (fun col =>
                match JSObject.get (key col) (validationRules (options (store m))) with
                | None => col
                | Some rules =>
                    {| key := key col; label := label col; type := type col;
                       validation :=
                         Some (match validation col with
                               | Some own => own | None => [] end ++ rules) |}
                end) cols.
Proof.
  eexists; eexists. split; [reflexivity|]. simpl. auto.
Qed.

Lemma in_world_quiet {A} (c : M World A) (m m' : Machine) (r : Result A) :
  in_world c m = (r, m') -> store m' = store m /\ notified m' = notified m.
Proof.
  unfold in_world. destruct (c (world m)) as [r' w]. intros H; inversion H; auto.
Qed.

Lemma edited_row_quiet (row : Row) (col : Column) (ck : string) (v : CellValue)
  (m m' : Machine) (r : Result Row) :
  edited_row row col ck v m = (r, m') ->
  store m' = store m /\ notified m' = notified m.
Proof.
  unfold edited_row, bind, of_result, ret.
  destruct (Validate.validateCell v col) as [errs|e].
  - destruct (in_world alloc m) as [[a|e] m1] eqn:E; intros H; inversion H; subst;
      eapply in_world_quiet; exact E.
  - intros H; inversion H; auto.
Qed.

Lemma apply_edits_quiet (edits : list CellEdit) (cols : list Column)
  (rowIndexMap : JSObject.t nat) (newRows : list Row) (m m' : Machine)
  (r : Result (list Row)) :
  apply_edits edits cols rowIndexMap newRows m = (r, m') ->
  store m' = store m /\ notified m' = notified m.
Proof.
  revert newRows m. induction edits as [|edit edits IH]; intros newRows m; simpl.
  - intros H; inversion H; auto.
  - destruct (JSObject.get (rowId edit) rowIndexMap) as [i|]; [|apply IH].
    destruct (find _ cols) as [col|]; [|apply IH].
    destruct (nth_error newRows i) as [row|]; [|apply IH].
    unfold bind.
    destruct (edited_row row col (columnKey edit) (value edit) m) as [[nr|e] m1] eqn:E.
    + intros H. apply IH in H. apply edited_row_quiet in E.
      destruct H, E. split; congruence.
    + intros H; inversion H; subst. eapply edited_row_quiet; exact E.
Qed.

(** A call of [updateCell] replaces the state at most once. *)
Lemma updateCell_replaced (rid ck : string) (v : CellValue) (m : Machine) :
  replaced [] m (after (updateCell rid ck v) m)
  \/ exists s, replaced [s] m (after (updateCell rid ck v) m).
Proof.
  unfold after, updateCell, bind, this, ret.
  destruct (state (store m)) as [| | data |]; simpl; try (left; apply replaced_refl).
  destruct (findIndex _ (items (rows data))) as [i|]; simpl;
    [|left; apply replaced_refl].
  destruct (find _ (items (columns data))) as [col|]; simpl;
    [|left; apply replaced_refl].
  destruct (nth_error (items (rows data)) i) as [row|]; simpl;
    [|left; apply replaced_refl].
  unfold edited_row, bind, of_result, in_world, alloc, ret.
  destruct (Validate.validateCell v col) as [errs|e].
  - one_round.
  - quiet.
Qed.

Lemma batchUpdateCells_replaced (edits : list CellEdit) (m : Machine) :
  replaced [] m (after (batchUpdateCells edits) m)
  \/ exists s, replaced [s] m (after (batchUpdateCells edits) m).
Proof.
  unfold after, batchUpdateCells, bind, this, ret.
  destruct (state (store m)) as [| | data |]; simpl; try (left; apply replaced_refl).
  match goal with |- context [apply_edits ?e ?c ?i ?r ?mm] =>
    destruct (apply_edits e c i r mm) as [[rs|x] m2] eqn:E end;
    apply apply_edits_quiet in E; destruct E as [Hs2 Hn2]; simpl in Hs2, Hn2.
  - one_round.
  - quiet.
Qed.

Lemma addValidationRules_replaced (ck : string) (rules : list ValidationRule)
  (m : Machine) :
  replaced [] m (after (addValidationRules ck rules) m)
  \/ exists s, replaced [s] m (after (addValidationRules ck rules) m).
Proof.
  unfold after, addValidationRules, bind, this, set_options, ret. simpl.
  destruct (state (store m)) as [| | data |] eqn:Est; simpl; try quiet.
  unfold applyValidationRules, bind, this, ret, in_world, alloc. simpl.
  match goal with |- context [Validate.validateAllRows ?r ?c ?w] =>
    destruct (Validate.validateAllRows r c w) as [[rs|x] w2] end.
  - one_round.
  - quiet.
Qed.

(** A call of [loadFromString] returns, and replaces the state twice: by
    the loading state, then by the outcome. *)
Lemma loadFromString_replaced (jsonString : string) (fileName : option string)
  (m : Machine) :
  exists outcome,
    loadFromString jsonString fileName m
    = (Ok tt, after (loadFromString jsonString fileName) m)
    /\ replaced [Loading; outcome] m (after (loadFromString jsonString fileName) m)
    /\ (status outcome = "loaded" \/ status outcome = "error")%string.
Proof.
  unfold after, loadFromString, setState, notify, try_catch, applyValidationRules,
    bind, this, ret, in_world, alloc.
  simpl.
  match goal with |- context [Parse.parse ?i ?o ?w] =>
    destruct (Parse.parse i o w) as [[ds|x] w2] end.
  - simpl.
    match goal with |- context [Validate.validateAllRows ?r ?c ?w] =>
      destruct (Validate.validateAllRows r c w) as [[rs|x] w4] end.
    + two_rounds.
    + destruct x as [d|nm msg]; two_rounds.
  - destruct x as [d|nm msg]; two_rounds.
Qed.

(** [loadFromFile], its handler left out: it is never reached, since
    [loadFromString] does not throw. *)
Lemma loadFromFile_run (file : File) (m : Machine) :
  loadFromFile file m
  = let m1 := after (setState Loading) m in
    if (maxFileSize (options (store m)) <? size file)%N
    then setState (Error (FileSizeError (size file) (maxFileSize (options (store m))))) m1
    else match text file with
         | Ok t => loadFromString t (Some (file_name file)) m1
         | Throw e =>
             setState (Error (new_DataValidatorError "FILE_READ_ERROR"
               (match e with
                | Thrown d => error_message d
                | ThrownError _ msg => msg
                end))) m1
         end.
Proof.
  unfold loadFromFile, after, bind at 1.
  destruct (setState_replaced Loading m) as [m1 [E1 [_ [Ho1 _]]]]. rewrite E1.
  unfold bind at 1, this at 1. cbv beta iota zeta. simpl snd. rewrite Ho1.
  destruct (maxFileSize (options (store m)) <? size file)%N; [reflexivity|].
  unfold try_catch, bind, of_result. destruct (text file) as [t|e]; [|reflexivity].
  destruct (loadFromString_replaced t (Some (file_name file)) m1) as [o [E2 _]].
  rewrite E2. reflexivity.
Qed.

(** A call of [loadFromFile] replaces the state by the loading state,
    then by an error when the file is too large or cannot be read, and
    otherwise goes on with the two replacements of [loadFromString]. *)
Lemma loadFromFile_replaced (file : File) (m : Machine) :
  let m' := after (loadFromFile file) m in
  if (maxFileSize (options (store m)) <? size file)%N
  then exists outcome, replaced [Loading; outcome] m m'
  else match text file with
       | Throw _ => exists outcome, replaced [Loading; outcome] m m'
       | Ok _ => exists outcome, replaced [Loading; Loading; outcome] m m'
       end.
Proof.
  intros m'. subst m'. unfold after. rewrite loadFromFile_run.
  destruct (setState_replaced Loading m) as [m1 [E1 [Hr1 [Ho1 _]]]].
  unfold after. rewrite E1. simpl snd.
  destruct (maxFileSize (options (store m)) <? size file)%N.
  - match goal with |- context [setState ?s m1] =>
      destruct (setState_replaced s m1) as [m2 [E2 [Hr2 _]]]; rewrite E2;
      exists s end.
    simpl. apply (@replaced_trans [Loading] _ m m1 m2); assumption.
  - destruct (text file) as [t|e].
    + destruct (loadFromString_replaced t (Some (file_name file)) m1)
        as [outcome [E2 [Hr2 _]]].
      rewrite E2. exists outcome. simpl.
      apply (@replaced_trans [Loading] _ m m1 _); assumption.
    + match goal with |- context [setState ?s m1] =>
        destruct (setState_replaced s m1) as [m2 [E2 [Hr2 _]]]; rewrite E2;
        exists s end.
      simpl. apply (@replaced_trans [Loading] _ m m1 m2); assumption.
Qed.

Lemma at_most_one_round_intro (sub : Subscriber) (m m' : Machine) :
  registered sub m ->
  replaced [] m m' \/ (exists s, replaced [s] m m') ->
  at_most_one_round sub m m'.
Proof.
  intros Hreg [Hq|[s Hr]].
  - left. split.
    + now rewrite (calls_to_replaced Hreg Hq).
    + now destruct Hq as [_ [_ Hl]].
  - right. split.
    + now rewrite (calls_to_replaced Hreg Hr).
    + rewrite (seen_by_replaced Hreg Hr). now destruct Hr as [_ [_ ->]].
Qed.

(** C2, as amended.  A registered subscriber is notified once for each
    replacement of the state.  [updateCell], [batchUpdateCells] and
    [addValidationRules] replace it once, or not at all and then notify
    nobody; [reset] replaces it once.  [loadFromString] replaces it twice,
    by the loading state and by the outcome, and notifies twice;
    [loadFromFile] notifies twice when the file is refused or unreadable
    and three times when it hands over to [loadFromString]. *)
Theorem notifications_per_call (m : Machine) (sub : Subscriber) :
  registered sub m ->
  (forall jsonString fileName,
     let m' := after (loadFromString jsonString fileName) m in
     calls_to sub m m' = 2
     /\ seen_by sub m m' = [Loading; state (store m')])
  /\ (forall file,
        calls_to sub m (after (loadFromFile file) m)
        = if (maxFileSize (options (store m)) <? size file)%N then 2
          else match text file with Throw _ => 2 | Ok _ => 3 end)
  /\ (forall rid ck v, at_most_one_round sub m (after (updateCell rid ck v) m))
  /\ (forall edits, at_most_one_round sub m (after (batchUpdateCells edits) m))
  /\ (forall ck rules,
        at_most_one_round sub m (after (addValidationRules ck rules) m))
  /\ calls_to sub m (after reset m) = 1.
Proof.
  intros Hreg. split; [|split; [|split; [|split; [|split]]]].
  - intros jsonString name m'. subst m'.
    destruct (loadFromString_replaced jsonString name m) as [o [_ [Hr _]]].
    split.
    + now rewrite (calls_to_replaced Hreg Hr).
    + rewrite (seen_by_replaced Hreg Hr). now destruct Hr as [_ [_ ->]].
  - intros file. pose proof (loadFromFile_replaced file m) as H. simpl in H.
    destruct (maxFileSize (options (store m)) <? size file)%N.
    + destruct H as [o Hr]. now rewrite (calls_to_replaced Hreg Hr).
    + destruct (text file); destruct H as [o Hr];
        now rewrite (calls_to_replaced Hreg Hr).
  - intros rid ck v. apply at_most_one_round_intro; [exact Hreg|].
    apply updateCell_replaced.
  - intros edits. apply at_most_one_round_intro; [exact Hreg|].
    apply batchUpdateCells_replaced.
  - intros ck rules. apply at_most_one_round_intro; [exact Hreg|].
    apply addValidationRules_replaced.
  - unfold reset. destruct (setState_replaced Idle m) as [m' [E [Hr _]]].
    unfold after. rewrite E. simpl. now rewrite (calls_to_replaced Hreg Hr).
Qed.

End WithRuntime.

(** C2, witness: the only subscriber of a store is called once by [reset]. *)
Lemma notifications_per_call_witness :
  registered 7 watched
  /\ calls_to 7 watched (after reset watched) = 1.
Proof.
  split; [vm_compute; reflexivity|].
  apply (@notifications_per_call Reference.runtime watched 7).
  vm_compute; reflexivity.
Defined.

(** C2, counterexample: one call of [loadFromString] on a one-record file
    notifies the only subscriber twice, first in the loading state, then
    in the loaded one. *)
Lemma loadFromString_notifies_twice :
  let m' := after (loadFromString (runtime := Reference.runtime) one_record None)
              watched in
  registered 7 watched
  /\ calls_to 7 watched m' <> 1
  /\ map status (seen_by 7 watched m') = ["loading"; "loaded"]%string.
Proof.
  intros m'. subst m'.
  split; [vm_compute; reflexivity|]. split; vm_compute; [discriminate | reflexivity].
Qed.

End NotifyFacts.

(* ===================================================================== *)
(** * Properties of the DataStore: rules and failures *)
(* ===================================================================== *)

Module RuleFacts.

Import Types Store Statements.

Local Open Scope list_scope.

Section WithRuntime.
Context {runtime : Runtime}.

(** The only thing [validateRule] throws is the SyntaxError of
    [new RegExp]. *)
Lemma validateRule_throws (v : CellValue) (r : ValidationRule) (k : string)
  (e : Exception) :
  Validate.validateRule v r k = Throw e ->
  pattern_compiles r = false
  /\ exists text, e = ThrownError "SyntaxError" text.
Proof.
  unfold Validate.validateRule, pattern_compiles. intros H.
  destruct (rule_type r); destruct v as [|[|c s]|n|b]; try discriminate H;
    destruct (rule_value r) as [[src|bound]|]; try discriminate H;
    try (match type of H with context [if ?c then _ else _] => destruct c end;
         discriminate H).
  all: destruct (RegExp_new src) as [text|regex].
  all: try (match type of H with context [if ?c then _ else _] => destruct c end;
         discriminate H).
  all: inversion H; split; [reflexivity | now exists text].
Qed.

Lemma validateRule_malformed (s : string) (r : ValidationRule) (k source text : string) :
  rule_type r = PATTERN -> rule_value r = Some (RuleString source) ->
  RegExp_new source = inl text ->
  Validate.validateRule (CString s) r k = Throw (ThrownError "SyntaxError" text).
Proof.
  intros Ht Hv Hc. unfold Validate.validateRule. now rewrite Ht, Hv, Hc.
Qed.

Lemma validateRules_returns (v : CellValue) (rules : list ValidationRule) (k : string)
  (acc : list ValidationError) :
  forallb pattern_compiles rules = true ->
  exists errs, Validate.validateRules v rules k acc = Ok errs.
Proof.
  revert acc. induction rules as [|r rules IH]; intros acc Hall; simpl.
  - now exists acc.
  - simpl in Hall. apply andb_prop in Hall. destruct Hall as [Hr Hrest].
    destruct (Validate.validateRule v r k) as [oe|e] eqn:E.
    + simpl. now apply IH.
    + apply validateRule_throws in E. destruct E as [E _]. congruence.
Qed.

(** With well-formed patterns [validateCell] returns. *)
Lemma validateCell_returns (v : CellValue) (col : Column) :
  patterns_compile col = true ->
  exists errs, Validate.validateCell v col = Ok errs.
Proof.
  unfold patterns_compile, Validate.validateCell.
  destruct (validation col) as [rules|]; [apply validateRules_returns|].
  intros _. eexists. reflexivity.
Qed.

Lemma validateRules_malformed (s : string) (rules : list ValidationRule)
  (k : string) (acc : list ValidationError) (r : ValidationRule)
  (source text : string) :
  In r rules -> rule_type r = PATTERN -> rule_value r = Some (RuleString source) ->
  RegExp_new source = inl text ->
  exists t, Validate.validateRules (CString s) rules k acc
            = Throw (ThrownError "SyntaxError" t).
Proof.
  intros Hin Ht Hv Hc. revert acc.
  induction rules as [|r0 rules IH]; intros acc; [contradiction|].
  simpl. destruct (Validate.validateRule (CString s) r0 k) as [oe|e] eqn:E.
  - simpl. destruct Hin as [->|Hin].
    + rewrite (@validateRule_malformed s r k source text Ht Hv Hc) in E. discriminate.
    + now apply IH.
  - apply validateRule_throws in E. destruct E as [_ [t ->]]. now exists t.
Qed.

(** A string checked against a column one of whose pattern rules is
    malformed: [validateCell] throws. *)
Lemma validateCell_malformed (s : string) (col : Column) (rules : list ValidationRule)
  (r : ValidationRule) (source text : string) :
  validation col = Some rules ->
  In r rules -> rule_type r = PATTERN -> rule_value r = Some (RuleString source) ->
  RegExp_new source = inl text ->
  exists t, Validate.validateCell (CString s) col = Throw (ThrownError "SyntaxError" t).
Proof.
  intros Hval Hin Ht Hv Hc. unfold Validate.validateCell. rewrite Hval.
  eapply validateRules_malformed; eauto.
Qed.

(** What [validateCell] throws leaves [updateCell] as it is, the store
    untouched. *)
Lemma updateCell_throws (rid ck : string) (v : CellValue) (m : Machine)
  (data : DataSet) (i : nat) (col : Column) (e : Exception) :
  state (store m) = Loaded data ->
  findIndex (fun r => String.eqb (id r) rid) (items (rows data)) = Some i ->
  find (fun c => String.eqb (key c) ck) (items (columns data)) = Some col ->
  i < length (items (rows data)) ->
  Validate.validateCell v col = Throw e ->
  updateCell rid ck v m = (Throw e, m).
Proof.
  intros Hst Hrow Hcol Hi Hthrow.
  unfold updateCell, bind, this. rewrite Hst, Hrow, Hcol.
  destruct (nth_error (items (rows data)) i) as [row|] eqn:En.
  - unfold edited_row, bind, of_result. now rewrite Hthrow.
  - apply nth_error_None in En. lia.
Qed.

(** Whatever the store holds, a call of [addValidationRules] that returns
    leaves each column with the validation list it had, followed by the
    whole list now stored under its key. *)
Lemma addValidationRules_appends (ck : string) (rules : list ValidationRule)
  (m : Machine) (data : DataSet) :
  state (store m) = Loaded data ->
  fst (addValidationRules ck rules m) = Ok tt ->
  let m' := after (addValidationRules ck rules) m in
  getColumns (store m')
  = map (fun col =>
           match JSObject.get (key col) (validationRules (options (store m'))) with
           | None => col
           | Some stored =>
               {| key := key col; label := label col; type := type col;
                  validation :=
                    Some (match validation col with
                          | Some own => own | None => [] end ++ stored) |}
           end)
        (items (columns data)).
Proof.
  intros Hst. unfold after, addValidationRules, bind, this, set_options, ret. simpl.
  rewrite Hst. simpl.
  unfold applyValidationRules, bind, this, ret, in_world, alloc. simpl.
  match goal with |- context [Validate.validateAllRows ?r ?c ?w] =>
    destruct (Validate.validateAllRows r c w) as [[rs|x] w2] end; simpl.
  - intros _. reflexivity.
  - discriminate.
Qed.

End WithRuntime.

(** C3, on the code.  A loaded store whose column [code] has a pattern
    rule with the pattern ["("], which [new RegExp] refuses: [updateCell]
    and [batchUpdateCells] with a string for that column throw the
    SyntaxError to their caller and leave the state as it was; so does
    [addValidationRules] when it adds such a rule to a column that holds a
    string, after it has stored the rule. *)
Theorem malformed_pattern_aborts_mutations :
  status (state (store coded)) = "loaded"%string
  /\ updateCell (runtime := Reference.runtime) first_row_id "code" (CString "x") coded
     = (Throw unmatched_parenthesis, coded)
  /\ (let '(r, m') :=
        batchUpdateCells (runtime := Reference.runtime)
          [ {| rowId := first_row_id; columnKey := "code"; value := CString "x" |} ]
          coded in
      r = Throw unmatched_parenthesis /\ store m' = store coded
      /\ notified m' = notified coded)
  /\ status (state (store named)) = "loaded"%string
  /\ (let '(r, m') :=
        addValidationRules (runtime := Reference.runtime) "name" [pattern_rule "("]
          named in
      r = Throw unmatched_parenthesis
      /\ state (store m') = state (store named)
      /\ notified m' = notified named
      /\ JSObject.get "name" (validationRules (options (store m')))
         = Some [pattern_rule "("]).
Proof.
  vm_compute. repeat split.
Qed.

(** C1, on the code.  A store built with the rule [min: 0] on [age] and
    loaded; [addValidationRules("age", [max: 100])] then leaves the rule
    list [min: 0, max: 100] in the store, but the validation list of the
    column is [min: 0, min: 0, max: 100]: the column kept the rule it had
    and got the whole stored list again, and the cell -1 is reported twice
    for the one rule. *)
Theorem addValidationRules_repeats_rules :
  let m := after (addValidationRules (runtime := Reference.runtime)
                    "age" [max_rule 100]) aged in
  map validation (getColumns (store aged)) = [Some [min_rule 0]]
  /\ JSObject.get "age" (validationRules (options (store m)))
     = Some [min_rule 0; max_rule 100]
  /\ map validation (getColumns (store m))
     = [Some [min_rule 0; min_rule 0; max_rule 100]]
  /\ map errors (getRows (store m))
     = [ [ ("age"%string,
            [ {| rule := MIN; message := "Value must be at least 0"; column := "age" |};
              {| rule := MIN; message := "Value must be at least 0"; column := "age" |} ]) ] ].
Proof.
  vm_compute. repeat split.
Qed.

End RuleFacts.

(* ===================================================================== *)
(** * Properties of the DataStore: rows, cells and identities *)
(* ===================================================================== *)

Module DataFacts.

Import Types Store Statements.

Local Open Scope list_scope.

(** ** Arrays *)

Lemma findIndex_Some {A} (p : A -> bool) (l : list A) (i : nat) :
  findIndex p l = Some i ->
  exists x, nth_error l i = Some x /\ p x = true.
Proof.
  revert i. induction l as [|a l IH]; intros i; simpl; [discriminate|].
  destruct (p a) eqn:E.
  - intros H; inversion H; subst. now exists a.
  - destruct (findIndex p l) as [j|]; [|discriminate].
    intros H; inversion H; subst. simpl. now apply IH.
Qed.

Lemma assign_length {A} (i : nat) (a : A) (l : list A) :
  length (assign i a l) = length l.
Proof.
  revert i. induction l as [|b l IH]; intros [|i]; simpl; auto.
Qed.



Lemma Forall_assign {A} (P : A -> Prop) (i : nat) (a : A) (l : list A) :
  Forall P l -> P a -> Forall P (assign i a l).
Proof.
  intros Hl Ha. revert i. induction Hl as [|b l Hb Hl IH]; intros [|i]; simpl;
    constructor; auto.
Qed.


Lemma find_key (ck : string) (cols : list Column) (col : Column) :
  find (fun c => String.eqb (key c) ck) cols = Some col ->
  In col cols /\ key col = ck.
Proof.
  intros H. apply find_some in H. destruct H as [Hin Hk].
  apply String.eqb_eq in Hk. auto.
Qed.

Section WithRuntime.
Context {runtime : Runtime}.

(** ** The cells [parse] builds *)



(** ** Re-validation *)

Lemma validateAllRows_rows (rs : list Row) (cols : list Column) (w w' : World)
  (out : list Row) :
  mapM (fun row : Row =>
          (errs <- of_result (Validate.validateRow row cols) ;;
           r <- alloc ;;
           ret {| row_ref := r; id := id row; cells := cells row; errors := errs |})%js)
       rs w = (Ok out, w') ->
  Forall2 (fun row row' =>
             id row' = id row /\ cells row' = cells row
             /\ Validate.validateRow row cols = Ok (errors row'))
          rs out
  /\ next_ref w <= next_ref w'
  /\ Forall (fun row' => next_ref w <= row_ref row' < next_ref w') out.
Proof.
  revert w out. induction rs as [|row rs IH]; intros w out; simpl.
  - unfold ret. intros H; inversion H; subst. repeat split; auto.
  - unfold bind, of_result, alloc, ret.
    destruct (Validate.validateRow row cols) as [errs|e] eqn:Ev; [|discriminate].
    match goal with |- context [mapM ?f rs ?w1] =>
      destruct (mapM f rs w1) as [[out'|e] w2] eqn:Em end; [|discriminate].
    intros H; inversion H; subst.
    apply IH in Em. simpl in Em. destruct Em as [Hf [Hle Hb]].
    split; [|split].
    + constructor; [simpl; auto | exact Hf].
    + lia.
    + constructor; [simpl; lia|].
      eapply Forall_impl; [|exact Hb]. simpl. intros; lia.
Qed.

(** What [validateAllRows] returns: a new array of new rows, with the ids
    and the cells of the rows it was given. *)
Lemma validateAllRows_returns (rs : list Row) (cols : list Column) (w w' : World)
  (a : Arr Row) :
  Validate.validateAllRows rs cols w = (Ok a, w') ->
  Forall2 (fun row row' =>
             id row' = id row /\ cells row' = cells row
             /\ Validate.validateRow row cols = Ok (errors row'))
          rs (items a)
  /\ arr_ref a = next_ref w
  /\ next_ref w < next_ref w'
  /\ Forall (fun row' => next_ref w < row_ref row' < next_ref w') (items a).
Proof.
  unfold Validate.validateAllRows, bind, alloc, of_result, ret.
  match goal with |- context [mapM ?f rs ?w1] =>
    destruct (mapM f rs w1) as [[out|e] w2] eqn:Em end; [|discriminate].
  intros H; inversion H; subst. simpl.
  apply validateAllRows_rows in Em. simpl in Em. destruct Em as [Hf [Hle Hb]].
  repeat split; auto; try lia.
Qed.

(** ** [updateCell] *)

(** The machine [updateCell] leaves when the row and the column exist and
    the new value can be checked. *)
Lemma updateCell_run (rid ck : string) (v : CellValue) (m : Machine)
  (data : DataSet) (i : nat) (col : Column) (row : Row)
  (cellErrors : list ValidationError) :
  state (store m) = Loaded data ->
  findIndex (fun r => String.eqb (id r) rid) (items (rows data)) = Some i ->
  find (fun c => String.eqb (key c) ck) (items (columns data)) = Some col ->
  nth_error (items (rows data)) i = Some row ->
  Validate.validateCell v col = Ok cellErrors ->
  let newRow :=
    {| row_ref := next_ref (world m);
       id := id row;
       cells := JSObject.set ck v (cells row);
       errors := if 0 <? length cellErrors
                 then JSObject.set ck cellErrors (errors row)
                 else JSObject.delete ck (errors row) |} in
  let newState :=
    Loaded {| columns := columns data;
              rows := {| arr_ref := S (next_ref (world m));
                         items := assign i newRow (items (rows data)) |};
              metadata := metadata data |} in
  updateCell rid ck v m
  = (Ok tt,
     {| store := {| state := newState;
                    subscribers := subscribers (store m);
                    options := options (store m) |};
        world := {| next_ref := S (S (next_ref (world m)));
                    rowIdCounter := rowIdCounter (world m);
                    clock_reads := clock_reads (world m) |};
        notified := notified m ++ round (subscribers (store m)) newState |}).
Proof.
  intros Hst Hrow Hcol Hnth Hval. simpl.
  unfold updateCell, bind at 1, this. rewrite Hst, Hrow, Hcol, Hnth.
  unfold edited_row, bind, of_result. rewrite Hval. reflexivity.
Qed.

Lemma heap_ok_addresses (m : Machine) (data : DataSet) (a : address) :
  state (store m) = Loaded data -> heap_ok m = true ->
  In a (addresses data) -> a < next_ref (world m).
Proof.
  unfold heap_ok. intros -> Hok Hin.
  rewrite forallb_forall in Hok. apply Hok in Hin. now apply Nat.ltb_lt.
Qed.


(** The objects of the DataSet [loadFromString] loads were all allocated. *)
Lemma loadFromString_heap_ok (jsonString : string) (fileName : option string)
  (m : Machine) :
  heap_ok (after (loadFromString jsonString fileName) m) = true.
Proof.
  unfold after, loadFromString, setState, notify, try_catch, applyValidationRules,
    bind, this, ret, in_world, alloc.
  simpl.
  match goal with |- context [Parse.parse ?i ?o ?w] =>
    destruct (Parse.parse i o w) as [[ds|x] w2] eqn:Ep end.
  2:{ destruct x; reflexivity. }
  simpl.
  match goal with |- context [Validate.validateAllRows ?r ?c ?w] =>
    destruct (Validate.validateAllRows r c w) as [[rs|x] w4] eqn:Ev end.
  2:{ destruct x; reflexivity. }
  simpl. apply ParseFacts.parse_returns in Ep.
  destruct Ep as [records [_ [_ [_ [_ [_ [Hle [Hc [Hr [Hm _]]]]]]]]]].
  apply validateAllRows_returns in Ev. simpl in Ev.
  destruct Ev as [_ [Ha [Hlt Hrows]]].
  unfold heap_ok. cbn [state store world next_ref].
  apply forallb_forall. intros a Hin. apply Nat.ltb_lt.
  unfold addresses in Hin. simpl in Hin.
  destruct Hin as [<-|[<-|[<-|Hin]]]; try lia.
  apply in_map_iff in Hin. destruct Hin as [r [<- Hin]].
  rewrite Forall_forall in Hrows. apply Hrows in Hin. lia.
Qed.

(** ** Allocation along the other mutations *)

Lemma mapM_rows_next_ref (rs : list Row) (cols : list Column) (w w' : World)
  (r : Result (list Row)) :
  mapM (fun row : Row =>
          (errs <- of_result (Validate.validateRow row cols) ;;
           a <- alloc ;;
           ret {| row_ref := a; id := id row; cells := cells row; errors := errs |})%js)
       rs w = (r, w') ->
  next_ref w <= next_ref w'.
Proof.
  revert w r. induction rs as [|row rs IH]; intros w r; simpl.
  - unfold ret. intros H; inversion H; subst. lia.
  - unfold bind, of_result, alloc, ret.
    destruct (Validate.validateRow row cols) as [errs|e].
    + match goal with |- context [mapM ?f rs ?w1] =>
        destruct (mapM f rs w1) as [[out'|e] w2] eqn:Em end;
        intros H; inversion H; subst; apply IH in Em; simpl in Em; lia.
    + intros H; inversion H; subst. lia.
Qed.

Lemma validateAllRows_next_ref (rs : list Row) (cols : list Column) (w w' : World)
  (r : Result (Arr Row)) :
  Validate.validateAllRows rs cols w = (r, w') -> next_ref w <= next_ref w'.
Proof.
  unfold Validate.validateAllRows, bind, alloc, of_result, ret.
  match goal with |- context [mapM ?f rs ?w1] =>
    destruct (mapM f rs w1) as [[out|e] w2] eqn:Em end;
    intros H; inversion H; subst; apply mapM_rows_next_ref in Em; simpl in Em; lia.
Qed.

Lemma edited_row_next_ref (row : Row) (col : Column) (ck : string) (v : CellValue)
  (m m' : Machine) (r : Result Row) :
  edited_row row col ck v m = (r, m') ->
  next_ref (world m) <= next_ref (world m')
  /\ forall newRow, r = Ok newRow ->
       next_ref (world m) <= row_ref newRow < next_ref (world m').
Proof.
  unfold edited_row, bind, of_result, in_world, alloc, ret.
  destruct (Validate.validateCell v col) as [errs|e]; intros H; inversion H; subst;
    simpl; split; try lia; intros newRow Hn; inversion Hn; subst; simpl; lia.
Qed.

Lemma apply_edits_next_ref (edits : list CellEdit) (cols : list Column)
  (rowIndexMap : JSObject.t nat) (newRows : list Row) (m m' : Machine)
  (r : Result (list Row)) :
  Forall (fun row => row_ref row < next_ref (world m)) newRows ->
  apply_edits edits cols rowIndexMap newRows m = (r, m') ->
  next_ref (world m) <= next_ref (world m')
  /\ forall out, r = Ok out ->
       Forall (fun row => row_ref row < next_ref (world m')) out.
Proof.
  revert newRows m. induction edits as [|edit edits IH]; intros newRows m Hall; simpl.
  - intros H; inversion H; subst. split; [lia|].
    intros out Ho; inversion Ho; now subst.
  - destruct (JSObject.get (rowId edit) rowIndexMap) as [i|]; [|now apply IH].
    destruct (find _ cols) as [col|]; [|now apply IH].
    destruct (nth_error newRows i) as [row|]; [|now apply IH].
    unfold bind.
    destruct (edited_row row col (columnKey edit) (value edit) m)
      as [[newRow|e] m1] eqn:Ee; apply edited_row_next_ref in Ee;
      destruct Ee as [Hle Hnew].
    + intros H. apply IH in H.
      * destruct H as [Hle2 Hout]. split; [lia | exact Hout].
      * apply Forall_assign.
        -- eapply Forall_impl; [|exact Hall]. simpl. intros; lia.
        -- specialize (Hnew newRow eq_refl). lia.
    + intros H; inversion H; subst. split; [lia | discriminate].
Qed.

Lemma heap_ok_intro (m : Machine) (data : DataSet) :
  state (store m) = Loaded data ->
  (forall a, In a (addresses data) -> a < next_ref (world m)) ->
  heap_ok m = true.
Proof.
  intros Hst Hlt. unfold heap_ok. rewrite Hst. apply forallb_forall.
  intros a Hin. apply Nat.ltb_lt. now apply Hlt.
Qed.

(** [batchUpdateCells] and [addValidationRules] keep every object of the
    loaded DataSet allocated, like [updateCell] and [loadFromString]. *)
Lemma batchUpdateCells_heap_ok (edits : list CellEdit) (m : Machine) :
  heap_ok m = true -> heap_ok (after (batchUpdateCells edits) m) = true.
Proof.
  intros Hok. unfold after, batchUpdateCells, bind, this, ret.
  destruct (state (store m)) as [| | data |] eqn:Est; simpl; try exact Hok.
  assert (Hlt : forall a, In a (addresses data) -> a < next_ref (world m))
    by (intros a; apply heap_ok_addresses; assumption).
  match goal with |- context [apply_edits ?e ?c ?i ?r ?mm] =>
    destruct (apply_edits e c i r mm) as [[rs|x] m2] eqn:E end.
  - apply apply_edits_next_ref in E; simpl in E.
    + destruct E as [Hle Hout]. specialize (Hout rs eq_refl).
      eapply heap_ok_intro; [reflexivity|]. simpl.
      intros a [<-|[<-|[<-|Hin]]].
      * assert (arr_ref (columns data) < next_ref (world m)); [|lia].
        apply Hlt. now left.
      * lia.
      * assert (metadata_ref (metadata data) < next_ref (world m)); [|lia].
        apply Hlt. right. right. now left.
      * apply in_map_iff in Hin. destruct Hin as [r [<- Hin]].
        rewrite Forall_forall in Hout. now apply Hout.
    + apply Forall_forall. intros r Hin. simpl.
      assert (row_ref r < next_ref (world m)); [|lia].
      apply Hlt. right. right. right. apply in_map_iff. now exists r.
  - simpl. pose proof E as E0. apply NotifyFacts.apply_edits_quiet in E.
    destruct E as [Hs _]. simpl in Hs.
    apply apply_edits_next_ref in E0; simpl in E0.
    + destruct E0 as [Hle _].
      eapply heap_ok_intro; [rewrite Hs; exact Est|].
      intros a Hin. apply Hlt in Hin. lia.
    + apply Forall_forall. intros r Hin. simpl.
      assert (row_ref r < next_ref (world m)); [|lia].
      apply Hlt. right. right. right. apply in_map_iff. now exists r.
Qed.

Lemma addValidationRules_heap_ok (ck : string) (rules : list ValidationRule)
  (m : Machine) :
  heap_ok m = true -> heap_ok (after (addValidationRules ck rules) m) = true.
Proof.
  intros Hok. unfold after, addValidationRules, bind, this, set_options, ret. simpl.
  destruct (state (store m)) as [| | data |] eqn:Est; simpl; try reflexivity.
  assert (Hlt : forall a, In a (addresses data) -> a < next_ref (world m))
    by (intros a; apply heap_ok_addresses; assumption).
  unfold applyValidationRules, bind, this, ret, in_world, alloc. simpl.
  match goal with |- context [Validate.validateAllRows ?r ?c ?w] =>
    destruct (Validate.validateAllRows r c w) as [[rs|x] w2] eqn:Ev end.
  - apply validateAllRows_returns in Ev. simpl in Ev.
    destruct Ev as [_ [Ha [Hnext Hrows]]].
    eapply heap_ok_intro; [reflexivity|]. simpl.
    intros a [<-|[<-|[<-|Hin]]]; try lia.
    + assert (metadata_ref (metadata data) < next_ref (world m)); [|lia].
      apply Hlt. right. right. now left.
    + apply in_map_iff in Hin. destruct Hin as [r [<- Hin]].
      rewrite Forall_forall in Hrows. apply Hrows in Hin. lia.
  - apply validateAllRows_next_ref in Ev. simpl in Ev.
    eapply heap_ok_intro; [reflexivity|]. simpl.
    intros a Hin. apply Hlt in Hin. lia.
Qed.

(** ** The keys of the cells *)














End WithRuntime.



End DataFacts.

(* ===================================================================== *)
(** * The scenarios of the specification, run on the reference runtime *)
(* ===================================================================== *)

Module Scenarios.

Import Types Store Statements.

Local Open Scope list_scope.

(** Alice and Bob: two columns, a string and a number, two rows and no
    error; writing ["x"] as Bob's age gives one error in one row. *)
Example end_to_end :
  map (fun col => (key col, label col, type col)) (getColumns (store people))
  = [("name", "Name", STRING); ("age", "Age", NUMBER)]%string
  /\ length (getRows (store people)) = 2
  /\ getErrorCount (store people) = 0
  /\ (let m := after (updateCell (runtime := Reference.runtime)
                        second_row_id "age" (CString "x")) people in
      getErrorCount (store m) = 1
      /\ length (getRowsWithErrors (store m)) = 1
      /\ getCellValue (store m) second_row_id "age" = Some (CString "x")).
Proof. vm_compute. repeat split. Qed.

(** A failed rule does not block the load: the age -1 under [min: 0]. *)
Example validation_is_not_blocking :
  status (state (store aged)) = "loaded"%string
  /\ getErrorCount (store aged) = 1
  /\ exportData (store aged)
     = Some [ [("age"%string, CNumber (JFin (Qmake (-1) 1)))] ].
Proof. vm_compute. repeat split. Qed.

(** With the default depth 1, one level of nesting is accepted and kept as
    JSON text; two levels are refused. *)
Example depth_limit_boundary :
  map (fun r => JSObject.get "a" (cells r))
      (getRows (store (after (loadFromString (runtime := Reference.runtime)
                                (json "[{'a':{'b':1}}]") None)
                             (machine0 no_options))))
  = [Some (CString (json "{'b':1}"))]
  /\ fst (Parse.parse (runtime := Reference.runtime) (json "[{'a':{'b':{'c':1}}}]")
            default_parse_options world0)
     = Throw (Parse.depth_error 0 "b" 1).
Proof. vm_compute. repeat split. Qed.

(** Three numbers and one string make a number column; a date column is
    recognised by its values. *)
Example type_majority :
  column_types (json "[{'v':1},{'v':2},{'v':'x'},{'v':3}]") = [NUMBER]
  /\ column_types (json "[{'d':'2024-01-15'},{'d':'01/15/2024'},{'d':null}]") = [DATE]
  /\ column_types (json "[{'e':null},{'f':1}]") = [STRING].
Proof. vm_compute. repeat split. Qed.

(** An edit of a row that does not exist changes nothing and notifies
    nobody. *)
Example no_op_edit :
  let m := after (subscribe 7) people in
  updateCell (runtime := Reference.runtime) "no-such-row" "age" (CNumber (JFin 5)) m
  = (Ok tt, m).
Proof. vm_compute. reflexivity. Qed.

(** A failed load ends in the error state and replaces what was loaded. *)
Example failed_load :
  let m := after (loadFromString (runtime := Reference.runtime) "{not json" None)
             people in
  getState (store m)
  = Error (ParseError "Invalid JSON: file could not be parsed")
  /\ getRows (store m) = []
  /\ exportData (store m) = None.
Proof. vm_compute. repeat split. Qed.

Example labels :
  map Parse.formatLabel
      ["firstName"; "first_name"; "date-of-birth"; "id"]%string
  = ["First Name"; "First Name"; "Date Of Birth"; "Id"]%string.
Proof. vm_compute. reflexivity. Qed.

End Scenarios.

(* ===================================================================== *)
(** * More on objects: deleting, and what a write leaves *)
(* ===================================================================== *)

Module MoreObjectFacts.
Import JSObject ObjectFacts.
Local Open Scope list_scope.
Section Objects.
Variable V : Type.
Implicit Types (o : JSObject.t V) (k : string) (v : V).

Lemma get_delete_same k o : get k (delete k o) = None.
Proof.
  induction o as [|[k' v'] o IH]; simpl; [reflexivity|].
  destruct (String.eqb k k') eqn:E; simpl; [exact IH|]. now rewrite E.
Qed.

Lemma get_delete_other k k' o : k <> k' -> get k (delete k' o) = get k o.
Proof.
  intros Hne. induction o as [|[k1 v1] o IH]; simpl; [reflexivity|].
  destruct (String.eqb k' k1) eqn:E; simpl.
  - apply String.eqb_eq in E. subst k1.
    destruct (String.eqb k k') eqn:E'; [apply String.eqb_eq in E'; contradiction|].
    exact IH.
  - destruct (String.eqb k k1); [reflexivity|exact IH].
Qed.

Lemma In_delete (kv : string * V) k o : In kv (delete k o) -> In kv o.
Proof. unfold delete. intros H. apply filter_In in H. tauto. Qed.

Lemma NoDup_keys_delete k o : NoDup (keys o) -> NoDup (keys (delete k o)).
Proof.
  unfold keys, delete. induction o as [|[k' v'] o IH]; simpl; intros H; [constructor|].
  inversion H; subst. destruct (String.eqb k k'); simpl; [now apply IH|].
  constructor; [|now apply IH].
  intros Hin. apply in_map_iff in Hin. destruct Hin as [[k1 v1] [E Hin]].
  simpl in E. subst k1. apply filter_In in Hin. destruct Hin as [Hin _].
  apply H2. apply in_map_iff. now exists (k', v1).
Qed.

Lemma In_keys_delete k k' o : In k (keys (delete k' o)) -> In k (keys o) /\ k <> k'.
Proof.
  unfold keys, delete. intros H. apply in_map_iff in H.
  destruct H as [[k1 v1] [E H]]. simpl in E. subst k1.
  apply filter_In in H. destruct H as [H Hne]. simpl in Hne.
  split; [apply in_map_iff; now exists (k, v1)|].
  intros ->. now rewrite String.eqb_refl in Hne.
Qed.

Lemma get_None_keys k o : get k o = None <-> ~ In k (keys o).
Proof.
  induction o as [|[k' v'] o IH]; simpl; [tauto|].
  destruct (String.eqb k k') eqn:E.
  - apply String.eqb_eq in E. subst. split; [discriminate|]. intros H. exfalso. apply H. now left.
  - apply String.eqb_neq in E. rewrite IH. split; [intros H [H1|H1]; [congruence|tauto]|tauto].
Qed.

Lemma get_Some_In k v o : get k o = Some v -> In (k, v) o.
Proof.
  induction o as [|[k' v'] o IH]; simpl; [discriminate|].
  destruct (String.eqb k k') eqn:E.
  - apply String.eqb_eq in E. subst. intros [= ->]. now left.
  - intros H. right. now apply IH.
Qed.

Lemma In_get_NoDup k v o : NoDup (keys o) -> In (k, v) o -> get k o = Some v.
Proof.
  induction o as [|[k' v'] o IH]; simpl; intros Hnd; [tauto|].
  intros [H|H]; inversion Hnd; subst.
  - injection H as -> ->. now rewrite String.eqb_refl.
  - destruct (String.eqb k k') eqn:E; [|now apply IH].
    apply String.eqb_eq in E. subst k'. exfalso. apply H2.
    unfold keys. apply in_map_iff. now exists (k, v).
Qed.

Lemma In_replace (kv : string * V) k v o :
  In kv (replace k v o) -> kv = (k, v) \/ In kv o.
Proof.
  induction o as [|[k' v'] o IH]; simpl; [tauto|].
  destruct (String.eqb k k'); simpl; intros [H|H]; auto.
  destruct (IH H); auto.
Qed.

(** What [set] leaves in the object: the new property and old ones. *)
Lemma In_set (kv : string * V) k v o :
  In kv (set k v o) -> kv = (k, v) \/ In kv o.
Proof.
  unfold set. destruct (has k o) eqn:Hhas; [apply In_replace|].
  destruct (array_index k) as [n|].
  - destruct (insert_index_splits n k v o) as [pre [post [-> ->]]].
    rewrite !in_app_iff. simpl. intuition.
  - rewrite in_app_iff. simpl. intuition.
Qed.

Lemma Forall_set (P : string * V -> Prop) k v o :
  Forall P o -> P (k, v) -> Forall P (set k v o).
Proof.
  intros Ho Hkv. apply Forall_forall. intros kv Hin.
  destruct (In_set _ _ _ _ Hin) as [->|H]; [assumption|].
  now apply (proj1 (Forall_forall P o) Ho).
Qed.

Lemma Forall_delete (P : string * V -> Prop) k o :
  Forall P o -> Forall P (delete k o).
Proof.
  intros Ho. apply Forall_forall. intros kv Hin. apply In_delete in Hin.
  now apply (proj1 (Forall_forall P o) Ho).
Qed.

End Objects.
End MoreObjectFacts.

(* ===================================================================== *)
(** * The validator on one cell *)
(* ===================================================================== *)

Module CellFacts.
Import Types Validate Statements Notions.
Local Open Scope list_scope.

Ltac break_ifs :=
  repeat match goal with
         | |- context [if ?b then _ else _] => destruct b
         end.

Section WithRuntime.
Context {runtime : Runtime}.

Lemma validateRules_null (rules : list ValidationRule) (k : string)
  (acc : list ValidationError) :
  validateRules CNull rules k acc
  = Ok (acc ++ map (required_error k) (filter is_required rules)).
Proof.
  revert acc. induction rules as [|r rules IH]; intros acc; simpl.
  - now rewrite app_nil_r.
  - destruct r as [[] val msg]; unfold validateRule, is_required; simpl;
      rewrite IH; try reflexivity.
    now rewrite <- app_assoc.
Qed.

Lemma validateRule_error (v : CellValue) (r : ValidationRule) (k : string)
  (e : ValidationError) :
  validateRule v r k = Ok (Some e) -> rule e = rule_type r /\ column e = k.
Proof.
  destruct r as [ty val msg]. unfold validateRule. simpl.
  destruct ty, v as [|s|n|b]; try destruct s; destruct val as [[src|bound]|];
    try discriminate;
    try (destruct (RegExp_new src); try discriminate);
    break_ifs; try discriminate; intros [= <-]; split; reflexivity.
Qed.

Lemma validateRules_shape (v : CellValue) (rules : list ValidationRule) (k : string)
  (acc errs : list ValidationError) :
  validateRules v rules k acc = Ok errs ->
  exists rest,
    errs = acc ++ rest
    /\ map rule rest = map rule_type (filter (fires v k) rules)
    /\ Forall (fun e => column e = k) rest.
Proof.
  revert acc errs. induction rules as [|r rules IH]; intros acc errs; simpl.
  - intros [= <-]. exists []. now rewrite app_nil_r.
  - unfold fires at 1. destruct (validateRule v r k) as [[e|]|x] eqn:Hr; simpl;
      [| |discriminate]; intros H; apply IH in H; destruct H as [rest [-> [Hk Hc]]].
    + apply validateRule_error in Hr. destruct Hr as [He Hcol].
      exists (e :: rest). rewrite <- app_assoc. simpl. repeat split.
      * now rewrite He, Hk.
      * now constructor.
    + now exists rest.
Qed.

Lemma validateRules_string (s : string) (rules : list ValidationRule) (k : string)
  (acc : list ValidationError) :
  match first_malformed rules with
  | Some text =>
      validateRules (CString s) rules k acc = Throw (ThrownError "SyntaxError" text)
  | None => exists errs, validateRules (CString s) rules k acc = Ok errs
  end.
Proof.
  revert acc. induction rules as [|r rules IH]; intros acc; simpl.
  - now exists acc.
  - destruct r as [ty val msg]. unfold validateRule. simpl.
    destruct ty; destruct val as [[src|bound]|]; simpl;
      try (destruct s; simpl; apply IH);
      try (break_ifs; simpl; apply IH).
    destruct (RegExp_new src); simpl; [reflexivity|].
    break_ifs; simpl; apply IH.
Qed.

Lemma validateRules_not_string (v : CellValue) (rules : list ValidationRule)
  (k : string) (acc : list ValidationError) :
  (forall s, v <> CString s) ->
  exists errs, validateRules v rules k acc = Ok errs.
Proof.
  intros Hv. revert acc. induction rules as [|r rules IH]; intros acc; simpl.
  - now exists acc.
  - destruct r as [ty val msg]. unfold validateRule. simpl.
    destruct v as [|s|n|b]; [|now destruct (Hv s)| |];
      destruct ty; destruct val as [[src|bound]|]; simpl;
      try apply IH; break_ifs; simpl; apply IH.
Qed.

(** X1. A null cell is exempt from the type check and from every rule but
    [required]: [validateCell] on null returns one error of kind required
    per [required] rule of the column, in rule order, and it returns even
    when a pattern of the column does not compile. *)
Theorem validateCell_null_only_required (col : Column) :
  validateCell CNull col
  = Ok (map (required_error (key col)) (filter is_required (rules_of col))).
Proof.
  unfold validateCell, rules_of. simpl.
  destruct (validation col) as [rules|]; [|reflexivity].
  now rewrite validateRules_null.
Qed.

(** X2. [validateCell] throws exactly when the value is a string and
    [new RegExp] refuses a pattern of the column: it then throws the
    SyntaxError of the first such pattern, whatever the other rules say; on
    a value that is not a string it always returns. *)
Theorem validateCell_throws_exactly (col : Column) :
  (forall s,
     match first_malformed (rules_of col) with
     | Some text =>
         validateCell (CString s) col = Throw (ThrownError "SyntaxError" text)
     | None => exists errs, validateCell (CString s) col = Ok errs
     end)
  /\ (forall v, (forall s, v <> CString s) ->
        exists errs, validateCell v col = Ok errs)
  /\ (first_malformed (rules_of col) = None <-> patterns_compile col = true).
Proof.
  unfold validateCell, rules_of, patterns_compile.
  destruct (validation col) as [rules|]; simpl.
  - split; [|split].
    + intros s. apply validateRules_string.
    + intros v Hv. now apply validateRules_not_string.
    + induction rules as [|r rules IH]; simpl; [tauto|].
      unfold pattern_compiles at 1.
      destruct (rule_type r); try exact IH.
      destruct (rule_value r) as [[src|bound]|]; try exact IH.
      destruct (RegExp_new src); [split; discriminate|exact IH].
  - split; [|split]; [intros s|intros v _|tauto]; eexists; reflexivity.
Qed.

(** X3. The errors of a cell: the type error first, then at most one error
    per rule in rule order, each carrying the kind of its rule (so a
    failing [min] rule gives an error of kind min), and every error names
    the column. *)
Theorem validateCell_errors_shape (v : CellValue) (col : Column)
  (errs : list ValidationError) :
  validateCell v col = Ok errs ->
  exists rest,
    errs = validateType v (type col) (key col) ++ rest
    /\ map rule rest = map rule_type (filter (fires v (key col)) (rules_of col))
    /\ Forall (fun e => column e = key col) errs
    /\ length errs <= 1 + length (rules_of col).
Proof.
  unfold validateCell, rules_of. intros H.
  assert (Hty : Forall (fun e => column e = key col) (validateType v (type col) (key col))
                /\ length (validateType v (type col) (key col)) <= 1).
  { destruct (ValidateFacts.validateType_cases v (type col) (key col)) as [-> | ->];
      unfold type_error; simpl; (split; [|lia]); repeat constructor. }
  destruct Hty as [Hcol Hlen].
  destruct (validation col) as [rules|].
  - apply validateRules_shape in H. destruct H as [rest [-> [Hk Hc]]].
    exists rest. repeat split; try assumption.
    + apply Forall_app. now split.
    + rewrite length_app. apply (f_equal (@length _)) in Hk.
      rewrite !length_map in Hk. rewrite Hk.
      pose proof (filter_length_le (fires v (key col)) rules). lia.
  - injection H as <-. exists []. rewrite app_nil_r. simpl. repeat split; auto; lia.
Qed.

End WithRuntime.

(** X3, witness: the age -1 in a number column with the rules min 0 and
    max 100 has one error, of kind min. *)
Lemma validateCell_errors_shape_witness :
  exists rest,
    [ {| rule := MIN; message := "Value must be at least 0"; column := "age" |} ]
    = validateType (runtime := Reference.runtime) (CNumber (JFin (Qmake (-1) 1)))
        (type bounded_age) (key bounded_age) ++ rest
    /\ map rule rest
       = map rule_type
           (filter (fires (runtime := Reference.runtime)
                      (CNumber (JFin (Qmake (-1) 1))) (key bounded_age))
              (rules_of bounded_age))
    /\ Forall (fun e => column e = key bounded_age)
         [ {| rule := MIN; message := "Value must be at least 0"; column := "age" |} ]
    /\ length [ {| rule := MIN; message := "Value must be at least 0";
                   column := "age" |} ]
       <= 1 + length (rules_of bounded_age).
Proof.
  apply (@validateCell_errors_shape Reference.runtime
           (CNumber (JFin (Qmake (-1) 1))) bounded_age).
  vm_compute. reflexivity.
Defined.

End CellFacts.

(* ===================================================================== *)
(** * The validator on one row *)
(* ===================================================================== *)

Module RowFacts.
Import Types Validate Statements Notions.
Import ObjectFacts MoreObjectFacts.
Local Open Scope list_scope.

Lemma entry_of_nonempty (es : list ValidationError) :
  es <> [] -> entry_of es = Some es.
Proof. destruct es; [congruence|reflexivity]. Qed.

Lemma length_positive {A} (l : list A) : (0 <? length l) = true <-> l <> [].
Proof.
  destruct l; simpl; split; intros H; try discriminate; try reflexivity.
  now destruct H.
Qed.

Section WithRuntime.
Context {runtime : Runtime}.

(** The loop of [validateRow]: what it adds to the object it fills. *)
Lemma validateRow_loop_returns (row : Row) (cols : list Column)
  (acc out : JSObject.t (list ValidationError)) :
  validateRow_loop (cells row) cols acc = Ok out ->
  (NoDup (JSObject.keys acc) -> NoDup (JSObject.keys out))
  /\ (forall k es, In (k, es) out ->
        In (k, es) acc
        \/ (es <> []
            /\ exists col, In col cols /\ key col = k
                           /\ validateCell (cell_of row k) col = Ok es))
  /\ (forall k, ~ In k (map key cols) -> JSObject.get k out = JSObject.get k acc)
  /\ (NoDup (map key cols) ->
      forall col, In col cols ->
        exists es, validateCell (cell_of row (key col)) col = Ok es
                   /\ JSObject.get (key col) out
                      = match es with
                        | [] => JSObject.get (key col) acc
                        | _ => Some es
                        end).
Proof.
  revert acc out. induction cols as [|c cols IH]; intros acc out; simpl.
  - intros [= <-]. repeat split; auto. intros _ col [].
  - fold (cell_of row (key c)).
    destruct (validateCell (cell_of row (key c)) c) as [es|e] eqn:Hc; simpl;
      [|discriminate].
    intros H. apply IH in H. destruct H as [Hnd [Hin [Hout Hcols]]].
    assert (Hpos : (0 <? length es) = true <-> es <> []) by apply length_positive.
    split; [|split; [|split]].
    + intros Hacc. apply Hnd. destruct (0 <? length es); [|assumption].
      now apply NoDup_keys_set.
    + intros k es' Hk. destruct (Hin k es' Hk) as [Hk'|[Hne [col [Hcol [Hkey Hv]]]]].
      * destruct (0 <? length es) eqn:Hlen; [|now left].
        apply In_set in Hk'. destruct Hk' as [[= -> ->]|Hk']; [|now left].
        right. split; [now apply Hpos|]. exists c. auto.
      * right. split; [assumption|]. exists col. auto.
    + intros k Hk. rewrite Hout by tauto.
      destruct (0 <? length es); [|reflexivity].
      apply get_set_other. intros ->. apply Hk. now left.
    + intros Hnodup col [<-|Hcol]; inversion Hnodup; subst.
      * exists es. split; [assumption|]. rewrite Hout by assumption.
        destruct es as [|e es]; [reflexivity|]. simpl. apply get_set_same.
      * destruct (Hcols H2 col Hcol) as [es' [Hv Hget]].
        exists es'. split; [assumption|]. rewrite Hget.
        destruct es' as [|e' es']; [|reflexivity].
        destruct (0 <? length es); [|reflexivity].
        apply get_set_other. intros Heq. apply H1. rewrite <- Heq.
        now apply in_map.
Qed.



(** What [validateRow] returns for columns with distinct keys. *)
Lemma validateRow_lookup (row : Row) (cols : list Column)
  (errs : JSObject.t (list ValidationError)) :
  validateRow row cols = Ok errs ->
  NoDup (map key cols) ->
  forall col, In col cols ->
    exists es, validateCell (cell_of row (key col)) col = Ok es
               /\ JSObject.get (key col) errs = entry_of es.
Proof.
  unfold validateRow. intros H Hnd col Hcol.
  apply validateRow_loop_returns in H. destruct H as [_ [_ [_ H]]].
  destruct (H Hnd col Hcol) as [es [Hv Hget]]. exists es. split; [assumption|].
  rewrite Hget. now destruct es.
Qed.

Lemma validateRow_listed (row : Row) (cols : list Column)
  (errs : JSObject.t (list ValidationError)) :
  validateRow row cols = Ok errs ->
  NoDup (JSObject.keys errs)
  /\ forall k es, In (k, es) errs ->
       es <> []
       /\ exists col, In col cols /\ key col = k
                      /\ validateCell (cell_of row k) col = Ok es.
Proof.
  unfold validateRow. intros H.
  apply validateRow_loop_returns in H. destruct H as [Hnd [Hin _]].
  split; [apply Hnd; constructor|].
  intros k es Hk. destruct (Hin k es Hk) as [[]|H]. exact H.
Qed.


End WithRuntime.
End RowFacts.

(* ===================================================================== *)
(** * The objects [JSON.parse] builds *)
(* ===================================================================== *)

Module JsonFacts.
Import Types Notions ObjectFacts.
Local Open Scope list_scope.

Lemma well_keyed_record (v : JValue) : well_keyed v -> record_keyed v.
Proof. now destruct v. Qed.

Ltac bits c := destruct c as [[] [] [] [] [] [] [] []].

Lemma parsed_values_keyed (fuel : nat) :
  (forall s v r, JSON.value fuel s = Some (v, r) -> well_keyed v)
  /\ (forall s vs r, JSON.elements fuel s = Some (vs, r) -> Forall record_keyed vs)
  /\ (forall s acc props r,
        JSON.members fuel s acc = Some (props, r) ->
        NoDup (JSObject.keys acc) -> NoDup (JSObject.keys props)).
Proof.
  induction fuel as [|f [IHv [IHe IHm]]]; [repeat split; discriminate|].
  split; [|split].
  - intros s v r. simpl.
    destruct (skip_space s) as [|c rest]; [discriminate|].
    bits c; simpl; try discriminate;
      try (unfold JSON.literal; destruct (prefix _ _); [|discriminate];
           intros [= <- _]; exact I);
      try (destruct (JSON.number _) as [[n r']|]; [|discriminate];
           intros [= <- _]; exact I);
      try (destruct (string_body _ _) as [[str r']|]; [|discriminate];
           intros [= <- _]; exact I);
      lazymatch goal with
      | |- context [elements f rest] =>
          destruct (skip_space rest) as [|c' rest'] eqn:Hs; [|bits c'];
          try (intros [= <- _]; constructor);
          (destruct (elements f rest) as [[items r']|] eqn:He; [|discriminate];
           intros [= <- _]; simpl; exact (IHe _ _ _ He))
      | |- context [members f rest []] =>
          destruct (skip_space rest) as [|c' rest'] eqn:Hs; [|bits c'];
          try (intros [= <- _]; constructor);
          (destruct (members f rest []) as [[props r']|] eqn:He; [|discriminate];
           intros [= <- _]; simpl; apply (IHm _ _ _ _ He); constructor)
      end.
  - intros s vs r. simpl.
    destruct (JSON.value f s) as [[v r1]|] eqn:Hv; [|discriminate].
    apply IHv in Hv. apply well_keyed_record in Hv.
    destruct (skip_space r1) as [|c rest]; [discriminate|].
    bits c; try discriminate;
      lazymatch goal with
      | |- context [elements f rest] =>
          destruct (elements f rest) as [[vs' r']|] eqn:He; [|discriminate];
          intros [= <- _]; constructor; [assumption|]; exact (IHe _ _ _ He)
      | _ => intros [= <- _]; now constructor
      end.
  - intros s acc props r. simpl.
    destruct (skip_space s) as [|c rest]; [discriminate|].
    bits c; try discriminate.
    destruct (string_body rest None) as [[k r1]|]; [|discriminate].
    destruct (skip_space r1) as [|c1 r2]; [discriminate|].
    bits c1; try discriminate.
    destruct (JSON.value f r2) as [[v r3]|]; [|discriminate].
    destruct (skip_space r3) as [|c3 r4]; [discriminate|].
    bits c3; try discriminate;
      lazymatch goal with
      | |- context [members f r4] =>
          intros H Hacc; apply (IHm _ _ _ _ H); now apply NoDup_keys_set
      | _ => intros [= <- _] Hacc; now apply NoDup_keys_set
      end.
Qed.

(** A record read by [JSON.parse] has each of its keys once. *)
Lemma parsed_records_keyed (input : string) (records : list JValue) :
  JSON.parse input = Some (JArr records) -> Forall record_keyed records.
Proof.
  unfold JSON.parse.
  destruct (JSON.value _ input) as [[v r]|] eqn:Hv; [|discriminate].
  destruct (skip_space r); [|discriminate].
  intros [= ->]. now apply (proj1 (parsed_values_keyed _)) in Hv.
Qed.

End JsonFacts.

(* ===================================================================== *)
(** * The steps of the store, and a principle for its states *)
(* ===================================================================== *)

Module StepFacts.
Import Types Store Statements Notions.
Local Open Scope list_scope.

Section WithRuntime.
Context {runtime : Runtime}.

Lemma edited_row_run (row : Row) (col : Column) (ck : string) (v : CellValue)
  (m : Machine) :
  edited_row row col ck v m
  = match Validate.validateCell v col with
    | Ok es =>
        (Ok (edited row ck v es (next_ref (world m))),
         {| store := store m;
            world := {| next_ref := S (next_ref (world m));
                        rowIdCounter := rowIdCounter (world m);
                        clock_reads := clock_reads (world m) |};
            notified := notified m |})
    | Throw e => (Throw e, m)
    end.
Proof.
  unfold edited_row, edited, bind, of_result, in_world, alloc, ret.
  destruct (Validate.validateCell v col); reflexivity.
Qed.

(** [updateCell] leaves the state as it was, or replaces one row by its
    edited copy. *)
Lemma updateCell_cases (rid ck : string) (v : CellValue) (m : Machine) :
  state (store (after (updateCell rid ck v) m)) = state (store m)
  \/ exists data i row col es r a,
       state (store m) = Loaded data
       /\ findIndex (fun x => String.eqb (id x) rid) (items (rows data)) = Some i
       /\ nth_error (items (rows data)) i = Some row
       /\ find (fun c => String.eqb (key c) ck) (items (columns data)) = Some col
       /\ Validate.validateCell v col = Ok es
       /\ updateCell rid ck v m = (Ok tt, after (updateCell rid ck v) m)
       /\ state (store (after (updateCell rid ck v) m))
          = Loaded {| columns := columns data;
                      rows := {| arr_ref := a;
                                 items := assign i (edited row ck v es r)
                                            (items (rows data)) |};
                      metadata := metadata data |}.
Proof.
  unfold after, updateCell, bind, this, ret.
  destruct (state (store m)) as [| | data |] eqn:Est; simpl; try (now left).
  destruct (findIndex _ (items (rows data))) as [i|] eqn:Ei; simpl; [|now left].
  destruct (find _ (items (columns data))) as [col|] eqn:Ef; simpl; [|now left].
  destruct (nth_error (items (rows data)) i) as [row|] eqn:En; simpl; [|now left].
  rewrite edited_row_run.
  destruct (Validate.validateCell v col) as [es|e] eqn:Ev; simpl; [|now left].
  right. unfold in_world, alloc, setState, notify, bind. simpl.
  exists data, i, row, col, es. eexists. eexists.
  repeat split; try eassumption; reflexivity.
Qed.

(** The loop of [batchUpdateCells] is a sequence of such replacements. *)
Lemma apply_edits_steps (Q : list Row -> Prop) (cols : list Column)
  (rowIndexMap : JSObject.t nat) :
  (forall rs i row col ck v es r,
     Q rs -> nth_error rs i = Some row ->
     find (fun c => String.eqb (key c) ck) cols = Some col ->
     Validate.validateCell v col = Ok es ->
     Q (assign i (edited row ck v es r) rs)) ->
  forall edits newRows m out m',
    apply_edits edits cols rowIndexMap newRows m = (Ok out, m') ->
    Q newRows -> Q out.
Proof.
  intros Hstep. induction edits as [|edit edits IH]; intros newRows m out m'; simpl.
  - unfold ret. intros [= <- _]. auto.
  - destruct (JSObject.get (rowId edit) rowIndexMap) as [i|]; [|apply IH].
    destruct (find _ cols) as [col|] eqn:Ef; [|apply IH].
    destruct (nth_error newRows i) as [row|] eqn:En; [|apply IH].
    unfold bind. rewrite edited_row_run.
    destruct (Validate.validateCell (value edit) col) as [es|e] eqn:Ev;
      [|discriminate].
    intros H HQ. eapply IH; [exact H|]. eapply Hstep; eauto.
Qed.

Lemma batchUpdateCells_cases (edits : list CellEdit) (m : Machine) :
  state (store (after (batchUpdateCells edits) m)) = state (store m)
  \/ exists data out a m1 m2,
       state (store m) = Loaded data
       /\ apply_edits edits (items (columns data))
            (index_rows (items (rows data)) 0 JSObject.empty)
            (items (rows data)) m1 = (Ok out, m2)
       /\ store m1 = store m
       /\ batchUpdateCells edits m = (Ok tt, after (batchUpdateCells edits) m)
       /\ state (store (after (batchUpdateCells edits) m))
          = Loaded {| columns := columns data;
                      rows := {| arr_ref := a; items := out |};
                      metadata := metadata data |}.
Proof.
  unfold after, batchUpdateCells, bind, this, ret.
  destruct (state (store m)) as [| | data |] eqn:Est; simpl; try (now left).
  match goal with |- context [apply_edits ?e ?c ?i ?r ?mm] =>
    destruct (apply_edits e c i r mm) as [[rs|x] m2] eqn:E end.
  - right. unfold setState, notify, bind. simpl.
    exists data, rs. eexists. eexists. exists m2.
    split; [reflexivity|]. split; [exact E|]. repeat split.
  - left. simpl. apply NotifyFacts.apply_edits_quiet in E.
    destruct E as [-> _]. simpl. exact Est.
Qed.

Lemma addValidationRules_cases (ck : string) (rules : list ValidationRule)
  (m : Machine) :
  state (store (after (addValidationRules ck rules) m)) = state (store m)
  \/ exists data cols rs,
       state (store m) = Loaded data
       /\ items cols
          = map (with_stored_rules
                   (validationRules (options (store (after (addValidationRules ck rules) m)))))
                (items (columns data))
       /\ Forall2 (revalidated (items cols)) (items (rows data)) (items rs)
       /\ addValidationRules ck rules m
          = (Ok tt, after (addValidationRules ck rules) m)
       /\ state (store (after (addValidationRules ck rules) m))
          = Loaded {| columns := cols; rows := rs; metadata := metadata data |}.
Proof.
  unfold after, addValidationRules, bind, this, set_options, ret. simpl.
  destruct (state (store m)) as [| | data |] eqn:Est; simpl; try (now left).
  unfold applyValidationRules, bind, this, ret, in_world, alloc. simpl.
  match goal with |- context [Validate.validateAllRows ?r ?c ?w] =>
    destruct (Validate.validateAllRows r c w) as [[rs|x] w2] eqn:Ev end.
  - right. unfold setState, notify, bind. simpl.
    apply DataFacts.validateAllRows_returns in Ev. destruct Ev as [Hf _].
    exists data. eexists. exists rs. simpl.
    repeat split; try reflexivity. exact Hf.
  - left. reflexivity.
Qed.

Lemma loadFromString_cases (jsonString : string) (fileName : option string)
  (m : Machine) :
  (exists e, state (store (after (loadFromString jsonString fileName) m)) = Error e)
  \/ exists options w w' ds cols rs,
       Parse.parse jsonString options w = (Ok ds, w')
       /\ po_maxFileSize options = Some (maxFileSize (Store.options (store m)))
       /\ po_maxNestingDepth options = Some (maxNestingDepth (Store.options (store m)))
       /\ po_fileName options
          = Some (match fileName with Some n => n | None => "unknown" end)
       /\ items cols
          = map (with_stored_rules (validationRules (Store.options (store m))))
                (items (columns ds))
       /\ Forall2 (revalidated (items cols)) (items (rows ds)) (items rs)
       /\ state (store (after (loadFromString jsonString fileName) m))
          = Loaded {| columns := cols; rows := rs; metadata := metadata ds |}.
Proof.
  unfold after, loadFromString, setState, notify, try_catch, applyValidationRules,
    bind, this, ret, in_world, alloc.
  simpl.
  match goal with |- context [Parse.parse ?i ?o ?w] =>
    destruct (Parse.parse i o w) as [[ds|x] w2] eqn:Ep end.
  2:{ left. destruct x; simpl; eexists; reflexivity. }
  simpl.
  match goal with |- context [Validate.validateAllRows ?r ?c ?w] =>
    destruct (Validate.validateAllRows r c w) as [[rs|x] w4] eqn:Ev end.
  2:{ left. destruct x; simpl; eexists; reflexivity. }
  right. simpl.
  apply DataFacts.validateAllRows_returns in Ev. destruct Ev as [Hf _].
  eexists. eexists. eexists. exists ds. eexists. exists rs.
  split; [exact Ep|]. simpl. repeat split; try reflexivity. exact Hf.
Qed.

Lemma loadFromFile_cases (file : File) (m : Machine) :
  (exists e, state (store (after (loadFromFile file) m)) = Error e)
  \/ exists t m1,
       options (store m1) = options (store m)
       /\ state (store (after (loadFromFile file) m))
          = state (store (after (loadFromString t (Some (file_name file))) m1)).
Proof.
  unfold after. rewrite NotifyFacts.loadFromFile_run. cbv zeta.
  destruct (maxFileSize (options (store m)) <? size file)%N.
  - left. unfold setState, notify, bind. simpl. eexists; reflexivity.
  - destruct (text file) as [t|e].
    + right. exists t. eexists. split; [|reflexivity]. reflexivity.
    + left. unfold setState, notify, bind. simpl. eexists; reflexivity.
Qed.

(** ** A principle for the properties of the state *)

Section Invariant.
Variable P : DataStoreState -> Prop.
Hypothesis P_idle : P Idle.
Hypothesis P_loading : P Loading.
Hypothesis P_error : forall e, P (Error e).
Hypothesis P_load :
  forall input options w w' ds stored cols rs,
    Parse.parse input options w = (Ok ds, w') ->
    items cols = map (with_stored_rules stored) (items (columns ds)) ->
    Forall2 (revalidated (items cols)) (items (rows ds)) (items rs) ->
    P (Loaded {| columns := cols; rows := rs; metadata := metadata ds |}).
Hypothesis P_edit :
  forall data i row col ck v es r a,
    P (Loaded data) ->
    nth_error (items (rows data)) i = Some row ->
    find (fun c => String.eqb (key c) ck) (items (columns data)) = Some col ->
    Validate.validateCell v col = Ok es ->
    P (Loaded {| columns := columns data;
                 rows := {| arr_ref := a;
                            items := assign i (edited row ck v es r)
                                       (items (rows data)) |};
                 metadata := metadata data |}).
Hypothesis P_copy :
  forall data a,
    P (Loaded data) ->
    P (Loaded {| columns := columns data;
                 rows := {| arr_ref := a; items := items (rows data) |};
                 metadata := metadata data |}).
Hypothesis P_rules :
  forall data stored cols rs,
    P (Loaded data) ->
    items cols = map (with_stored_rules stored) (items (columns data)) ->
    Forall2 (revalidated (items cols)) (items (rows data)) (items rs) ->
    P (Loaded {| columns := cols; rows := rs; metadata := metadata data |}).

Lemma call_keeps (c : Call) (m : Machine) :
  P (state (store m)) -> P (state (store (snd (call c m)))).
Proof.
  intros Hm. destruct c as [j f|file|rid ck v|edits|ck rules| |sub|sub]; simpl.
  - destruct (loadFromString_cases j f m)
      as [[e He]|[o [w [w' [ds [cols [rs [Hp [_ [_ [_ [Hc [Hr He]]]]]]]]]]]]];
      unfold after in He; rewrite He; eauto.
  - destruct (loadFromFile_cases file m) as [[e He]|[t [m1 [_ He]]]];
      unfold after in He; rewrite He; [auto|].
    destruct (loadFromString_cases t (Some (file_name file)) m1)
      as [[e He']|[o [w [w' [ds [cols [rs [Hp [_ [_ [_ [Hc [Hr He']]]]]]]]]]]]];
      unfold after in He'; rewrite He'; eauto.
  - destruct (updateCell_cases rid ck v m)
      as [He|[data [i [row [col [es [r [a [Hs [_ [Hn [Hf [Hv [_ He]]]]]]]]]]]]]];
      unfold after in He; rewrite He; [assumption|].
    rewrite Hs in Hm. eauto.
  - destruct (batchUpdateCells_cases edits m)
      as [He|[data [out [a [m1 [m2 [Hs [Ha [_ [_ He]]]]]]]]]];
      unfold after in He; rewrite He; [assumption|].
    rewrite Hs in Hm.
    assert (HQ : forall a0,
              P (Loaded {| columns := columns data;
                           rows := {| arr_ref := a0; items := out |};
                           metadata := metadata data |})).
    { eapply (@apply_edits_steps
                (fun rs => forall a0,
                   P (Loaded {| columns := columns data;
                                rows := {| arr_ref := a0; items := rs |};
                                metadata := metadata data |})));
        [|exact Ha|].
      - intros rs i row col ck v es r HQ Hn Hf Hv a0.
        exact (@P_edit {| columns := columns data;
                          rows := {| arr_ref := 0; items := rs |};
                          metadata := metadata data |}
                 i row col ck v es r a0 (HQ 0) Hn Hf Hv).
      - intros a0. now apply P_copy. }
    apply HQ.
  - destruct (addValidationRules_cases ck rules m)
      as [He|[data [cols [rs [Hs [Hc [Hr [_ He]]]]]]]];
      unfold after in He; rewrite He; [assumption|].
    rewrite Hs in Hm. eauto.
  - unfold reset, setState, notify, bind. simpl. exact P_idle.
  - exact Hm.
  - exact Hm.
Qed.

Lemma reachable_invariant (m : Machine) : reachable m -> P (state (store m)).
Proof.
  induction 1 as [o w|m c Hm IH]; [exact P_idle|]. now apply call_keeps.
Qed.

End Invariant.

End WithRuntime.
End StepFacts.

(* ===================================================================== *)
(** * Row ids, and what [parse] returns besides the cells *)
(* ===================================================================== *)

Module IdFacts.
Import Types Parse Statements Notions.
Local Open Scope list_scope.

Lemma digits_of_uint (d : Decimal.uint) :
  all_digits (NilEmpty.string_of_uint d) = true.
Proof. induction d; simpl; auto. Qed.

Lemma string_of_nat_digits (n : nat) : all_digits (string_of_nat n) = true.
Proof. apply digits_of_uint. Qed.

Lemma string_of_nat_inj (a b : nat) : string_of_nat a = string_of_nat b -> a = b.
Proof.
  unfold string_of_nat. intros H.
  apply (f_equal NilEmpty.uint_of_string) in H. rewrite !NilEmpty.usu in H.
  injection H as H. apply (f_equal Nat.of_uint) in H.
  now rewrite !DecimalNat.Unsigned.of_to in H.
Qed.

(** Two runs of digits followed by a hyphen that start the same string
    are the same run. *)
Lemma digits_then_hyphen (a b r1 r2 : string) :
  all_digits a = true -> all_digits b = true ->
  (a ++ String "-" r1 = b ++ String "-" r2)%string -> a = b.
Proof.
  revert b. induction a as [|c a IH]; intros [|d b]; simpl; intros Ha Hb H.
  - reflexivity.
  - injection H as <- _. discriminate.
  - injection H as -> _. discriminate.
  - apply andb_true_iff in Ha, Hb. destruct Ha as [_ Ha], Hb as [_ Hb].
    injection H as <- H. f_equal. now apply IH.
Qed.

Lemma row_id_index (a b : nat) (rid : string) :
  row_id_shape a rid -> row_id_shape b rid -> a = b.
Proof.
  intros [r1 ->] [r2 H]. simpl in H. injection H as H.
  apply string_of_nat_inj.
  apply (digits_then_hyphen (string_of_nat a) (string_of_nat b) r1 r2);
    auto using string_of_nat_digits.
Qed.

Lemma append_cancel (a x y : string) : (a ++ x = a ++ y)%string -> x = y.
Proof.
  induction a as [|c a IH]; simpl; [auto|]. intros [= H]. now apply IH.
Qed.

Lemma made_shape (index counter : nat) (rid : string) :
  row_id_made index counter rid -> row_id_shape index rid.
Proof. intros [rest ->]. eexists. reflexivity. Qed.

Lemma row_id_counter (a b c d : nat) (rid : string) :
  row_id_made a c rid -> row_id_made b d rid -> a = b /\ c = d.
Proof.
  intros [r1 ->] [r2 H]. simpl in H. injection H as H.
  assert (Hab : string_of_nat a = string_of_nat b).
  { eapply digits_then_hyphen; [| |exact H]; apply string_of_nat_digits. }
  rewrite Hab in H. apply append_cancel in H. simpl in H.
  injection H as H.
  split; [now apply string_of_nat_inj|]. apply string_of_nat_inj.
  eapply digits_then_hyphen; [| |exact H]; apply string_of_nat_digits.
Qed.

Lemma shaped_ids_distinct (ids : list string) (i : nat) :
  (forall j rid, nth_error ids j = Some rid -> row_id_shape (i + j) rid) ->
  NoDup ids.
Proof.
  revert i. induction ids as [|rid ids IH]; intros i H; constructor.
  - intros Hin. apply In_nth_error in Hin. destruct Hin as [j Hj].
    pose proof (H 0 rid eq_refl) as H0. pose proof (H (S j) rid Hj) as H1.
    pose proof (row_id_index H0 H1). lia.
  - apply (IH (S i)). intros j r Hj. replace (S i + j) with (i + S j) by lia.
    now apply H.
Qed.

Section WithRuntime.
Context {runtime : Runtime}.

Lemma build_rows_ids (recs : list (JSObject.t JValue)) (cols : list Column) :
  forall i w rs w',
    build_rows recs i cols w = (Ok rs, w') ->
    length rs = length recs
    /\ rowIdCounter w' = rowIdCounter w + length recs
    /\ clock_reads w' = clock_reads w + length recs
    /\ forall j rid, nth_error (map id rs) j = Some rid ->
         row_id_made (i + j) (rowIdCounter w + j + 1) rid.
Proof.
  induction recs as [|record recs IH]; intros i w rs w'; simpl.
  - unfold ret. intros [= <- <-]. repeat split; auto. intros [|j] rid; discriminate.
  - unfold bind, generateRowId, bind, next_rowIdCounter, read_clock, alloc, ret.
    simpl.
    match goal with |- context [build_rows recs (S i) cols ?w1] =>
      destruct (build_rows recs (S i) cols w1) as [[rs1|e] w2] eqn:E end;
      [|discriminate].
    apply IH in E. destruct E as [Hlen [Hc [Hk Hids]]]. simpl in Hc, Hk.
    intros [= <- <-]. simpl. repeat split; [lia|lia|lia|].
    intros [|j] rid; simpl.
    + intros [= <-]. rewrite !Nat.add_0_r.
      replace (rowIdCounter w + 1) with (S (rowIdCounter w)) by lia.
      eexists. reflexivity.
    + intros Hj. replace (i + S j) with (S i + j) by lia.
      replace (rowIdCounter w + S j + 1) with (S (rowIdCounter w) + j + 1) by lia.
      now apply Hids.
Qed.

(** What a successful [parse] returns, besides the cells. *)
Lemma parse_dataset (input : string) (options : ParseOptions) (w w' : World)
  (ds : DataSet) :
  parse input options w = (Ok ds, w') ->
  exists records,
    JSON.parse input = Some (JArr records)
    /\ records <> []
    /\ items (columns ds)
       = map (fun k => {| key := k; label := formatLabel k;
                          type := inferColumnType (map as_record records) k;
                          validation := None |})
             (JSObject.keys (as_record (hd JNull records)))
    /\ NoDup (map key (items (columns ds)))
    /\ items (columns ds) <> []
    /\ length (items (rows ds)) = length records
    /\ NoDup (map id (items (rows ds)))
    /\ (forall j row, nth_error (items (rows ds)) j = Some row ->
          row_id_made j (rowIdCounter w + j + 1) (id row))
    /\ rowCount (metadata ds) = length (items (rows ds))
    /\ columnCount (metadata ds) = length (items (columns ds))
    /\ fileName (metadata ds)
       = match po_fileName options with Some n => n | None => "unknown" end
    /\ rowIdCounter w' = rowIdCounter w + length records
    /\ clock_reads w' = S (clock_reads w + length records).
Proof.
  unfold parse. fold (limit options) (depth options).
  destruct (limit options <? N.of_nat (String.length input))%N; [discriminate|].
  destruct (utf16_length (trim input) =? 0); [discriminate|].
  destruct (JSON.parse input) as [[| | | | records |]|] eqn:Hjson; try discriminate.
  destruct (length records =? 0) eqn:Hlen; [discriminate|].
  unfold bind, of_result.
  destruct (check_records records 0 (depth options)) as [[]|e] eqn:Ec; [|discriminate].
  rewrite ParseFacts.first_record_keys.
  destruct (length (JSObject.keys (as_record (hd JNull records))) =? 0) eqn:Hkeys;
    [discriminate|].
  unfold alloc at 1 2. simpl.
  match goal with |- context [build_rows ?r 0 ?c ?w1] =>
    destruct (build_rows r 0 c w1) as [[rs|e] w2] eqn:E end; [|discriminate].
  pose proof (build_rows_ids _ _ _ _ E) as [Hl [Hc [Hk Hids]]].
  rewrite length_map in Hl, Hc, Hk. simpl in Hc, Hk.
  unfold read_clock, alloc, ret. simpl.
  intros Hp. inversion Hp; subst; clear Hp. simpl.
  assert (Hnd : NoDup (JSObject.keys (as_record (hd JNull records)))).
  { apply JsonFacts.parsed_records_keyed in Hjson.
    destruct records as [|r0 records]; [constructor|].
    inversion Hjson; subst. destruct r0; simpl; try constructor. assumption. }
  exists records. repeat split; try assumption; try lia.
  - intros ->. discriminate.
  - rewrite map_map. simpl. now rewrite map_id.
  - intros Hcols. apply (f_equal (@length _)) in Hcols.
    rewrite length_map in Hcols. simpl in Hcols.
    apply Nat.eqb_neq in Hkeys. contradiction.
  - apply (@shaped_ids_distinct _ 0). intros j rid Hj.
    eapply made_shape. exact (Hids j rid Hj).
  - intros j row Hj. apply (Hids j). now rewrite nth_error_map, Hj.
Qed.

(** X5. Row ids never repeat.  The id of the row at index [j] of a parsed
    DataSet is made of ["row-"], [j], the value the counter of the module
    had reached, and the clock; a successful [parse] advances the counter
    by the number of rows.  So the rows of two DataSets parsed one after
    the other in the same session never share an id, whatever the inputs
    and the clock. *)
Theorem row_ids_never_repeat (input1 input2 : string) (options1 options2 : ParseOptions)
  (w1 w1' w2 w2' : World) (ds1 ds2 : DataSet) :
  parse input1 options1 w1 = (Ok ds1, w1') ->
  parse input2 options2 w2 = (Ok ds2, w2') ->
  rowIdCounter w1' <= rowIdCounter w2 ->
  rowIdCounter w1' = rowIdCounter w1 + length (items (rows ds1))
  /\ (forall j row, nth_error (items (rows ds1)) j = Some row ->
        row_id_made j (rowIdCounter w1 + j + 1) (id row))
  /\ forall row1 row2,
       In row1 (items (rows ds1)) -> In row2 (items (rows ds2)) ->
       id row1 <> id row2.
Proof.
  intros H1 H2 Hle.
  apply parse_dataset in H1. apply parse_dataset in H2.
  destruct H1 as [recs1 [_ [_ [_ [_ [_ [Hl1 [_ [Hid1 [_ [_ [_ [Hc1 _]]]]]]]]]]]]].
  destruct H2 as [recs2 [_ [_ [_ [_ [_ [Hl2 [_ [Hid2 _]]]]]]]]].
  split; [now rewrite Hl1|]. split; [exact Hid1|].
  intros row1 row2 Hin1 Hin2 Heq.
  apply In_nth_error in Hin1, Hin2.
  destruct Hin1 as [j1 Hj1], Hin2 as [j2 Hj2].
  pose proof (Hid1 j1 row1 Hj1) as Hm1. pose proof (Hid2 j2 row2 Hj2) as Hm2.
  rewrite Heq in Hm1.
  destruct (row_id_counter Hm1 Hm2) as [_ Hc].
  assert (j1 < length (items (rows ds1)))
    by (apply nth_error_Some; congruence).
  lia.
Qed.

End WithRuntime.

(** X5, witness: the same text parsed twice in a row. *)
Lemma row_ids_never_repeat_witness :
  Forall (fun row1 =>
            Forall (fun row2 => id row1 <> id row2)
              (items (rows (fst (parsed one_record (snd (parsed one_record world0)))))))
    (items (rows (fst (parsed one_record world0)))).
Proof.
  apply Forall_forall. intros row1 H1. apply Forall_forall. intros row2 H2.
  revert row1 row2 H1 H2.
  refine (proj2 (proj2
    (@row_ids_never_repeat Reference.runtime one_record one_record
       default_parse_options default_parse_options
       world0 (snd (parsed one_record world0))
       (snd (parsed one_record world0))
       (snd (parsed one_record (snd (parsed one_record world0))))
       (fst (parsed one_record world0))
       (fst (parsed one_record (snd (parsed one_record world0))))
       _ _ _)));
    vm_compute; solve [reflexivity | lia].
Defined.

End IdFacts.

(* ===================================================================== *)
(** * What holds in every state a store reaches *)
(* ===================================================================== *)

Module InvariantFacts.
Import Types Store Statements Notions.
Import ObjectFacts MoreObjectFacts.
Local Open Scope list_scope.

Lemma NoDup_map_injective {A B} (f : A -> B) (l : list A) (a b : A) :
  NoDup (map f l) -> In a l -> In b l -> f a = f b -> a = b.
Proof.
  induction l as [|x l IH]; simpl; [tauto|].
  intros Hnd Ha Hb Hf. inversion Hnd as [|? ? Hx Hl]; subst.
  destruct Ha as [<-|Ha], Hb as [<-|Hb]; auto.
  - exfalso. apply Hx. rewrite Hf. now apply in_map.
  - exfalso. apply Hx. rewrite <- Hf. now apply in_map.
Qed.

Lemma map_assign {A B} (f : A -> B) (i : nat) (a x : A) (l : list A) :
  nth_error l i = Some x -> f a = f x -> map f (assign i a l) = map f l.
Proof.
  revert i. induction l as [|y l IH]; intros [|i]; simpl; try discriminate.
  - intros [= ->] ->. reflexivity.
  - intros Hn Hf. f_equal. now apply IH.
Qed.

Lemma with_stored_rules_key (stored : JSObject.t (list ValidationRule)) (col : Column) :
  key (with_stored_rules stored col) = key col.
Proof. unfold with_stored_rules. now destruct (JSObject.get _ _). Qed.

Lemma with_stored_rules_keys (stored : JSObject.t (list ValidationRule))
  (cols : list Column) :
  map key (map (with_stored_rules stored) cols) = map key cols.
Proof.
  rewrite map_map. apply map_ext. intros col. apply with_stored_rules_key.
Qed.

Section WithRuntime.
Context {runtime : Runtime}.

Lemma revalidated_ids (cols : list Column) (rs rs' : list Row) :
  Forall2 (revalidated cols) rs rs' ->
  map id rs' = map id rs /\ map cells rs' = map cells rs /\ length rs' = length rs.
Proof.
  induction 1 as [|row row' rs rs' [Hid [Hc _]] _ [IH1 [IH2 IH3]]]; simpl; auto.
  rewrite Hid, Hc, IH1, IH2, IH3. auto.
Qed.

Lemma revalidated_validated (cols : list Column) (row row' : Row) :
  NoDup (map key cols) -> revalidated cols row row' -> row_validated cols row'.
Proof.
  intros Hnd [_ [Hc Hv]].
  destruct (RowFacts.validateRow_listed _ _ Hv) as [Hkeys Hin].
  split; [assumption|]. split.
  - intros k Hk. apply in_map_iff in Hk. destruct Hk as [[k' es] [<- Hk]].
    destruct (Hin _ _ Hk) as [_ [col [Hcol [<- _]]]]. simpl. now apply in_map.
  - intros col Hcol.
    destruct (RowFacts.validateRow_lookup _ _ Hv Hnd col Hcol) as [es [He Hg]].
    exists es. split; [|assumption].
    unfold cell_of in *. now rewrite Hc.
Qed.

Lemma row_validated_edit (cols : list Column) (row : Row) (col : Column)
  (ck : string) (v : CellValue) (es : list ValidationError) (r : address) :
  NoDup (map key cols) -> row_validated cols row ->
  find (fun c => String.eqb (key c) ck) cols = Some col ->
  Validate.validateCell v col = Ok es ->
  row_validated cols (edited row ck v es r).
Proof.
  intros Hnd [Hkeys [Hsub Hall]] Hf Hv.
  apply DataFacts.find_key in Hf. destruct Hf as [Hcol Hk].
  assert (Hck : In ck (map key cols)) by (rewrite <- Hk; now apply in_map).
  unfold edited, row_validated. simpl. split; [|split].
  - destruct (0 <? length es); [now apply NoDup_keys_set|now apply NoDup_keys_delete].
  - intros k Hin. destruct (0 <? length es).
    + apply In_keys_set in Hin. destruct Hin as [->|Hin]; auto.
    + apply In_keys_delete in Hin. destruct Hin as [Hin _]. auto.
  - intros col' Hcol'. unfold cell_of. simpl.
    destruct (String.eqb (key col') ck) eqn:E.
    + apply String.eqb_eq in E.
      assert (col' = col) as ->.
      { apply (NoDup_map_injective key cols); auto. congruence. }
      rewrite Hk. rewrite get_set_same. exists es. split; [assumption|].
      destruct es as [|e es]; simpl; [apply get_delete_same|apply get_set_same].
    + apply String.eqb_neq in E.
      destruct (Hall col' Hcol') as [es' [He Hg]]. exists es'.
      unfold cell_of in He. rewrite get_set_other by assumption.
      split; [assumption|]. rewrite <- Hg.
      destruct (0 <? length es);
        [now apply get_set_other|now apply get_delete_other].
Qed.

(** A validated row holds no empty list of errors. *)
Lemma validated_errors_listed (cols : list Column) (row : Row) :
  row_validated cols row -> Forall (fun kv => snd kv <> []) (errors row).
Proof.
  intros [Hkeys [Hsub Hall]]. apply Forall_forall. intros [k es] Hin. simpl.
  assert (Hk : In k (JSObject.keys (errors row))).
  { apply in_map_iff. now exists (k, es). }
  apply Hsub in Hk. apply in_map_iff in Hk. destruct Hk as [col [<- Hcol]].
  destruct (Hall col Hcol) as [es' [_ Hg]].
  rewrite (In_get_NoDup _ _ _ Hkeys Hin) in Hg.
  destruct es'; [discriminate|]. injection Hg as ->. discriminate.
Qed.

(** ** The invariants hold in every state a store reaches *)

Lemma reachable_validated (m : Machine) :
  reachable m -> state_validated (state (store m)).
Proof.
  apply StepFacts.reachable_invariant; simpl; auto.
  - intros input options w w' ds stored cols rs Hp Hc Hr.
    apply IdFacts.parse_dataset in Hp.
    destruct Hp as [records [_ [_ [_ [Hnd _]]]]].
    assert (Hnd' : NoDup (map key (items cols)))
      by (rewrite Hc, with_stored_rules_keys; exact Hnd).
    split; [assumption|].
    clear Hc. induction Hr; constructor; auto.
    eapply revalidated_validated; eauto.
  - intros data i row col ck v es r a [Hnd Hall] Hn Hf Hv. split; [assumption|].
    apply DataFacts.Forall_assign; [assumption|].
    eapply row_validated_edit; eauto.
    apply (proj1 (Forall_forall _ _) Hall). eapply nth_error_In; eauto.
  - intros data stored cols rs [Hnd _] Hc Hr.
    assert (Hnd' : NoDup (map key (items cols)))
      by (rewrite Hc, with_stored_rules_keys; exact Hnd).
    split; [assumption|].
    clear Hc. induction Hr; constructor; auto.
    eapply revalidated_validated; eauto.
Qed.

Lemma reachable_ids_unique (m : Machine) :
  reachable m -> ids_unique (state (store m)).
Proof.
  apply StepFacts.reachable_invariant; simpl; auto.
  - intros input options w w' ds stored cols rs Hp Hc Hr.
    apply IdFacts.parse_dataset in Hp.
    destruct Hp as [records [_ [_ [_ [_ [_ [_ [Hnd _]]]]]]]].
    apply revalidated_ids in Hr. destruct Hr as [-> _]. exact Hnd.
  - intros data i row col ck v es r a Hnd Hn Hf Hv.
    erewrite map_assign; [exact Hnd|exact Hn|reflexivity].
  - intros data stored cols rs Hnd Hc Hr.
    apply revalidated_ids in Hr. destruct Hr as [-> _]. exact Hnd.
Qed.

Lemma reachable_counts_agree (m : Machine) :
  reachable m -> counts_agree (state (store m)).
Proof.
  apply StepFacts.reachable_invariant; simpl; auto.
  - intros input options w w' ds stored cols rs Hp Hc Hr.
    apply IdFacts.parse_dataset in Hp.
    destruct Hp as [records [_ [Hne [_ [_ [Hcne [Hlen [_ [_ [Hrows [Hcols _]]]]]]]]]]].
    apply revalidated_ids in Hr. destruct Hr as [_ [_ ->]].
    rewrite Hc, length_map. repeat split; auto.
    + rewrite Hlen. destruct records; [congruence|simpl; lia].
    + destruct (items (columns ds)); [congruence|simpl; lia].
  - intros data i row col ck v es r a [Hr [Hc [Hr0 Hc0]]] Hn Hf Hv.
    rewrite DataFacts.assign_length. auto.
  - intros data stored cols rs [Hrows [Hcols [Hr0 Hc0]]] Hc Hr.
    apply revalidated_ids in Hr. destruct Hr as [_ [_ ->]].
    rewrite Hc, length_map. auto.
Qed.

Lemma getRows_loaded (m : Machine) (data : DataSet) :
  state (store m) = Loaded data -> getRows (store m) = items (rows data).
Proof. unfold getRows, getData. now intros ->. Qed.

Lemma getRows_state (m m' : Machine) :
  state (store m') = state (store m) -> getRows (store m') = getRows (store m).
Proof. unfold getRows, getData. now intros ->. Qed.

(** The three editing calls leave the ids of the rows as they are, in
    order. *)
Lemma mutation_keeps_ids (c : Call) (m : Machine) :
  match c with
  | UpdateCell _ _ _ | BatchUpdateCells _ | AddValidationRules _ _ => True
  | _ => False
  end ->
  map id (getRows (store (snd (call c m)))) = map id (getRows (store m)).
Proof.
  destruct c as [j f|file|rid ck v|edits|ck rules| |sub|sub]; try contradiction;
    intros _; simpl.
  - destruct (StepFacts.updateCell_cases rid ck v m)
      as [He|[data [i [row [col [es [r [a [Hs [_ [Hn [_ [_ [_ He]]]]]]]]]]]]]];
      unfold after in He.
    + now rewrite (getRows_state _ _ He).
    + rewrite (getRows_loaded _ He), (getRows_loaded _ Hs). simpl.
      erewrite map_assign; [reflexivity|exact Hn|reflexivity].
  - destruct (StepFacts.batchUpdateCells_cases edits m)
      as [He|[data [out [a [m1 [m2 [Hs [Ha [_ [_ He]]]]]]]]]];
      unfold after in He.
    + now rewrite (getRows_state _ _ He).
    + rewrite (getRows_loaded _ He), (getRows_loaded _ Hs). simpl.
      eapply (@StepFacts.apply_edits_steps _
                (fun rs => map id rs = map id (items (rows data))));
        [|exact Ha|reflexivity].
      intros rs i row col ck v es r HQ Hn _ _.
      erewrite map_assign; [exact HQ|exact Hn|reflexivity].
  - destruct (StepFacts.addValidationRules_cases ck rules m)
      as [He|[data [cols [rs [Hs [_ [Hr [_ He]]]]]]]];
      unfold after in He.
    + now rewrite (getRows_state _ _ He).
    + rewrite (getRows_loaded _ He), (getRows_loaded _ Hs). simpl.
      apply revalidated_ids in Hr. tauto.
Qed.

Lemma find_by_id (rs : list Row) (row : Row) :
  NoDup (map id rs) -> In row rs ->
  find (fun r => String.eqb (id r) (id row)) rs = Some row.
Proof.
  induction rs as [|x rs IH]; simpl; [tauto|].
  intros Hnd Hin. inversion Hnd as [|? ? Hx Hrs]; subst.
  destruct Hin as [->|Hin]; [now rewrite String.eqb_refl|].
  destruct (String.eqb (id x) (id row)) eqn:E; [|now apply IH].
  apply String.eqb_eq in E. exfalso. apply Hx. rewrite E. now apply in_map.
Qed.

(** X6. Row ids.  In every state a store reaches the ids of the rows are
    pairwise distinct, so [getRow] called with the id of a row returns
    that row; the row at index [j] of a freshly parsed DataSet has an id
    that starts with ["row-j-"]; and [updateCell], [batchUpdateCells] and
    [addValidationRules] leave the ids of the rows as they are, in order. *)
Theorem row_ids_identify_rows (m : Machine) :
  reachable m ->
  NoDup (map id (getRows (store m)))
  /\ (forall row, In row (getRows (store m)) -> getRow (store m) (id row) = Some row)
  /\ (forall rid ck v,
        map id (getRows (store (after (updateCell rid ck v) m)))
        = map id (getRows (store m)))
  /\ (forall edits,
        map id (getRows (store (after (batchUpdateCells edits) m)))
        = map id (getRows (store m)))
  /\ (forall ck rules,
        map id (getRows (store (after (addValidationRules ck rules) m)))
        = map id (getRows (store m)))
  /\ (forall input options w w' ds j row,
        Parse.parse input options w = (Ok ds, w') ->
        nth_error (items (rows ds)) j = Some row ->
        row_id_shape j (id row)).
Proof.
  intros Hm. pose proof (reachable_ids_unique Hm) as Hu.
  assert (Hnd : NoDup (map id (getRows (store m)))).
  { unfold getRows, getData. destruct (state (store m)); simpl; try constructor.
    exact Hu. }
  split; [exact Hnd|]. split; [|split; [|split; [|split]]].
  - intros row Hin. unfold getRow. now apply find_by_id.
  - intros rid ck v. now apply (mutation_keeps_ids (UpdateCell rid ck v)).
  - intros edits. now apply (mutation_keeps_ids (BatchUpdateCells edits)).
  - intros ck rules. now apply (mutation_keeps_ids (AddValidationRules ck rules)).
  - intros input options w w' ds j row Hp Hn.
    apply IdFacts.parse_dataset in Hp.
    destruct Hp as [records [_ [_ [_ [_ [_ [_ [_ [Hs _]]]]]]]]].
    eapply IdFacts.made_shape. now apply Hs.
Qed.

(** X7. The cells with errors.  In every state a store reaches the
    columns have pairwise distinct keys, and the errors object of every row
    agrees with the validator on the row's current cells: under the key of
    a column it holds the list [validateCell] gives for the cell when that
    list is not empty, and no property otherwise; it holds no other key
    and no empty list. *)
Theorem errors_agree_with_validator (m : Machine) :
  reachable m ->
  NoDup (map key (getColumns (store m)))
  /\ forall row, In row (getRows (store m)) ->
       NoDup (JSObject.keys (errors row))
       /\ (forall k es, In (k, es) (errors row) ->
             es <> [] /\ In k (map key (getColumns (store m))))
       /\ (forall col, In col (getColumns (store m)) ->
             exists es,
               Validate.validateCell (cell_of row (key col)) col = Ok es
               /\ JSObject.get (key col) (errors row) = entry_of es).
Proof.
  intros Hm. pose proof (reachable_validated Hm) as Hv.
  unfold getColumns, getRows, getData.
  destruct (state (store m)) as [| |data|]; simpl; try (split; [constructor|tauto]).
  destruct Hv as [Hnd Hall]. split; [exact Hnd|].
  intros row Hin. pose proof (proj1 (Forall_forall _ _) Hall row Hin) as Hrow.
  pose proof (validated_errors_listed Hrow) as Hl.
  destruct Hrow as [Hkeys [Hsub Hcols]].
  split; [exact Hkeys|]. split; [|exact Hcols].
  intros k es Hk. split.
  - exact (proj1 (Forall_forall _ _) Hl (k, es) Hk).
  - apply Hsub. apply in_map_iff. now exists (k, es).
Qed.

(** X8. The counts of the metadata.  In every loaded state a store
    reaches, [rowCount] and [columnCount] are the numbers of rows and of
    columns of the data, and neither is zero: no call adds or removes a row
    or a column. *)
Theorem metadata_counts_hold (m : Machine) (data : DataSet) :
  reachable m -> state (store m) = Loaded data ->
  rowCount (metadata data) = length (getRows (store m))
  /\ columnCount (metadata data) = length (getColumns (store m))
  /\ 0 < rowCount (metadata data)
  /\ 0 < columnCount (metadata data).
Proof.
  intros Hm Hs. pose proof (reachable_counts_agree Hm) as Hc.
  unfold getColumns, getRows, getData. rewrite Hs in *. simpl in *. lia.
Qed.

End WithRuntime.

Lemma reachable_run_calls {runtime : Runtime} (cs : list Call) (m : Machine) :
  reachable m -> reachable (run_calls cs m).
Proof.
  revert m. induction cs as [|c cs IH]; intros m Hm; simpl; [assumption|].
  apply IH. now apply reachable_call.
Qed.

(** A new store stays reachable through any calls. *)
Lemma reachable_session (o : DataStoreOptions) (cs : list Call) :
  reachable (runtime := Reference.runtime) (session o cs).
Proof. apply reachable_run_calls. apply reachable_new. Qed.

(** X6, witness: the rows of Alice and Bob. *)
Lemma row_ids_identify_rows_witness :
  NoDup (map id (getRows (store alice_and_bob)))
  /\ forall row, In row (getRows (store alice_and_bob)) ->
       getRow (store alice_and_bob) (id row) = Some row.
Proof.
  destruct (@row_ids_identify_rows Reference.runtime alice_and_bob
              (reachable_session _ _)) as [H1 [H2 _]].
  exact (conj H1 H2).
Defined.

(** X7, witness: the store with the ages -1 and 3 under min 0. *)
Lemma errors_agree_with_validator_witness :
  NoDup (map key (getColumns (store below_zero))).
Proof.
  exact (proj1 (@errors_agree_with_validator Reference.runtime below_zero
                  (reachable_session _ _))).
Defined.

(** X8, witness: two rows and two columns for Alice and Bob. *)
Lemma metadata_counts_hold_witness :
  rowCount (metadata (data_of alice_and_bob)) = length (getRows (store alice_and_bob))
  /\ columnCount (metadata (data_of alice_and_bob))
     = length (getColumns (store alice_and_bob))
  /\ 0 < rowCount (metadata (data_of alice_and_bob))
  /\ 0 < columnCount (metadata (data_of alice_and_bob)).
Proof.
  apply (@metadata_counts_hold Reference.runtime alice_and_bob
           (data_of alice_and_bob) (reachable_session _ _)).
  vm_compute. reflexivity.
Defined.

End InvariantFacts.

(* ===================================================================== *)
(** * Counting and listing the errors *)
(* ===================================================================== *)

Module ErrorViewFacts.
Import Types Store Statements Notions.
Import ObjectFacts MoreObjectFacts InvariantFacts.
Local Open Scope list_scope.

Lemma fold_left_total {A} (f : A -> nat) (l : list A) (a : nat) :
  fold_left (fun count x => count + f x) l a = a + total (map f l).
Proof.
  revert a. induction l as [|x l IH]; intros a; simpl; [lia|].
  rewrite IH. unfold total. simpl. lia.
Qed.

Lemma total_zero (l : list nat) : total l = 0 <-> Forall (fun n => n = 0) l.
Proof.
  induction l as [|n l IH]; simpl; split; auto; intros H.
  - unfold total in H. simpl in H. constructor; [lia|]. apply IH. unfold total. lia.
  - inversion H; subst. unfold total. simpl. now apply IH.
Qed.

Lemma filter_nil_iff {A} (p : A -> bool) (l : list A) :
  filter p l = [] <-> Forall (fun x => p x = false) l.
Proof.
  induction l as [|x l IH]; simpl; [split; auto|].
  destruct (p x) eqn:E; split; intros H.
  - discriminate.
  - inversion H; congruence.
  - constructor; [assumption|now apply IH].
  - inversion H; subst. now apply IH.
Qed.

Lemma filter_length_total {A} (p : A -> bool) (f : A -> nat) (l : list A) :
  (forall x, p x = true -> 0 < f x) -> length (filter p l) <= total (map f l).
Proof.
  intros Hp. induction l as [|x l IH]; simpl; [auto|].
  unfold total in *. simpl. destruct (p x) eqn:E; simpl; [|lia].
  pose proof (Hp x E). lia.
Qed.



Section WithRuntime.
Context {runtime : Runtime}.

Lemma failing_columns_distinct (row : Row) (cols : list Column)
  (Hnd : NoDup (map key cols)) :
  NoDup (map key (filter (cell_fails row) cols)).
Proof.
  induction cols as [|col cols IH]; [constructor|].
  cbn [map] in Hnd. apply NoDup_cons_iff in Hnd. destruct Hnd as [Hfresh Hrest].
  cbn [filter]. destruct (cell_fails row col); [|exact (IH Hrest)].
  cbn [map]. apply NoDup_cons; [|exact (IH Hrest)].
  rewrite in_map_iff. intros [c [Hc Hin]]. apply filter_In in Hin.
  apply Hfresh. rewrite <- Hc. apply in_map. exact (proj1 Hin).
Qed.


Lemma validated_error_keys (cols : list Column) (row : Row) :
  NoDup (map key cols) -> row_validated cols row ->
  length (JSObject.keys (errors row)) = length (filter (cell_fails row) cols).
Proof.
  intros Hnd [Hkeys [Hsub Hall]].
  rewrite <- (length_map key (filter _ _)).
  apply Permutation_length. apply NoDup_Permutation;
    [assumption|now apply failing_columns_distinct|].
  intros k. split.
  - intros Hk. pose proof (Hsub k Hk) as Hc. apply in_map_iff in Hc.
    destruct Hc as [col [<- Hcol]]. apply in_map. apply filter_In.
    split; [assumption|]. unfold cell_fails.
    destruct (Hall col Hcol) as [es [-> Hg]].
    destruct es; [|reflexivity]. simpl in Hg.
    apply get_None_keys in Hg. contradiction.
  - intros Hk. apply in_map_iff in Hk. destruct Hk as [col [<- Hin]].
    apply filter_In in Hin. destruct Hin as [Hcol Hf].
    unfold cell_fails in Hf. destruct (Hall col Hcol) as [es [He Hg]].
    rewrite He in Hf. destruct es; [discriminate|]. simpl in Hg.
    destruct (in_dec string_dec (key col) (JSObject.keys (errors row))) as [H|H];
      [assumption|].
    apply get_None_keys in H. congruence.
Qed.


(** X10. [getErrorCount] counts cells, not errors.  In every state a store
    reaches it is the number of pairs of a row and a column whose cell has
    at least one error; it is zero exactly when [getRowsWithErrors] is
    empty, and it is at least the number of rows with errors. *)
Theorem getErrorCount_counts_cells (m : Machine) :
  reachable m ->
  getErrorCount (store m)
  = total (map (fun row => length (filter (cell_fails row) (getColumns (store m))))
             (getRows (store m)))
  /\ (getErrorCount (store m) = 0 <-> getRowsWithErrors (store m) = [])
  /\ length (getRowsWithErrors (store m)) <= getErrorCount (store m).
Proof.
  intros Hm. pose proof (reachable_validated Hm) as Hv.
  unfold getErrorCount, getRowsWithErrors, getColumns, getRows, getData.
  destruct (state (store m)) as [| |data|]; simpl.
  1,2,4: repeat split; auto.
  destruct Hv as [Hnd Hall]. rewrite fold_left_total. simpl. split; [|split].
  - f_equal. induction Hall as [|row rs Hrow _ IH]; simpl; [reflexivity|].
    now rewrite (validated_error_keys Hnd Hrow), IH.
  - rewrite total_zero, filter_nil_iff, Forall_map.
    split; intros H; eapply Forall_impl; try exact H; simpl; intros row Hr.
    + now rewrite Hr.
    + destruct (length (JSObject.keys (errors row))); [reflexivity|discriminate].
  - apply filter_length_total. intros row Hr. now apply Nat.ltb_lt.
Qed.

End WithRuntime.


(** X10, witness: the same store. *)
Lemma getErrorCount_counts_cells_witness :
  length (getRowsWithErrors (store below_zero)) <= getErrorCount (store below_zero).
Proof.
  exact (proj2 (proj2 (@getErrorCount_counts_cells Reference.runtime below_zero
                         (reachable_session _ _)))).
Defined.

End ErrorViewFacts.

(* ===================================================================== *)
(** * The calls of the store, one by one *)
(* ===================================================================== *)

Module CallFacts.
Import Types Store Statements Notions.
Import ObjectFacts MoreObjectFacts InvariantFacts.
Local Open Scope list_scope.

Lemma find_assign_first {A} (p : A -> bool) (i : nat) (a : A) (l : list A) :
  findIndex p l = Some i -> p a = true -> find p (assign i a l) = Some a.
Proof.
  revert i. induction l as [|x l IH]; intros i; simpl; [discriminate|].
  destruct (p x) eqn:E.
  - intros [= <-] Ha. simpl. now rewrite Ha.
  - destruct (findIndex p l) as [j|] eqn:Ej; [|discriminate].
    intros [= <-] Ha. simpl. rewrite E. now apply IH.
Qed.

Lemma find_assign_other {A} (p : A -> bool) (i : nat) (a x : A) (l : list A) :
  nth_error l i = Some x -> p x = false -> p a = false ->
  find p (assign i a l) = find p l.
Proof.
  revert i. induction l as [|y l IH]; intros [|i]; simpl; try discriminate.
  - intros [= ->] Hx Ha. now rewrite Hx, Ha.
  - intros Hn Hx Ha. destruct (p y); [reflexivity|]. now apply IH.
Qed.

Lemma map_assign_commute {A B} (f : A -> B) (i : nat) (a : A) (l : list A) :
  map f (assign i a l) = assign i (f a) (map f l).
Proof.
  revert i. induction l as [|y l IH]; intros [|i]; simpl; try reflexivity.
  now rewrite IH.
Qed.

Section WithRuntime.
Context {runtime : Runtime}.

(** X11. An edit can be read back.  When [updateCell] finds the row and
    the column and the validator returns [es] for the new value, then
    afterwards [getCellValue] gives the new value and [getRow] the new row;
    in that row the errors under the edited key are [es], or absent when
    [es] is empty, and the cells and errors under every other key are
    those of the old row; [exportData] differs from before in that row
    only, and [getRow] for any other id is unchanged. *)
Theorem updateCell_round_trip (rid ck : string) (v : CellValue) (m : Machine)
  (data : DataSet) (i : nat) (col : Column) (es : list ValidationError) :
  state (store m) = Loaded data ->
  findIndex (fun r => String.eqb (id r) rid) (items (rows data)) = Some i ->
  find (fun c => String.eqb (key c) ck) (items (columns data)) = Some col ->
  Validate.validateCell v col = Ok es ->
  let m' := after (updateCell rid ck v) m in
  exists row newRow,
    nth_error (items (rows data)) i = Some row
    /\ getRow (store m') rid = Some newRow
    /\ getCellValue (store m') rid ck = Some v
    /\ JSObject.get ck (errors newRow) = entry_of es
    /\ (forall k, k <> ck ->
          JSObject.get k (cells newRow) = JSObject.get k (cells row)
          /\ JSObject.get k (errors newRow) = JSObject.get k (errors row))
    /\ exportData (store m')
       = option_map (assign i (cells newRow)) (exportData (store m))
    /\ (forall other, other <> rid -> getRow (store m') other = getRow (store m) other)
    /\ getColumns (store m') = getColumns (store m).
Proof.
  intros Hs Hi Hf Hv m'.
  destruct (DataFacts.findIndex_Some _ _ Hi) as [row [Hn Hid]].
  apply String.eqb_eq in Hid.
  pose proof (DataFacts.updateCell_run rid ck v m Hs Hi Hf Hn Hv) as Hrun.
  cbv zeta in Hrun.
  exists row, (edited row ck v es (next_ref (world m))).
  subst m'. unfold after. rewrite Hrun.
  unfold getCellValue, getRow, getRows, getColumns, getData, exportData.
  rewrite Hs. simpl.
  fold (edited row ck v es (next_ref (world m))).
  assert (Hfind : find (fun r => String.eqb (id r) rid)
                    (assign i (edited row ck v es (next_ref (world m)))
                       (items (rows data)))
                  = Some (edited row ck v es (next_ref (world m)))).
  { apply find_assign_first; [assumption|]. simpl. now apply String.eqb_eq. }
  rewrite Hfind. unfold edited. simpl.
  split; [assumption|]. split; [reflexivity|]. split; [apply get_set_same|].
  split; [|split; [|split; [|split]]].
  - destruct es; simpl; [apply get_delete_same|apply get_set_same].
  - intros k Hk. split; [now apply get_set_other|].
    destruct (0 <? length es); [now apply get_set_other|now apply get_delete_other].
  - f_equal. now rewrite map_assign_commute.
  - intros other Hne. eapply find_assign_other; [exact Hn| |]; simpl;
      apply String.eqb_neq; congruence.
  - reflexivity.
Qed.




Lemma loadFromString_keeps_options (jsonString : string) (fileName : option string)
  (m : Machine) :
  options (store (after (loadFromString jsonString fileName) m)) = options (store m).
Proof.
  unfold after, loadFromString, setState, notify, try_catch, applyValidationRules,
    bind, this, ret, in_world, alloc.
  simpl.
  match goal with |- context [Parse.parse ?i ?o ?w] =>
    destruct (Parse.parse i o w) as [[ds|x] w2] eqn:Ep end.
  2:{ destruct x; reflexivity. }
  simpl.
  match goal with |- context [Validate.validateAllRows ?r ?c ?w] =>
    destruct (Validate.validateAllRows r c w) as [[rs|x] w4] eqn:Ev end;
    [reflexivity|destruct x; reflexivity].
Qed.


(** The state and the world a load ends with depend on the options and
    on the world it starts in, not on the state or on the subscribers. *)
Lemma loadFromString_from (jsonString : string) (fileName : option string)
  (m1 m2 : Machine) :
  options (store m1) = options (store m2) -> world m1 = world m2 ->
  state (store (after (loadFromString jsonString fileName) m1))
  = state (store (after (loadFromString jsonString fileName) m2))
  /\ world (after (loadFromString jsonString fileName) m1)
     = world (after (loadFromString jsonString fileName) m2).
Proof.
  intros Ho Hw.
  unfold after, loadFromString, setState, notify, try_catch, applyValidationRules,
    bind, this, ret, in_world, alloc.
  simpl. rewrite Ho, Hw.
  match goal with |- context [Parse.parse ?i ?o ?w] =>
    destruct (Parse.parse i o w) as [[ds|x] w2] eqn:Ep end.
  2:{ destruct x; simpl; split; reflexivity. }
  simpl.
  match goal with |- context [Validate.validateAllRows ?r ?c ?w] =>
    destruct (Validate.validateAllRows r c w) as [[rs|x] w4] eqn:Ev end.
  - simpl. split; reflexivity.
  - destruct x; simpl; split; reflexivity.
Qed.

(** X13. How a load from a file ends.  [loadFromFile] always returns.  A
    file whose [size] is above the limit gives the error state with a
    FileSizeError made of that size and the limit, and its text is never
    read or parsed; otherwise a failure to read the text gives an error
    with the code FILE_READ_ERROR and the message of the failure, and a
    text that was read leaves the state and the world [loadFromString]
    would have left for that text and the name of the file. *)
Theorem loadFromFile_outcome (file : File) (m : Machine) :
  let m' := after (loadFromFile file) m in
  loadFromFile file m = (Ok tt, m')
  /\ options (store m') = options (store m)
  /\ if (maxFileSize (options (store m)) <? size file)%N
     then state (store m')
          = Error (FileSizeError (size file) (maxFileSize (options (store m))))
          /\ world m' = world m
     else match text file with
          | Throw e =>
              state (store m')
              = Error (new_DataValidatorError "FILE_READ_ERROR"
                         (match e with
                          | Thrown d => error_message d
                          | ThrownError _ msg => msg
                          end))
              /\ world m' = world m
          | Ok t =>
              state (store m')
              = state (store (after (loadFromString t (Some (file_name file))) m))
              /\ world m'
                 = world (after (loadFromString t (Some (file_name file))) m)
          end.
Proof.
  cbv zeta. unfold after. rewrite NotifyFacts.loadFromFile_run. cbv zeta.
  destruct (maxFileSize (options (store m)) <? size file)%N.
  - unfold after, setState, notify, bind. simpl. repeat split.
  - destruct (text file) as [t|e].
    + set (m1 := after (setState Loading) m).
      destruct (NotifyFacts.loadFromString_replaced t (Some (file_name file)) m1)
        as [outcome [Hrun _]].
      pose proof (loadFromString_keeps_options t (Some (file_name file)) m1) as Ho.
      destruct (@loadFromString_from t (Some (file_name file)) m1 m) as [Hs Hw];
        try reflexivity.
      unfold after in *. rewrite Hrun at 1. simpl.
      split; [reflexivity|]. split; [exact Ho|]. split; assumption.
    + unfold after, setState, notify, bind. simpl. repeat split.
Qed.


Lemma index_rows_get (rs : list Row) (i : nat) (acc : JSObject.t nat) (rid : string) :
  ~ In rid (map id rs) ->
  JSObject.get rid (index_rows rs i acc) = JSObject.get rid acc.
Proof.
  revert i acc. induction rs as [|r rs IH]; intros i acc Hin; simpl; [reflexivity|].
  simpl in Hin. rewrite IH by tauto. apply get_set_other. intros ->. tauto.
Qed.

Lemma index_rows_nth (rs : list Row) (i : nat) (acc : JSObject.t nat)
  (j : nat) (row : Row) :
  NoDup (map id rs) -> nth_error rs j = Some row ->
  JSObject.get (id row) (index_rows rs i acc) = Some (i + j).
Proof.
  revert i acc j. induction rs as [|r rs IH]; intros i acc [|j] Hnd Hn;
    simpl in *; try discriminate; inversion Hnd as [|? ? Hx Hl]; subst.
  - injection Hn as ->. rewrite index_rows_get by assumption.
    rewrite get_set_same. f_equal. lia.
  - rewrite (IH (S i) _ j) by assumption. f_equal. lia.
Qed.

Lemma find_key_None (ck : string) (cols : list Column) :
  ~ In ck (map key cols) -> find (fun c => String.eqb (key c) ck) cols = None.
Proof.
  induction cols as [|c cols IH]; simpl; [reflexivity|]. intros H.
  destruct (String.eqb (key c) ck) eqn:E; [|apply IH; tauto].
  apply String.eqb_eq in E. tauto.
Qed.

Lemma findIndex_id_None (rid : string) (rs : list Row) :
  ~ In rid (map id rs) -> findIndex (fun r => String.eqb (id r) rid) rs = None.
Proof.
  induction rs as [|r rs IH]; simpl; [reflexivity|]. intros H.
  destruct (String.eqb (id r) rid) eqn:E.
  - apply String.eqb_eq in E. tauto.
  - rewrite IH by tauto. reflexivity.
Qed.

Lemma apply_edits_nothing (edits : list CellEdit) (data : DataSet) (m : Machine) :
  Forall (names_nothing data) edits ->
  apply_edits edits (items (columns data))
    (index_rows (items (rows data)) 0 JSObject.empty) (items (rows data)) m
  = (Ok (items (rows data)), m).
Proof.
  induction 1 as [|edit edits [Hrow|Hcol] _ IH]; simpl; [reflexivity| |].
  - rewrite index_rows_get by assumption. simpl. exact IH.
  - destruct (JSObject.get (rowId edit) _); [|exact IH].
    rewrite find_key_None by assumption. exact IH.
Qed.

(** X15. Edits that name nothing.  [updateCell] with a row id or a column
    key the data does not have does nothing at all: the machine is left as
    it was and nobody is called.  [batchUpdateCells] with only such edits,
    or with no edit, still replaces the state: the new DataSet has the same
    columns array and metadata and a new rows array holding the same row
    objects, and every subscriber is called once. *)
Theorem edits_that_name_nothing (m : Machine) (data : DataSet) :
  state (store m) = Loaded data ->
  (forall rid ck v,
     names_nothing data {| rowId := rid; columnKey := ck; value := v |} ->
     updateCell rid ck v m = (Ok tt, m))
  /\ (forall edits,
        Forall (names_nothing data) edits ->
        let m' := after (batchUpdateCells edits) m in
        batchUpdateCells edits m = (Ok tt, m')
        /\ state (store m')
           = Loaded {| columns := columns data;
                       rows := {| arr_ref := next_ref (world m);
                                  items := items (rows data) |};
                       metadata := metadata data |}
        /\ notified m'
           = notified m ++ round (subscribers (store m)) (state (store m'))
        /\ (heap_ok m = true -> arr_ref (rows data) <> next_ref (world m))).
Proof.
  intros Hs. split.
  - intros rid ck v [Hrow|Hcol]; simpl in *;
      unfold updateCell, bind, this, ret; rewrite Hs.
    + now rewrite findIndex_id_None.
    + destruct (findIndex _ _); [|reflexivity]. now rewrite find_key_None.
  - intros edits Hall. cbv zeta.
    unfold after, batchUpdateCells, bind, this, ret. rewrite Hs.
    unfold in_world at 1. unfold alloc at 1. simpl.
    rewrite (apply_edits_nothing _ Hall).
    unfold setState, notify, bind. simpl.
    repeat split.
    intros Hheap Heq.
    pose proof (@DataFacts.heap_ok_addresses m data (arr_ref (rows data)) Hs Hheap) as H.
    assert (arr_ref (rows data) < next_ref (world m))
      by (apply H; unfold addresses; simpl; auto).
    lia.
Qed.

End WithRuntime.

(** X11, witness: Bob's age set to 5. *)
Lemma updateCell_round_trip_witness :
  let m' := after (updateCell (runtime := Reference.runtime)
                     second_row_id "age" (CNumber (JFin 5))) alice_and_bob in
  exists row newRow,
    nth_error (items (rows (data_of alice_and_bob))) 1 = Some row
    /\ getRow (store m') second_row_id = Some newRow
    /\ getCellValue (store m') second_row_id "age" = Some (CNumber (JFin 5))
    /\ JSObject.get "age" (errors newRow) = entry_of []
    /\ (forall k, k <> "age"%string ->
          JSObject.get k (cells newRow) = JSObject.get k (cells row)
          /\ JSObject.get k (errors newRow) = JSObject.get k (errors row))
    /\ exportData (store m')
       = option_map (assign 1 (cells newRow)) (exportData (store alice_and_bob))
    /\ (forall other, other <> second_row_id ->
          getRow (store m') other = getRow (store alice_and_bob) other)
    /\ getColumns (store m') = getColumns (store alice_and_bob).
Proof.
  intros m'.
  apply (@updateCell_round_trip Reference.runtime second_row_id "age"
           (CNumber (JFin 5)) alice_and_bob (data_of alice_and_bob) 1 plain_age []);
    vm_compute; reflexivity.
Defined.

(** X15, witness: on the store of Alice and Bob, an edit of a row that
    does not exist does nothing. *)
Lemma edits_that_name_nothing_witness :
  updateCell (runtime := Reference.runtime) "row-9" "age" CNull alice_and_bob
  = (Ok tt, alice_and_bob).
Proof.
  refine (proj1 (@edits_that_name_nothing Reference.runtime alice_and_bob
                   (data_of alice_and_bob) _) "row-9" "age" CNull _).
  - vm_compute. reflexivity.
  - left. vm_compute. intros [H|[H|[]]]; discriminate.
Defined.

End CallFacts.

(* ===================================================================== *)
(** * Subscribers *)
(* ===================================================================== *)

Module SubscriptionFacts.
Import Types Store Statements Notions.
Local Open Scope list_scope.

Lemma count_rounds (subs : list Subscriber) (states : list DataStoreState)
  (sub : Subscriber) :
  ~ In sub subs ->
  count_occ Nat.eq_dec (map who (flat_map (round subs) states)) sub = 0.
Proof.
  intros Hin. induction states as [|st states IH]; [reflexivity|].
  cbn [flat_map]. rewrite map_app, count_occ_app. apply Nat.eq_add_0.
  split; [|exact IH]. rewrite NotifyFacts.count_round.
  exact (proj1 (count_occ_not_In Nat.eq_dec subs sub) Hin).
Qed.

Lemma existsb_subscriber_In (sub : Subscriber) (subs : list Subscriber) :
  existsb (Nat.eqb sub) subs = true <-> In sub subs.
Proof.
  rewrite existsb_exists. split.
  - intros [x [Hx E]]. apply Nat.eqb_eq in E. now subst.
  - intros H. exists sub. split; [assumption|apply Nat.eqb_refl].
Qed.

Section WithRuntime.
Context {runtime : Runtime}.

(** What a call does to the subscribers and to the notifications: a call
    other than [subscribe] and the unsubscribe function replaces the state
    some number of times and tells the subscribers each time. *)
Lemma call_replaced (c : Call) (m : Machine) :
  match c with
  | Subscribe _ | Unsubscribe _ =>
      notified (snd (call c m)) = notified m
  | _ => exists states, replaced states m (snd (call c m))
  end.
Proof.
  destruct c as [j f|file|rid ck v|edits|ck rules| |sub|sub]; cbn [call];
    try reflexivity.
  - destruct (NotifyFacts.loadFromString_replaced j f m) as [o [_ [H _]]]. eauto.
  - pose proof (NotifyFacts.loadFromFile_replaced file m) as H. cbv zeta in H.
    unfold after in H.
    destruct (maxFileSize (options (store m)) <? size file)%N;
      [|destruct (text file)]; destruct H as [o H]; eauto.
  - destruct (NotifyFacts.updateCell_replaced rid ck v m) as [H|[s H]]; eauto.
  - destruct (NotifyFacts.batchUpdateCells_replaced edits m) as [H|[s H]]; eauto.
  - destruct (NotifyFacts.addValidationRules_replaced ck rules m) as [H|[s H]]; eauto.
  - destruct (NotifyFacts.setState_replaced Idle m) as [m' [E [H _]]].
    unfold reset. rewrite E. eauto.
Qed.

Lemma call_subscribers (c : Call) (m : Machine) :
  subscribers (store (snd (call c m)))
  = match c with
    | Subscribe sub =>
        if existsb (Nat.eqb sub) (subscribers (store m))
        then subscribers (store m)
        else subscribers (store m) ++ [sub]
    | Unsubscribe sub =>
        filter (fun s => negb (Nat.eqb sub s)) (subscribers (store m))
    | _ => subscribers (store m)
    end.
Proof.
  pose proof (call_replaced c m) as H.
  destruct c; try reflexivity; destruct H as [states [H _]]; exact H.
Qed.

Lemma reachable_subscribers (m : Machine) :
  reachable m -> NoDup (subscribers (store m)).
Proof.
  induction 1 as [o w|m c Hm IH]; [constructor|].
  rewrite call_subscribers. destruct c; try assumption.
  - destruct (existsb (Nat.eqb sub) (subscribers (store m))) eqn:E; [assumption|].
    apply NoDup_app; [assumption|repeat constructor; intros []|].
    intros x Hx [<-|[]]. apply existsb_subscriber_In in Hx. congruence.
  - now apply NoDup_filter.
Qed.

(** The calls made to [sub] by a call on a store [sub] is not subscribed
    to. *)
Lemma call_skips (c : Call) (m : Machine) (sub : Subscriber) :
  ~ In sub (subscribers (store m)) ->
  exists more,
    notified (snd (call c m)) = notified m ++ more
    /\ count_occ Nat.eq_dec (map who more) sub = 0.
Proof.
  intros Hin. pose proof (call_replaced c m) as H.
  destruct c as [j f|file|rid ck v|edits|ck rules| |s|s].
  7,8: exists []; rewrite app_nil_r; split; [exact H|reflexivity].
  all: destruct H as [states [_ [H _]]]; rewrite H; eexists;
    split; [reflexivity|now apply count_rounds].
Qed.

Lemma run_calls_skips (cs : list Call) (sub : Subscriber) :
  Forall (fun c => c <> Subscribe sub) cs ->
  forall m,
    ~ In sub (subscribers (store m)) ->
    ~ In sub (subscribers (store (run_calls cs m)))
    /\ exists more,
         notified (run_calls cs m) = notified m ++ more
         /\ count_occ Nat.eq_dec (map who more) sub = 0.
Proof.
  induction 1 as [|c cs Hc _ IH]; intros m Hin; simpl.
  - split; [assumption|]. exists []. now rewrite app_nil_r.
  - destruct (@call_skips c m sub Hin) as [more1 [E1 H1]].
    assert (Hin' : ~ In sub (subscribers (store (snd (call c m))))).
    { rewrite call_subscribers. destruct c; try assumption.
      - destruct (existsb _ _); [assumption|]. rewrite in_app_iff. simpl.
        intros [H|[H|[]]]; [contradiction|]. apply Hc. now subst.
      - intros H. apply filter_In in H. tauto. }
    destruct (IH _ Hin') as [Hout [more2 [E2 H2]]].
    split; [assumption|]. exists (more1 ++ more2).
    rewrite E2, E1, <- app_assoc. split; [reflexivity|].
    rewrite map_app, count_occ_app. apply Nat.eq_add_0. now split.
Qed.

(** X16. The subscribers form a set.  In every state a store reaches no
    callback is subscribed twice; [subscribe] leaves its callback
    subscribed once, and subscribing it again changes nothing; the
    unsubscribe function removes the callback and no other; and a callback
    that was removed is not called by any later sequence of calls, until
    it subscribes again. *)
Theorem subscribers_form_a_set (m : Machine) :
  reachable m ->
  NoDup (subscribers (store m))
  /\ forall sub,
       registered sub (after (subscribe sub) m)
       /\ after (subscribe sub) (after (subscribe sub) m) = after (subscribe sub) m
       /\ ~ In sub (subscribers (store (after (unsubscribe sub) m)))
       /\ (forall other, other <> sub ->
             (In other (subscribers (store (after (unsubscribe sub) m)))
              <-> In other (subscribers (store m))))
       /\ (forall cs,
             Forall (fun c => c <> Subscribe sub) cs ->
             calls_to sub (after (unsubscribe sub) m)
               (run_calls cs (after (unsubscribe sub) m)) = 0).
Proof.
  intros Hm. pose proof (reachable_subscribers Hm) as Hnd.
  split; [exact Hnd|]. intros sub.
  assert (Hgone : ~ In sub (subscribers (store (after (unsubscribe sub) m)))).
  { unfold after, unsubscribe. simpl. intros H. apply filter_In in H.
    destruct H as [_ H]. now rewrite Nat.eqb_refl in H. }
  split; [|split; [|split; [exact Hgone|split]]].
  - unfold registered, after, subscribe. simpl.
    destruct (existsb (Nat.eqb sub) (subscribers (store m))) eqn:E.
    + apply existsb_subscriber_In in E.
      apply (proj1 (NoDup_count_occ' Nat.eq_dec _) Hnd). exact E.
    + rewrite count_occ_app. simpl. destruct (Nat.eq_dec sub sub); [|congruence].
      assert (Hno : ~ In sub (subscribers (store m))).
      { intros H. apply existsb_subscriber_In in H. congruence. }
      rewrite Nat.add_comm. simpl. f_equal.
      exact (proj1 (count_occ_not_In Nat.eq_dec _ sub) Hno).
  - unfold after, subscribe. simpl.
    destruct (existsb (Nat.eqb sub) (subscribers (store m))) eqn:E.
    + now rewrite E.
    + assert (E' : existsb (Nat.eqb sub) (subscribers (store m) ++ [sub]) = true).
      { apply existsb_subscriber_In. apply in_app_iff. right. now left. }
      now rewrite E'.
  - intros other Hne. unfold after, unsubscribe. simpl. rewrite filter_In.
    split; [tauto|]. intros H. split; [assumption|].
    apply negb_true_iff. apply Nat.eqb_neq. congruence.
  - intros cs Hcs.
    destruct (@run_calls_skips cs sub Hcs _ Hgone) as [_ [more [E H]]].
    unfold calls_to, new_notifications. rewrite E.
    rewrite skipn_app, skipn_all, Nat.sub_diag. simpl. exact H.
Qed.

End WithRuntime.

(** X16, witness: a new store with one subscriber. *)
Lemma subscribers_form_a_set_witness : NoDup (subscribers (store listener)).
Proof.
  exact (proj1 (@subscribers_form_a_set Reference.runtime listener
                  (InvariantFacts.reachable_session _ _))).
Defined.

End SubscriptionFacts.

(* ===================================================================== *)
(** * A batch of edits and the same edits one by one *)
(* ===================================================================== *)

Module BatchFacts.
Import Types Store Statements Notions.
Import ObjectFacts MoreObjectFacts InvariantFacts CallFacts.
Local Open Scope list_scope.

Lemma findIndex_by_ids (rid : string) (rs rs' : list Row) :
  map id rs = map id rs' ->
  findIndex (fun r => String.eqb (id r) rid) rs
  = findIndex (fun r => String.eqb (id r) rid) rs'.
Proof.
  revert rs'. induction rs as [|r rs IH]; intros [|r' rs']; simpl;
    try discriminate; [reflexivity|].
  intros [= -> H]. now rewrite (IH rs' H).
Qed.

Lemma findIndex_nth (rs : list Row) (j : nat) (row : Row) :
  NoDup (map id rs) -> nth_error rs j = Some row ->
  findIndex (fun r => String.eqb (id r) (id row)) rs = Some j.
Proof.
  revert j. induction rs as [|r rs IH]; intros [|j] Hnd Hn; simpl in *;
    try discriminate; inversion Hnd as [|? ? Hx Hl]; subst.
  - injection Hn as ->. now rewrite String.eqb_refl.
  - destruct (String.eqb (id r) (id row)) eqn:E.
    + apply String.eqb_eq in E. exfalso. apply Hx. rewrite E.
      apply in_map. eapply nth_error_In; eauto.
    + now rewrite (IH j Hl Hn).
Qed.

(** The [Map] of [batchUpdateCells] finds a row where [findIndex] does,
    when the ids are distinct. *)
Lemma index_rows_findIndex (rs : list Row) (rid : string) :
  NoDup (map id rs) ->
  JSObject.get rid (index_rows rs 0 JSObject.empty)
  = findIndex (fun r => String.eqb (id r) rid) rs.
Proof.
  intros Hnd. destruct (in_dec string_dec rid (map id rs)) as [Hin|Hin].
  - apply in_map_iff in Hin. destruct Hin as [row [<- Hin]].
    apply In_nth_error in Hin. destruct Hin as [j Hj].
    rewrite (@index_rows_nth rs 0 JSObject.empty j row Hnd Hj).
    now rewrite (@findIndex_nth rs j row Hnd Hj).
  - rewrite index_rows_get by assumption. now rewrite findIndex_id_None.
Qed.

Lemma nth_error_row_data (rs rs' : list Row) (i : nat) (row : Row) :
  map row_data rs = map row_data rs' -> nth_error rs i = Some row ->
  exists row', nth_error rs' i = Some row' /\ row_data row' = row_data row.
Proof.
  intros H Hn. apply (f_equal (fun l => nth_error l i)) in H.
  rewrite !nth_error_map, Hn in H. simpl in H.
  destruct (nth_error rs' i) as [row'|]; [|discriminate].
  simpl in H. exists row'. split; [reflexivity|congruence].
Qed.

Lemma row_data_ids (rs rs' : list Row) :
  map row_data rs = map row_data rs' -> map id rs = map id rs'.
Proof.
  intros H. apply (f_equal (map (fun d => fst (fst d)))) in H.
  now rewrite !map_map in H.
Qed.

Lemma row_data_edited (row row' : Row) (ck : string) (v : CellValue)
  (es : list ValidationError) (r r' : address) :
  row_data row' = row_data row ->
  row_data (edited row' ck v es r') = row_data (edited row ck v es r).
Proof.
  unfold row_data, edited. simpl. intros [= -> -> ->]. reflexivity.
Qed.

Section WithRuntime.
Context {runtime : Runtime}.

Lemma updateCell_skips (rid ck : string) (v : CellValue) (m : Machine)
  (data : DataSet) :
  state (store m) = Loaded data ->
  findIndex (fun r => String.eqb (id r) rid) (items (rows data)) = None
  \/ find (fun c => String.eqb (key c) ck) (items (columns data)) = None ->
  updateCell rid ck v m = (Ok tt, m).
Proof.
  intros Hs H. unfold updateCell, bind, this, ret. rewrite Hs.
  destruct H as [-> | H]; [reflexivity|].
  destruct (findIndex _ _); [|reflexivity]. now rewrite H.
Qed.

(** The loop of [batchUpdateCells] and the same edits made one by one by
    [updateCell] arrive at rows that hold the same. *)
Lemma apply_edits_as_updates (cols : Arr Column) (rows0 : list Row)
  (edits : list CellEdit) :
  NoDup (map id rows0) ->
  Forall (fun col => patterns_compile col = true) (items cols) ->
  forall newRows mA mS dataS,
    state (store mS) = Loaded dataS ->
    columns dataS = cols ->
    map row_data (items (rows dataS)) = map row_data newRows ->
    map id newRows = map id rows0 ->
    exists out mA' dataS',
      apply_edits edits (items cols) (index_rows rows0 0 JSObject.empty) newRows mA
      = (Ok out, mA')
      /\ state (store (run_calls (map update_call edits) mS)) = Loaded dataS'
      /\ columns dataS' = cols
      /\ map row_data (items (rows dataS')) = map row_data out.
Proof.
  intros Hnd Hpat. induction edits as [|e edits IH];
    intros newRows mA mS dataS Hs Hc Hd Hids; simpl.
  - exists newRows, mA, dataS. auto.
  - pose proof (@row_data_ids _ _ Hd) as HidsS.
    rewrite (@index_rows_findIndex rows0 (rowId e) Hnd).
    rewrite <- (@findIndex_by_ids (rowId e) _ _ Hids).
    rewrite <- (@findIndex_by_ids (rowId e) _ _ HidsS).
    destruct (findIndex _ (items (rows dataS))) as [i|] eqn:Ei.
    2:{ rewrite (@updateCell_skips (rowId e) (columnKey e) (value e) mS dataS Hs)
          by (now left).
        simpl. now apply (IH newRows mA mS dataS). }
    destruct (find _ (items cols)) as [col|] eqn:Ef.
    2:{ rewrite (@updateCell_skips (rowId e) (columnKey e) (value e) mS dataS Hs)
          by (right; now rewrite Hc).
        simpl. now apply (IH newRows mA mS dataS). }
    destruct (DataFacts.findIndex_Some _ _ Ei) as [rowS [HnS _]].
    destruct (@nth_error_row_data _ _ _ _ Hd HnS) as [row [Hn Hrow]].
    rewrite Hn.
    assert (Hcol : patterns_compile col = true).
    { apply DataFacts.find_key in Ef. destruct Ef as [Hin _].
      exact (proj1 (Forall_forall _ _) Hpat col Hin). }
    destruct (RuleFacts.validateCell_returns (value e) col Hcol) as [es Hv].
    unfold bind. rewrite StepFacts.edited_row_run, Hv.
    rewrite <- Hc in Ef.
    pose proof (DataFacts.updateCell_run (rowId e) (columnKey e) (value e) mS
                  Hs Ei Ef HnS Hv) as Hrun.
    cbv zeta in Hrun. rewrite Hrun. simpl.
    match goal with |- context [run_calls _ ?mS'] =>
      match goal with |- context [apply_edits _ _ _ ?rs ?mA'] =>
        eapply (IH rs mA' mS')
      end
    end.
    + reflexivity.
    + exact Hc.
    + cbn [rows items]. rewrite !map_assign_commute. rewrite Hd. f_equal.
      fold (edited rowS (columnKey e) (value e) es (next_ref (world mS))).
      now apply row_data_edited.
    + rewrite <- Hids. eapply map_assign; [exact Hn|reflexivity].
Qed.

Lemma run_updates_unloaded (edits : list CellEdit) (m : Machine) :
  (forall data, state (store m) <> Loaded data) ->
  run_calls (map update_call edits) m = m.
Proof.
  intros Hs. induction edits as [|e edits IH]; simpl; [reflexivity|].
  unfold updateCell, bind, this, ret.
  destruct (state (store m)) as [| |data|] eqn:E; simpl; try exact IH.
  now destruct (Hs data).
Qed.

(** X17. A batch is a sequence of single edits.  On a store whose patterns
    all compile, [batchUpdateCells] returns and leaves rows that hold the
    same ids, cells and errors as the calls of [updateCell] for the same
    edits, one after the other, would leave; the columns and the exported
    data are the same too.  (The two differ in the notifications: one for
    the batch, one per effective edit for the sequence.) *)
Theorem batch_is_a_sequence_of_updates (edits : list CellEdit) (m : Machine) :
  reachable m ->
  Forall (fun col => patterns_compile col = true) (getColumns (store m)) ->
  let m1 := after (batchUpdateCells edits) m in
  let m2 := run_calls (map update_call edits) m in
  batchUpdateCells edits m = (Ok tt, m1)
  /\ map row_data (getRows (store m1)) = map row_data (getRows (store m2))
  /\ getColumns (store m1) = getColumns (store m2)
  /\ exportData (store m1) = exportData (store m2).
Proof.
  intros Hm Hpat. cbv zeta.
  pose proof (reachable_ids_unique Hm) as Hu.
  unfold after, batchUpdateCells, bind, this, ret.
  unfold getColumns, getRows, getData, exportData in *.
  destruct (state (store m)) as [| |data|] eqn:Hs; simpl in *.
  1,2,4: rewrite run_updates_unloaded by (intros d; rewrite Hs; discriminate);
    rewrite Hs; repeat split.
  match goal with |- context [apply_edits _ _ _ _ ?mA] =>
    destruct (@apply_edits_as_updates (columns data) (items (rows data)) edits
                Hu Hpat (items (rows data)) mA m data Hs eq_refl eq_refl eq_refl)
      as [out [mA' [dataS' [Ha [Hs' [Hc' Hd']]]]]]
  end.
  rewrite Ha, Hs'. unfold setState, notify, bind. simpl.
  split; [reflexivity|]. split; [now rewrite Hd'|]. split; [now rewrite Hc'|].
  f_equal. apply (f_equal (map (fun d => snd (fst d)))) in Hd'.
  rewrite !map_map in Hd'. simpl in Hd'. symmetry. exact Hd'.
Qed.

End WithRuntime.

(** X17, witness: two edits on the store of Alice and Bob. *)
Lemma batch_is_a_sequence_of_updates_witness :
  let m1 := after (batchUpdateCells (runtime := Reference.runtime) two_edits)
              alice_and_bob in
  let m2 := run_calls (runtime := Reference.runtime) (map update_call two_edits)
              alice_and_bob in
  batchUpdateCells (runtime := Reference.runtime) two_edits alice_and_bob = (Ok tt, m1)
  /\ map row_data (getRows (store m1)) = map row_data (getRows (store m2))
  /\ getColumns (store m1) = getColumns (store m2)
  /\ exportData (store m1) = exportData (store m2).
Proof.
  intros m1 m2.
  apply (@batch_is_a_sequence_of_updates Reference.runtime two_edits alice_and_bob
           (reachable_session _ _)).
  apply Forall_forall. intros col Hin. vm_compute in Hin.
  destruct Hin as [<-|[<-|[]]]; reflexivity.
Defined.

End BatchFacts.

(* ===================================================================== *)
(** * The nesting check of [parse] *)
(* ===================================================================== *)

Module NestingFacts.
Import Types Parse Statements Notions ParseFacts.
Local Open Scope list_scope.

Lemma object_depth_cons (k : string) (v : JValue) (rest : list (string * JValue)) :
  object_depth (JObj ((k, v) :: rest))
  = Nat.max (match v with JObj _ => S (object_depth v) | _ => 0 end)
            (object_depth (JObj rest)).
Proof. reflexivity. Qed.

Lemma holds_array_cons (k : string) (v : JValue) (rest : list (string * JValue)) :
  holds_array (JObj ((k, v) :: rest))
  = (match v with JArr _ => true | _ => holds_array v end
     || holds_array (JObj rest)).
Proof. reflexivity. Qed.

(** [validateNesting] accepts an object exactly when objects are nested
    in it no deeper than allowed and no array is among the values. *)
Lemma validateNesting_value_accepts (i d : nat) (v : JValue) :
  forall c, c <= d ->
    (validateNesting_value v i d c = Ok tt
     <-> c + object_depth v <= d /\ holds_array v = false).
Proof.
  induction v as [| b | n | s | items _ | props IH] using JValue_nested_ind;
    intros c Hc; try (simpl; split; [intros _; split; [lia|reflexivity]|reflexivity]).
  induction props as [|[k v] rest IHrest].
  - simpl. split; [intros _; split; [lia|reflexivity]|reflexivity].
  - inversion IH as [|? ? Hv Hrest]; subst. simpl in Hv.
    specialize (IHrest Hrest).
    change (validateNesting_value (JObj ((k, v) :: rest)) i d c)
      with (validateNesting ((k, v) :: rest) i d c).
    rewrite validateNesting_cons, object_depth_cons, holds_array_cons.
    change (validateNesting rest i d c)
      with (validateNesting_value (JObj rest) i d c).
    destruct v as [| b | n | s | items | o]; cbn [rbind is_array orb];
      try (rewrite IHrest; rewrite Nat.max_0_l; tauto).
    + split; [discriminate|]. intros [_ H]. discriminate.
    + destruct (d <=? c) eqn:E.
      * apply Nat.leb_le in E. cbn [rbind]. split; [discriminate|]. intros [H _]. lia.
      * apply Nat.leb_gt in E.
        change (validateNesting o i d (S c))
          with (validateNesting_value (JObj o) i d (S c)).
        destruct (validateNesting_value (JObj o) i d (S c)) as [[]|e] eqn:Ho;
          cbn [rbind].
        -- apply (Hv (S c)) in Ho; [|lia]. destruct Ho as [Hd Ha].
           rewrite Ha. cbn [orb]. rewrite IHrest.
           split; intros [H1 H2]; split; auto; lia.
        -- split; [discriminate|]. intros [H1 H2].
           apply orb_false_iff in H2. destruct H2 as [H2 _].
           assert (Hok : validateNesting_value (JObj o) i d (S c) = Ok tt)
             by (apply (Hv (S c)); [lia|split; [lia|assumption]]).
           congruence.
Qed.

(** X18. What [validateNesting] accepts.  It returns on a record exactly
    when objects are nested in the record's values no deeper than
    [maxDepth] and no value of the record or of an object nested in it is
    an array; so with [maxDepth] 0 every object value is refused.  The
    loop of [parse] over the records returns exactly when every record is
    an object that [validateNesting] accepts. *)
Theorem validateNesting_accepts (maxDepth : nat) :
  (forall obj i,
     validateNesting obj i maxDepth 0 = Ok tt
     <-> object_depth (JObj obj) <= maxDepth /\ holds_array (JObj obj) = false)
  /\ (forall records i,
        check_records records i maxDepth = Ok tt
        <-> Forall (fun r => is_plain_object r = true
                             /\ object_depth r <= maxDepth
                             /\ holds_array r = false) records).
Proof.
  assert (Hobj : forall obj i,
            validateNesting obj i maxDepth 0 = Ok tt
            <-> object_depth (JObj obj) <= maxDepth /\ holds_array (JObj obj) = false).
  { intros obj i. unfold validateNesting.
    rewrite (validateNesting_value_accepts i (JObj obj) (c := 0)) by lia.
    simpl. tauto. }
  split; [exact Hobj|].
  induction records as [|r records IH]; intros i; simpl.
  - split; [constructor|reflexivity].
  - destruct r as [| b | n | s | items | props];
      try (split; [discriminate|intros H; inversion H as [|? ? [H1 _] _]; discriminate]).
    destruct (validateNesting props i maxDepth 0) as [[]|e] eqn:Hv; simpl.
    + rewrite IH. apply Hobj in Hv. split.
      * intros H. constructor; [tauto|assumption].
      * intros H. now inversion H.
    + split; [discriminate|]. intros H. inversion H as [|? ? [_ H1] _]; subst.
      apply (Hobj props i) in H1. congruence.
Qed.

End NestingFacts.

(* ===================================================================== *)
(** * Dates, and [parse] called twice *)
(* ===================================================================== *)

Module InferenceFacts.
Import Types Parse Statements Notions ParseFacts.
Local Open Scope list_scope.

Lemma normalize_offset_no_space (s : string) :
  no_space s = true -> normalize_offset s = s.
Proof.
  induction s as [|c r IH]; [reflexivity|].
  intros H. simpl in H. apply andb_true_iff in H. destruct H as [_ Hr].
  cbn [normalize_offset].
  assert (Hno : test_whole spaced_offset (String c r) = false).
  { unfold test_whole, spaced_offset. cbn [match_atoms].
    destruct (atom_matches Digit c); [|reflexivity].
    destruct r as [|c2 r2]; [reflexivity|].
    simpl in Hr. apply andb_true_iff in Hr. destruct Hr as [Hc2 _].
    apply negb_true_iff in Hc2. cbn [atom_matches]. now rewrite Hc2. }
  rewrite Hno. now rewrite (IH Hr).
Qed.

Lemma match_atoms_no_space (p : list atom) (s : string) :
  Forall (fun a => atom_matches a " " = false) p ->
  match_atoms p s = Some EmptyString -> no_space s = true.
Proof.
  intros Hp. revert s. induction Hp as [|a p Ha _ IH]; intros s; simpl.
  - now intros [= ->].
  - destruct s as [|c r]; [discriminate|].
    destruct (atom_matches a c) eqn:Hc; [|discriminate].
    intros H. simpl. rewrite (IH r H), andb_true_r.
    apply negb_true_iff. destruct (Ascii.eqb c " ") eqn:E; [|reflexivity].
    apply Ascii.eqb_eq in E. subst c. congruence.
Qed.

Lemma test_whole_no_space (p : list atom) (s : string) :
  Forall (fun a => atom_matches a " " = false) p ->
  test_whole p s = true -> no_space s = true.
Proof.
  intros Hp. unfold test_whole.
  destruct (match_atoms p s) as [[|c r]|] eqn:E; try discriminate.
  intros _. now apply (@match_atoms_no_space p s Hp).
Qed.

Lemma date_only_no_space (s : string) :
  test_whole iso_date s || test_whole us_date s = true -> no_space s = true.
Proof.
  intros H. apply orb_true_iff in H. destruct H as [H|H];
    (eapply test_whole_no_space; [|exact H]); repeat constructor.
Qed.

Section WithRuntime.
Context {runtime : Runtime}.

(** X19. Inference and validation agree on date-only strings.  For a
    string in the shape YYYY-MM-DD or MM/DD/YYYY, [detectValueType]
    classifies it as a date exactly when the type check of a date column
    accepts it: both ask the runtime whether the very same string is a
    valid date, since the normalisation of a time zone offset leaves such
    a string as it is. *)
Theorem date_only_strings_agree (s k : string) :
  test_whole iso_date s || test_whole us_date s = true ->
  normalize_offset s = s
  /\ isDateString s = Date_valid s
  /\ (detectValueType (JStr s) = DATE
      <-> Validate.validateType (CString s) DATE k = []).
Proof.
  intros H. pose proof (@normalize_offset_no_space s (@date_only_no_space s H)) as Hn.
  assert (Hd : isDateString s = Date_valid s).
  { unfold isDateString. rewrite Hn.
    apply orb_true_iff in H. destruct H as [H|H]; rewrite H; simpl;
      rewrite ?orb_true_r; reflexivity. }
  split; [exact Hn|]. split; [exact Hd|].
  cbn [detectValueType Validate.validateType]. rewrite Hd. unfold Validate.type_error.
  destruct (Date_valid s); split; try discriminate; reflexivity.
Qed.

Lemma build_rows_cells (recs : list (JSObject.t JValue)) (cols : list Column)
  (i : nat) (w w' : World) (rs : list Row) :
  build_rows recs i cols w = (Ok rs, w') ->
  map cells rs = map (fun record => buildCells record cols) recs
  /\ map errors rs = map (fun _ => JSObject.empty) recs.
Proof.
  intros H. destruct (build_rows_returns recs i cols w) as [rs0 [w0 [E [Hc _]]]].
  rewrite E in H. injection H as -> ->. clear E.
  induction Hc as [|record row recs rs [Hcells Herr] _ [IH1 IH2]]; simpl; auto.
  rewrite Hcells, Herr, IH1, IH2. auto.
Qed.

(** X20. [parse] depends on the session for ids, addresses and the time
    only.  Two calls with the same text and options, at any two moments,
    both throw the same error or both return DataSets with the same
    columns (keys, labels, types, no rules), the same cells row by row, no
    errors, and the same file name and counts. *)
Theorem parse_twice (input : string) (options : ParseOptions) (w1 w2 : World) :
  match fst (parse input options w1), fst (parse input options w2) with
  | Ok ds1, Ok ds2 =>
      items (columns ds1) = items (columns ds2)
      /\ map cells (items (rows ds1)) = map cells (items (rows ds2))
      /\ map errors (items (rows ds1)) = map errors (items (rows ds2))
      /\ Forall (fun row => errors row = JSObject.empty) (items (rows ds1))
      /\ fileName (metadata ds1) = fileName (metadata ds2)
      /\ rowCount (metadata ds1) = rowCount (metadata ds2)
      /\ columnCount (metadata ds1) = columnCount (metadata ds2)
  | Throw e1, Throw e2 => e1 = e2
  | _, _ => False
  end.
Proof.
  unfold parse.
  destruct (_ <? N.of_nat (String.length input))%N; [reflexivity|].
  destruct (utf16_length (trim input) =? 0); [reflexivity|].
  destruct (JSON.parse input) as [[| | | | records |]|]; try reflexivity.
  destruct (length records =? 0); [reflexivity|].
  unfold bind, of_result.
  destruct (check_records records 0 _) as [[]|e]; [|reflexivity].
  destruct (length (JSObject.keys (hd [] (map as_record records))) =? 0);
    [reflexivity|].
  unfold alloc at 1 2 3 4. simpl.
  match goal with |- context [build_rows ?r 0 ?c ?wa] =>
    destruct (build_rows r 0 c wa) as [[rs1|e1] wa'] eqn:E1 end.
  2:{ destruct (build_rows_returns (map as_record records) 0
                  (map (fun k => {| key := k; label := formatLabel k;
                                    type := inferColumnType (map as_record records) k;
                                    validation := None |})
                       (JSObject.keys (hd [] (map as_record records))))
                  {| next_ref := S (S (next_ref w1));
                     rowIdCounter := rowIdCounter w1;
                     clock_reads := clock_reads w1 |}) as [x [y [E _]]].
      congruence. }
  match goal with |- context [build_rows ?r 0 ?c ?wb] =>
    lazymatch wb with
    | context [w2] => destruct (build_rows r 0 c wb) as [[rs2|e2] wb'] eqn:E2
    end end.
  2:{ destruct (build_rows_returns (map as_record records) 0
                  (map (fun k => {| key := k; label := formatLabel k;
                                    type := inferColumnType (map as_record records) k;
                                    validation := None |})
                       (JSObject.keys (hd [] (map as_record records))))
                  {| next_ref := S (S (next_ref w2));
                     rowIdCounter := rowIdCounter w2;
                     clock_reads := clock_reads w2 |}) as [x [y [E _]]].
      congruence. }
  apply build_rows_cells in E1, E2. destruct E1 as [Hc1 He1], E2 as [Hc2 He2].
  unfold read_clock, alloc, ret. simpl.
  split; [reflexivity|]. split; [congruence|]. split; [congruence|].
  split.
  - apply Forall_forall. intros row Hin.
    apply (in_map errors) in Hin. rewrite He1 in Hin.
    apply in_map_iff in Hin. destruct Hin as [x [Hx _]]. now symmetry.
  - split; [reflexivity|]. split; [|reflexivity].
    apply (f_equal (@length _)) in Hc1, Hc2. rewrite !length_map in Hc1, Hc2.
    congruence.
Qed.

End WithRuntime.

(** X19, witness: the 15th of January 2024. *)
Lemma date_only_strings_agree_witness :
  normalize_offset "2024-01-15" = "2024-01-15"
  /\ isDateString (runtime := Reference.runtime) "2024-01-15"
     = Date_valid (Runtime := Reference.runtime) "2024-01-15"
  /\ (detectValueType (runtime := Reference.runtime) (JStr "2024-01-15") = DATE
      <-> Validate.validateType (runtime := Reference.runtime)
            (CString "2024-01-15") DATE "day" = []).
Proof.
  apply (@date_only_strings_agree Reference.runtime "2024-01-15" "day").
  vm_compute. reflexivity.
Defined.

End InferenceFacts.

(* ===================================================================== *)
(** * The helpers of the frontend *)
(* ===================================================================== *)

Module FrontendFacts.
Import Types DataTable Notions Validate.
Local Open Scope list_scope.

Lemma page_indices_app (a b : list PageItem) :
  page_indices (a ++ b) = page_indices a ++ page_indices b.
Proof. unfold page_indices. now rewrite flat_map_app. Qed.

Lemma page_indices_pages (f : nat -> Z) (l : list nat) :
  page_indices (map (fun i => Page (f i)) l) = map f l.
Proof. induction l as [|x l IH]; simpl; [reflexivity|now rewrite <- IH]. Qed.

Lemma sorted_from (s : Z) (n i : nat) :
  StronglySorted Z.lt (map (fun j => (s + Z.of_nat j)%Z) (seq i n)).
Proof.
  revert i. induction n as [|n IH]; intros i; simpl; constructor.
  - apply IH.
  - apply Forall_forall. intros x Hx. apply in_map_iff in Hx.
    destruct Hx as [j [<- Hj]]. apply in_seq in Hj. lia.
Qed.

Lemma sorted_snoc (l : list Z) (x : Z) :
  StronglySorted Z.lt l -> Forall (fun y => (y < x)%Z) l ->
  StronglySorted Z.lt (l ++ [x]).
Proof.
  induction 1 as [|a l Hs IH Ha]; intros Hall; simpl.
  - repeat constructor.
  - inversion Hall; subst. constructor; [now apply IH|].
    apply Forall_app. split; [assumption|now constructor].
Qed.

Lemma gaps_marked_run (s : Z) (n i : nat) (rest : list PageItem) :
  gaps_marked (Some (s + Z.of_nat i - 1)%Z) false
    (map (fun j => Page (s + Z.of_nat j)) (seq i n) ++ rest)
  = gaps_marked (Some (s + Z.of_nat (i + n) - 1)%Z) false rest.
Proof.
  revert i. induction n as [|n IH]; intros i; simpl.
  - now rewrite Nat.add_0_r.
  - replace (s + Z.of_nat i =? s + Z.of_nat i - 1 + 1)%Z with true
      by (symmetry; apply Z.eqb_eq; lia).
    simpl. replace (s + Z.of_nat i)%Z with (s + Z.of_nat (S i) - 1)%Z at 1 by lia.
    rewrite IH. do 3 f_equal. lia.
Qed.

(** X21. The page buttons.  The page indices [getPageNumbers] lists are
    strictly increasing and are pages of the table, and there are at most
    nine buttons; with seven pages or fewer every page is listed.  When
    the current page is a page of the table, it is listed, the list starts
    at the first page and ends at the last one, and two indices that
    follow each other are consecutive unless an ellipsis stands between
    them, which then stands for at least one page left out. *)
Theorem getPageNumbers_shape (pageCount currentPage : Z) :
  let items := getPageNumbers pageCount currentPage in
  StronglySorted Z.lt (page_indices items)
  /\ Forall (fun p => 0 <= p < pageCount)%Z (page_indices items)
  /\ length items <= 9
  /\ ((pageCount <= 7)%Z ->
        items = map (fun i => Page (Z.of_nat i)) (seq 0 (Z.to_nat pageCount)))
  /\ ((0 <= currentPage < pageCount)%Z ->
        In currentPage (page_indices items)
        /\ hd Ellipsis items = Page 0
        /\ last items Ellipsis = Page (pageCount - 1)
        /\ gaps_marked None false items = true).
Proof.
  intros items. subst items. unfold getPageNumbers.
  destruct (pageCount <=? 7)%Z eqn:Hsmall.
  - apply Z.leb_le in Hsmall.
    rewrite (page_indices_pages (fun i => Z.of_nat i)).
    repeat split.
    + apply (sorted_from 0).
    + apply Forall_forall. intros x Hx. apply in_map_iff in Hx.
      destruct Hx as [j [<- Hj]]. apply in_seq in Hj. lia.
    + rewrite length_map, length_seq. lia.
    + apply in_map_iff. exists (Z.to_nat currentPage). split; [lia|].
      apply in_seq. lia.
    + destruct (Z.to_nat pageCount) eqn:E; [lia|reflexivity].
    + destruct (Z.to_nat pageCount) eqn:E; [lia|].
      rewrite seq_S, map_app. cbn [map]. rewrite last_last. f_equal. lia.
    + destruct (Z.to_nat pageCount) as [|n] eqn:E; [lia|].
      simpl. rewrite <- (app_nil_r (map _ (seq 1 n))).
      exact (gaps_marked_run 0 n 1 []).
  - apply Z.leb_gt in Hsmall.
    set (start := Z.max 1 (currentPage - 2)).
    set (end_ := Z.min (pageCount - 2) (currentPage + 2)).
    assert (Hstart : (1 <= start)%Z) by (unfold start; lia).
    assert (Hend : (end_ <= pageCount - 2)%Z) by (unfold end_; lia).
    assert (Hlen : (Z.to_nat (end_ - start + 1) <= 5)%nat) by (unfold start, end_; lia).
    unfold page_range.
    rewrite !page_indices_app, (page_indices_pages (fun i => (start + Z.of_nat i)%Z)).
    assert (Hpre : page_indices (if (1 <? start)%Z then [Ellipsis] else []) = [])
      by (destruct (1 <? start)%Z; reflexivity).
    assert (Hpost : page_indices (if (end_ <? pageCount - 2)%Z then [Ellipsis] else []) = [])
      by (destruct (end_ <? pageCount - 2)%Z; reflexivity).
    rewrite Hpre, Hpost. cbn [page_indices flat_map app].
    assert (Hin : forall x,
              In x (map (fun i => (start + Z.of_nat i)%Z)
                      (seq 0 (Z.to_nat (end_ - start + 1))))
              <-> (start <= x <= end_)%Z).
    { intros x. rewrite in_map_iff. split.
      - intros [j [<- Hj]]. apply in_seq in Hj. lia.
      - intros Hx. exists (Z.to_nat (x - start)). split; [lia|]. apply in_seq. lia. }
    repeat split.
    + constructor.
      * apply sorted_snoc; [apply sorted_from|].
        apply Forall_forall. intros x Hx. apply Hin in Hx. lia.
      * apply Forall_forall. intros x Hx. apply in_app_iff in Hx.
        destruct Hx as [Hx|[<-|[]]]; [apply Hin in Hx|]; lia.
    + constructor; [lia|]. apply Forall_forall. intros x Hx. apply in_app_iff in Hx.
      destruct Hx as [Hx|[<-|[]]]; [apply Hin in Hx|]; lia.
    + cbn [length]. rewrite !length_app, length_map, length_seq.
      destruct (1 <? start)%Z, (end_ <? pageCount - 2)%Z; simpl; lia.
    + lia.
    + destruct (Z.eq_dec currentPage 0) as [->|Hne]; [now left|]. right.
      apply in_app_iff.
      destruct (Z.eq_dec currentPage (pageCount - 1)) as [->|Hne'];
        [right; now left|].
      left. apply Hin. unfold start, end_. lia.
    + rewrite !app_comm_cons, !app_assoc, last_last. reflexivity.
    + assert (Hne : (start <= end_)%Z) by (unfold start, end_; lia).
      assert (Hrun : forall a pend,
                gaps_marked (Some a) pend
                  (map (fun i => Page (start + Z.of_nat i))
                       (seq 0 (Z.to_nat (end_ - start + 1)))
                   ++ (if (end_ <? pageCount - 2)%Z then [Ellipsis] else [])
                   ++ [Page (pageCount - 1)])
                = (if pend then (a + 1 <? start)%Z else (start =? a + 1)%Z)).
      { intros a pend.
        destruct (Z.to_nat (end_ - start + 1)) as [|n] eqn:E; [lia|].
        simpl. rewrite Z.add_0_r.
        assert (E1 : Some start = Some (start + Z.of_nat 1 - 1)%Z) by (f_equal; lia).
        rewrite E1, gaps_marked_run.
        replace (start + Z.of_nat (1 + n) - 1)%Z with end_ by lia.
        destruct (end_ <? pageCount - 2)%Z eqn:Hgap; simpl.
        - apply Z.ltb_lt in Hgap.
          replace (end_ + 1 <? pageCount - 1)%Z with true
            by (symmetry; apply Z.ltb_lt; lia).
          now rewrite andb_true_r.
        - apply Z.ltb_ge in Hgap.
          replace (pageCount - 1 =? end_ + 1)%Z with true
            by (symmetry; apply Z.eqb_eq; lia).
          now rewrite andb_true_r. }
      simpl. destruct (1 <? start)%Z eqn:Hgap; simpl; rewrite Hrun.
      * apply Z.ltb_lt in Hgap. apply Z.ltb_lt. lia.
      * apply Z.ltb_ge in Hgap. apply Z.eqb_eq. lia.
Qed.

Ltac words input :=
  destruct (toLowerCase input =? "true")%string eqn:E1;
  destruct (toLowerCase input =? "false")%string eqn:E2;
  destruct (toLowerCase input =? "yes")%string eqn:E3;
  destruct (toLowerCase input =? "no")%string eqn:E4;
  destruct (toLowerCase input =? "1")%string eqn:E5;
  destruct (toLowerCase input =? "0")%string eqn:E6;
  cbn [orb]; cbv iota beta;
  rewrite ?E1, ?E2, ?E3, ?E4, ?E5, ?E6; cbn [orb].

Section WithRuntime.
Context {runtime : Runtime}.

(** X22. What the cell editor produces agrees with the validator.
    [parseEditValue] gives null exactly for a blank text.  For any other
    text the value it gives has the type errors of the text itself, so
    converting the text never changes whether the cell conforms; and in a
    number or boolean column the value is free of type errors exactly when
    the editor converted it, that is when it is not left a string. *)
Theorem parseEditValue_conformance (input : string) (t : CellType) (k : string) :
  (parseEditValue input t = CNull <-> trim input = "")
  /\ (trim input <> "" ->
        validateType (parseEditValue input t) t k = validateType (CString input) t k)
  /\ (t = NUMBER \/ t = BOOLEAN ->
        (validateType (parseEditValue input t) t k = []
         <-> forall s, parseEditValue input t <> CString s)).
Proof.
  unfold parseEditValue.
  destruct (String.eqb (trim input) "") eqn:Hblank.
  - apply String.eqb_eq in Hblank. repeat split; try easy.
  - assert (Hne : trim input <> "") by (now apply String.eqb_neq).
    split; [|split].
    + split; [|easy].
      destruct t; try discriminate.
      * destruct (isNaN (Number input)); discriminate.
      * destruct (existsb _ _); [discriminate|].
        destruct (existsb _ _); discriminate.
    + intros _. destruct t; try reflexivity.
      * cbv zeta. destruct (isNaN (Number input)) eqn:Hnan; [reflexivity|].
        unfold validateType. cbv zeta. now rewrite Hnan, Hblank.
      * unfold validateType, boolean_words. cbn [existsb]. cbv zeta.
        words input; reflexivity.
    + intros [-> | ->].
      * cbv zeta. destruct (isNaN (Number input)) eqn:Hnan.
        -- unfold validateType. cbv zeta. rewrite Hnan. cbn [negb andb].
           split; [discriminate|]. intros H. now destruct (H input).
        -- split; [discriminate|reflexivity].
      * unfold validateType, boolean_words, type_error. cbn [existsb]. cbv zeta.
        words input;
          (split; intros H;
           [ try discriminate; intros s; discriminate
           | try reflexivity; now destruct (H input) ]).
Qed.

End WithRuntime.
End FrontendFacts.
